(** * GameMoments: the session and data-integrity engine of [app.js]

    A shallow embedding of the one-tap soccer event logger: the in-memory
    session (current game, half, clock, event list), the IndexedDB stores it
    writes through to, and the derived views (scoreboard, filtered review,
    time adjustment, export file name, saved-games listing).

    Conventions of the embedding.
    - A JavaScript string is a [string]; each character stands for one
      UTF-16 code unit below 256.
    - A JavaScript number that the program only ever uses as an integer
      (half, seconds, offsets, epoch milliseconds) is a [Z]; [NaN] is the
      [None] of an [option Z]. A number is a double: it holds every integer
      of magnitude up to 2^53 and rounds beyond. The rounding is written
      out ([JS.toDouble]) at the two places where one step can take a value
      out of that range, the reading of a typed offset and the sum in
      [applyTimeAdjust]; counters that move by one (clock, score) stay
      exact. [Infinity] (beyond about 1.8e308) is not modelled.
    - The module-level [let] variables of [app.js] are the fields of one
      [Session] record, threaded explicitly through every function; the DOM
      nodes the engine reads or writes are the fields of its [dom].
    - What a function reads from its environment (the wall clock, the random
      suffix of an event id, the answer to a confirmation dialog, whether a
      storage write succeeds) is an explicit argument. A write that fails
      rejects the awaited promise, which ends the [async] function there;
      reads from the store are taken to succeed.
    - Haptics, flashes and the wake lock have no effect on the session and
      are left out; the service worker has a part of its own ([SW]). *)

From Stdlib Require Import ZArith Ascii String List Lia Permutation Sorted.
From stdpp Require Import base tactics option list strings gmap fin_maps pretty sorting.

Local Open Scope Z_scope.

(** ** JavaScript built-ins used by [app.js] *)

Module JS.

(** *** Characters *)

Definition code (c : ascii) : Z := Z.of_N (N_of_ascii c).

Definition isDigit (c : ascii) : bool := (48 <=? code c) && (code c <=? 57).

Definition isUpper (c : ascii) : bool := (65 <=? code c) && (code c <=? 90).

Definition isLower (c : ascii) : bool := (97 <=? code c) && (code c <=? 122).

(** [StrWhiteSpaceChar] restricted to code units below 256: TAB, LF, VT,
    FF, CR, SP and NBSP. *)
Definition isWhiteSpace (c : ascii) : bool :=
  ((9 <=? code c) && (code c <=? 13)) || (code c =? 32) || (code c =? 160).

Definition digitValue (c : ascii) : Z := code c - 48.

Definition digitChar (d : Z) : ascii := ascii_of_N (Z.to_N (48 + d mod 10)).

(** *** String.prototype *)

Definition startsWith (s p : string) : bool := String.prefix p s.

Definition endsWith (s p : string) : bool :=
  let n := String.length s in
  let k := String.length p in
  if (k <=? n)%nat then String.eqb (String.substring (n - k) k s) p else false.

(** [s.slice(0, n)] for a non-negative [n]. *)
Definition slice0 (n : nat) (s : string) : string := String.substring 0 n s.

Fixpoint mapChars (f : ascii -> ascii) (s : string) : string :=
  match s with
  | EmptyString => EmptyString
  | String c r => String (f c) (mapChars f r)
  end.

Fixpoint trimStart (s : string) : string :=
  match s with
  | EmptyString => EmptyString
  | String c r => if isWhiteSpace c then trimStart r else s
  end.

Fixpoint revString (acc s : string) : string :=
  match s with
  | EmptyString => acc
  | String c r => revString (String c acc) r
  end.

Definition trimEnd (s : string) : string :=
  revString EmptyString (trimStart (revString EmptyString s)).

Definition trim (s : string) : string := trimEnd (trimStart s).

(** [s || d] for a string [s]: the empty string is falsy. *)
Definition orString (s d : string) : string :=
  match s with EmptyString => d | _ => s end.

(** [String(n).padStart(k, '0')] for a non-negative integer [n]. *)
Definition padStart0 (k : nat) (s : string) : string :=
  String.string_of_list_ascii (repeat "0"%char (k - String.length s)) +:+ s.

(** *** Numbers *)

(** The integers that a number holds exactly and next to which it holds the
    neighbours exactly too ([Number.isSafeInteger]). *)
Definition safeInteger (z : Z) : Prop := - 2 ^ 53 < z < 2 ^ 53.

(** The number nearest to the integer [z]: 53 significant bits, round to
    nearest, ties to the even significand. [excess] is the number of bits
    that do not fit. *)
Definition toDouble (z : Z) : Z :=
  let m := Z.abs z in
  let excess := Z.log2 m - 52 in
  if excess <=? 0 then z else
  let q := Z.shiftr m excess in
  let r := m - Z.shiftl q excess in
  let half := Z.shiftl 1 (excess - 1) in
  let q' := if (half <? r) || ((half =? r) && Z.odd q) then q + 1 else q in
  Z.sgn z * Z.shiftl q' excess.

(** *** parseInt(s, 10) *)

(** The longest prefix of decimal digits, read left to right; [None] when
    the prefix is empty. *)
Fixpoint digitsPrefix (acc : option Z) (s : string) : option Z :=
  match s with
  | EmptyString => acc
  | String c r =>
      if isDigit c
      then digitsPrefix (Some (10 * default 0 acc + digitValue c)) r
      else acc
  end.

(** Leading white space is skipped, one sign is accepted, then the digits
    are read; no digit at all gives [NaN]. *)
Definition parseInteger (s : string) : option Z :=
  match trimStart s with
  | String c r =>
      if Ascii.eqb c "-" then Z.opp <$> digitsPrefix None r
      else if Ascii.eqb c "+" then digitsPrefix None r
      else digitsPrefix None (String c r)
  | EmptyString => None
  end.

(** [parseInt(s, 10)]: the number for the integer read. (Beyond twenty
    significant digits an implementation may read the further digits as
    zeros.) *)
Definition parseInt10 (s : string) : option Z := toDouble <$> parseInteger s.

(** [v || 0] for a number [v]: [NaN] and zero are falsy. *)
Definition orZero (v : option Z) : Z := default 0 v.

(** *** Array.prototype *)

(** [SortCompare]: a comparator result that is [NaN] counts as [+0]. *)
Definition sortCompare {A} (cmp : A -> A -> option Z) (x y : A) : Z :=
  default 0 (cmp x y).

(** [Array.prototype.sort] is stable: an element is moved in front of the
    elements that follow it only as far as the comparator is strictly
    positive. *)
Fixpoint sortInsert {A} (cmp : A -> A -> option Z) (x : A) (l : list A) : list A :=
  match l with
  | [] => [x]
  | y :: r =>
      if 0 <? sortCompare cmp x y then y :: sortInsert cmp x r else x :: y :: r
  end.

Definition sort {A} (cmp : A -> A -> option Z) (l : list A) : list A :=
  foldr (sortInsert cmp) [] l.

(** [a.push(x)] and [a.pop()] on the array held in a variable. *)
Definition push {A} (l : list A) (x : A) : list A := l ++ [x].

Definition pop {A} (l : list A) : option (A * list A) :=
  match last l with
  | Some x => Some (x, removelast l)
  | None => None
  end.

End JS.

(** ** The [Date] built-in, as far as [app.js] uses it

    A [Date] holds a time value: milliseconds since the epoch, or [NaN].
    [app.js] writes dates with [toISOString] and reads them back with
    [new Date(string)], so the one string format modelled is the one
    [toISOString] produces, [YYYY-MM-DDTHH:mm:ss.sssZ]; any other string
    is outside the model and reads as [None]. *)

Module JSDate.

Definition msPerDay : Z := 86400000.

Definition Day (t : Z) : Z := t / msPerDay.

Definition TimeWithinDay (t : Z) : Z := t mod msPerDay.

(** The proleptic Gregorian calendar by 400-year eras of 146097 days that
    start on 1 March. Within an era, [yoeOfDoe] takes a day of the era to
    its year of the era (counted from March), [startOfYoe] is the first day
    of such a year, [monthDayOfDoy] takes a day of that year to its month and
    day of the month, and [doyOfMonthDay] goes back. *)
Definition yoeOfDoe (doe : Z) : Z :=
  (doe - doe / 1460 + doe / 36524 - doe / 146096) / 365.

Definition startOfYoe (yoe : Z) : Z := 365 * yoe + yoe / 4 - yoe / 100.

Definition monthDayOfDoy (doy : Z) : Z * Z :=
  let mp := (5 * doy + 2) / 153 in
  let d := doy - (153 * mp + 2) / 5 + 1 in
  let m := if mp <? 10 then mp + 3 else mp - 9 in
  (m, d).

Definition doyOfMonthDay (m d : Z) : Z :=
  let mp := if 2 <? m then m - 3 else m + 9 in
  (153 * mp + 2) / 5 + d - 1.

Definition civilOfDoe (doe : Z) : Z * Z * Z :=
  let yoe := yoeOfDoe doe in
  let '(m, d) := monthDayOfDoy (doe - startOfYoe yoe) in
  (yoe, m, d).

Definition doeOfCivil (yoe m d : Z) : Z := startOfYoe yoe + doyOfMonthDay m d.

(** Day number (days since 1970-01-01) to year, month and day of month. *)
Definition civilFromDays (z : Z) : Z * Z * Z :=
  let z := z + 719468 in
  let '(yoe, m, d) := civilOfDoe (z mod 146097) in
  (yoe + z / 146097 * 400 + (if m <=? 2 then 1 else 0), m, d).

Definition daysFromCivil (y m d : Z) : Z :=
  let y := if m <=? 2 then y - 1 else y in
  y / 400 * 146097 + doeOfCivil (y mod 400) m d - 719468.

Definition isLeap (y : Z) : bool :=
  ((y mod 4 =? 0) && negb (y mod 100 =? 0)) || (y mod 400 =? 0).

Definition daysInMonth (y m : Z) : Z :=
  if m =? 2 then (if isLeap y then 29 else 28)
  else if (m =? 4) || (m =? 6) || (m =? 9) || (m =? 11) then 30
  else 31.

(** The last [k] decimal digits of [n], zero padded, in front of [acc]. *)
Fixpoint digits (k : nat) (n : Z) (acc : string) : string :=
  match k with
  | O => acc
  | S k' => String (JS.digitChar (n / 10 ^ Z.of_nat k'))
              (digits k' (n mod 10 ^ Z.of_nat k') acc)
  end.

Definition yearString (y : Z) (acc : string) : string :=
  if (0 <=? y) && (y <=? 9999) then digits 4 y acc
  else String (if y <? 0 then "-"%char else "+"%char) (digits 6 (Z.abs y) acc).

(** The fields of an instant laid out as [YYYY-MM-DDTHH:mm:ss.sssZ];
    [year] writes the year in front of the rest. *)
Definition isoFields (year : string -> string) (m d hh mi ss ms : Z) : string :=
  let msZ := String "."%char (digits 3 ms "Z") in
  let ssZ := String ":"%char (digits 2 ss msZ) in
  let miZ := String ":"%char (digits 2 mi ssZ) in
  let hhZ := String "T"%char (digits 2 hh miZ) in
  year (String "-"%char (digits 2 m (String "-"%char (digits 2 d hhZ)))).

(** [Date.prototype.toISOString] on a valid time value. *)
Definition toISOString (t : Z) : string :=
  let '(y, m, d) := civilFromDays (Day t) in
  let r := TimeWithinDay t in
  isoFields (yearString y) m d (r / 3600000) (r / 60000 mod 60) (r / 1000 mod 60)
    (r mod 1000).

(** Exactly [k] decimal digits at the head of [s]. *)
Fixpoint readDigits (k : nat) (acc : Z) (s : string) : option (Z * string) :=
  match k with
  | O => Some (acc, s)
  | S k' =>
      match s with
      | String c r =>
          if JS.isDigit c then readDigits k' (10 * acc + JS.digitValue c) r else None
      | EmptyString => None
      end
  end.

Definition expect (c : ascii) (s : string) : option string :=
  match s with
  | String c' r => if Ascii.eqb c c' then Some r else None
  | EmptyString => None
  end.

(** [new Date(s)] for a string in the [toISOString] format of a year of
    four digits: the time value. [None] says that the string is not in that
    format; [new Date] gives an Invalid Date for some such strings and reads
    others (a date without a time, a time without milliseconds, a year of
    six digits with a sign), which are not modelled. What is stated below
    about a date takes a string that [parse] reads. *)
Definition parse (s : string) : option Z :=
  '(y, s) ← readDigits 4 0 s; s ← expect "-" s;
  '(m, s) ← readDigits 2 0 s; s ← expect "-" s;
  '(d, s) ← readDigits 2 0 s; s ← expect "T" s;
  '(hh, s) ← readDigits 2 0 s; s ← expect ":" s;
  '(mi, s) ← readDigits 2 0 s; s ← expect ":" s;
  '(ss, s) ← readDigits 2 0 s; s ← expect "." s;
  '(ms, s) ← readDigits 3 0 s; s ← expect "Z" s;
  if String.eqb s "" && (1 <=? m) && (m <=? 12) && (1 <=? d) && (d <=? daysInMonth y m)
     && (hh <=? 23) && (mi <=? 59) && (ss <=? 59)
  then Some (daysFromCivil y m d * msPerDay + hh * 3600000 + mi * 60000 + ss * 1000 + ms)
  else None.

(** [new Date(b) - new Date(a)] on two date strings. *)
Definition diff (b a : string) : option Z :=
  tb ← parse b; ta ← parse a; Some (tb - ta).

End JSDate.

(** ** Data model *)

(** A persisted Game record. *)
Record Game := mkGame {
  game_id : string;
  date : string;
  opponent : string;
  logger_name : string
}.

(** A persisted Event record; [ev_game_id] is its [game_id] field. *)
Record Event := mkEvent {
  event_id : string;
  ev_game_id : string;
  half : Z;
  t_half_seconds : Z;
  event_code : string;
  created_at : string
}.

Global Instance Game_eq_dec : EqDecision Game.
Proof. solve_decision. Defined.

Global Instance Event_eq_dec : EqDecision Event.
Proof. solve_decision. Defined.

(** The two IndexedDB object stores, [games] keyed by [game_id] and
    [events] keyed by [event_id]. *)
Record Store := mkStore {
  games : gmap string Game;
  events : gmap string Event
}.

Inductive Screen := setup | logging | review | gamesScreen.

(** The DOM nodes whose content the session engine reads or writes; purely
    presentational nodes (clock text, recent events, flashes) are left out. *)
Record Dom := mkDom {
  input_opponent : string;
  input_logger : string;
  score_pfc : Z;
  score_opp : Z;
  review_score : option (Z * Z);
  filter_half : string;
  filter_team : string;
  filter_type : string;
  adjust_h1 : string;
  adjust_h2 : string;
  events_list : list Event;
  games_list : list (Game * nat);
  screen : Screen;
  btn_half2_hidden : bool;
  btn_end_game_hidden : bool;
  btn_resume_logging_hidden : bool;
  toast : option string
}.

(** The module-level state of [app.js]. [clockInterval] is [true] while an
    interval handle is set. *)
Record Session := mkSession {
  db : Store;
  currentGame : option Game;
  currentEvents : list Event;
  currentHalf : Z;
  clockSeconds : Z;
  clockInterval : bool;
  gameActive : bool;
  dom : Dom
}.

(** *** Field updates *)

Definition setDb (v : Store) (s : Session) : Session :=
  mkSession v (currentGame s) (currentEvents s) (currentHalf s) (clockSeconds s)
    (clockInterval s) (gameActive s) (dom s).

Definition setCurrentGame (v : option Game) (s : Session) : Session :=
  mkSession (db s) v (currentEvents s) (currentHalf s) (clockSeconds s)
    (clockInterval s) (gameActive s) (dom s).

Definition setCurrentEvents (v : list Event) (s : Session) : Session :=
  mkSession (db s) (currentGame s) v (currentHalf s) (clockSeconds s)
    (clockInterval s) (gameActive s) (dom s).

Definition setCurrentHalf (v : Z) (s : Session) : Session :=
  mkSession (db s) (currentGame s) (currentEvents s) v (clockSeconds s)
    (clockInterval s) (gameActive s) (dom s).

Definition setClockSeconds (v : Z) (s : Session) : Session :=
  mkSession (db s) (currentGame s) (currentEvents s) (currentHalf s) v
    (clockInterval s) (gameActive s) (dom s).

Definition setClockInterval (v : bool) (s : Session) : Session :=
  mkSession (db s) (currentGame s) (currentEvents s) (currentHalf s) (clockSeconds s)
    v (gameActive s) (dom s).

Definition setGameActive (v : bool) (s : Session) : Session :=
  mkSession (db s) (currentGame s) (currentEvents s) (currentHalf s) (clockSeconds s)
    (clockInterval s) v (dom s).

Definition setDom (v : Dom) (s : Session) : Session :=
  mkSession (db s) (currentGame s) (currentEvents s) (currentHalf s) (clockSeconds s)
    (clockInterval s) (gameActive s) v.

Definition setScore (p o : Z) (d : Dom) : Dom :=
  mkDom (input_opponent d) (input_logger d) p o (review_score d)
    (filter_half d) (filter_team d) (filter_type d) (adjust_h1 d) (adjust_h2 d)
    (events_list d) (games_list d) (screen d)
    (btn_half2_hidden d) (btn_end_game_hidden d) (btn_resume_logging_hidden d) (toast d).

Definition setReviewScore (v : option (Z * Z)) (d : Dom) : Dom :=
  mkDom (input_opponent d) (input_logger d) (score_pfc d) (score_opp d) v
    (filter_half d) (filter_team d) (filter_type d) (adjust_h1 d) (adjust_h2 d)
    (events_list d) (games_list d) (screen d)
    (btn_half2_hidden d) (btn_end_game_hidden d) (btn_resume_logging_hidden d) (toast d).

Definition setFilters (h t ty : string) (d : Dom) : Dom :=
  mkDom (input_opponent d) (input_logger d) (score_pfc d) (score_opp d) (review_score d)
    h t ty (adjust_h1 d) (adjust_h2 d)
    (events_list d) (games_list d) (screen d)
    (btn_half2_hidden d) (btn_end_game_hidden d) (btn_resume_logging_hidden d) (toast d).

Definition setAdjust (a1 a2 : string) (d : Dom) : Dom :=
  mkDom (input_opponent d) (input_logger d) (score_pfc d) (score_opp d) (review_score d)
    (filter_half d) (filter_team d) (filter_type d) a1 a2
    (events_list d) (games_list d) (screen d)
    (btn_half2_hidden d) (btn_end_game_hidden d) (btn_resume_logging_hidden d) (toast d).

Definition setEventsList (v : list Event) (d : Dom) : Dom :=
  mkDom (input_opponent d) (input_logger d) (score_pfc d) (score_opp d) (review_score d)
    (filter_half d) (filter_team d) (filter_type d) (adjust_h1 d) (adjust_h2 d)
    v (games_list d) (screen d)
    (btn_half2_hidden d) (btn_end_game_hidden d) (btn_resume_logging_hidden d) (toast d).

Definition setGamesList (v : list (Game * nat)) (d : Dom) : Dom :=
  mkDom (input_opponent d) (input_logger d) (score_pfc d) (score_opp d) (review_score d)
    (filter_half d) (filter_team d) (filter_type d) (adjust_h1 d) (adjust_h2 d)
    (events_list d) v (screen d)
    (btn_half2_hidden d) (btn_end_game_hidden d) (btn_resume_logging_hidden d) (toast d).

Definition setScreen (v : Screen) (d : Dom) : Dom :=
  mkDom (input_opponent d) (input_logger d) (score_pfc d) (score_opp d) (review_score d)
    (filter_half d) (filter_team d) (filter_type d) (adjust_h1 d) (adjust_h2 d)
    (events_list d) (games_list d) v
    (btn_half2_hidden d) (btn_end_game_hidden d) (btn_resume_logging_hidden d) (toast d).

Definition setHidden (h2 eg rl : bool) (d : Dom) : Dom :=
  mkDom (input_opponent d) (input_logger d) (score_pfc d) (score_opp d) (review_score d)
    (filter_half d) (filter_team d) (filter_type d) (adjust_h1 d) (adjust_h2 d)
    (events_list d) (games_list d) (screen d) h2 eg rl (toast d).

Definition setToast (v : option string) (d : Dom) : Dom :=
  mkDom (input_opponent d) (input_logger d) (score_pfc d) (score_opp d) (review_score d)
    (filter_half d) (filter_team d) (filter_type d) (adjust_h1 d) (adjust_h2 d)
    (events_list d) (games_list d) (screen d)
    (btn_half2_hidden d) (btn_end_game_hidden d) (btn_resume_logging_hidden d) v.

Definition onDom (f : Dom -> Dom) (s : Session) : Session := setDom (f (dom s)) s.

(** ** IndexedDB wrappers

    [getAll] returns records in key order; the embedding takes the order of
    [map_to_list] instead, and nothing below depends on which order it is. *)

Inductive StoreName := STORE_GAMES | STORE_EVENTS.

Definition recordOf (storeName : StoreName) : Type :=
  match storeName with STORE_GAMES => Game | STORE_EVENTS => Event end.

Definition dbPut (storeName : StoreName) : recordOf storeName -> Store -> Store :=
  match storeName with
  | STORE_GAMES => fun g st => mkStore (<[game_id g := g]> (games st)) (events st)
  | STORE_EVENTS => fun e st => mkStore (games st) (<[event_id e := e]> (events st))
  end.

Definition dbGetAll (storeName : StoreName) : Store -> list (recordOf storeName) :=
  match storeName with
  | STORE_GAMES => fun st => (map_to_list (games st)).*2
  | STORE_EVENTS => fun st => (map_to_list (events st)).*2
  end.

Definition dbGetEventsByGame (gameId : string) (st : Store) : list Event :=
  List.filter (fun e => String.eqb (ev_game_id e) gameId) (dbGetAll STORE_EVENTS st).

Definition dbDelete (storeName : StoreName) (key : string) (st : Store) : Store :=
  match storeName with
  | STORE_GAMES => mkStore (delete key (games st)) (events st)
  | STORE_EVENTS => mkStore (games st) (delete key (events st))
  end.

(** ** Screen, toast and clock *)

Definition showScreen (name : Screen) : Session -> Session := onDom (setScreen name).

Definition showToast (message : string) : Session -> Session :=
  onDom (setToast (Some message)).

Definition stopClock (s : Session) : Session :=
  if clockInterval s then setClockInterval false s else s.

Definition startClock (s : Session) : Session := setClockInterval true (stopClock s).

(** One firing of the interval callback; it only fires while a handle is set. *)
Definition tick (s : Session) : Session :=
  if clockInterval s then setClockSeconds (clockSeconds s + 1) s else s.

(** [formatTime]: integer seconds to [mm:ss]. *)
Definition formatTime (totalSeconds : Z) : string :=
  let s := Z.max 0 totalSeconds in
  JS.padStart0 2 (pretty (s / 60)) +:+ ":" +:+ JS.padStart0 2 (pretty (s mod 60)).

(** ** Scoreboard *)

(** The loop of [updateScoreboard] over the event array. *)
Definition scoreStep (acc : Z * Z) (e : Event) : Z * Z :=
  if String.eqb (event_code e) "GOAL_PFC" then (fst acc + 1, snd acc)
  else if String.eqb (event_code e) "GOAL_OPP" then (fst acc, snd acc + 1)
  else acc.

Definition scoreboard (L : list Event) : Z * Z := fold_left scoreStep L (0, 0).

Definition updateScoreboard (s : Session) : Session :=
  let '(pfc, opp) := scoreboard (currentEvents s) in
  onDom (setScore pfc opp) s.

(** ** Setup: start game

    [now] is [Date.now()], [stamp] the instant read by [new Date()], [putOk]
    whether the write of the Game record succeeds. A rejected write ends the
    function at its [await]. *)
Definition startGame (now stamp : Z) (putOk : bool) (s : Session) : Session :=
  let opponent := JS.orString (JS.trim (input_opponent (dom s))) "Unknown" in
  let loggerName := JS.orString (JS.trim (input_logger (dom s))) "Logger 1" in
  let g := mkGame ("game_" +:+ pretty now) (JSDate.toISOString stamp) opponent loggerName in
  let s := setCurrentGame (Some g) s in
  if negb putOk then s else
  let s := setDb (dbPut STORE_GAMES g (db s)) s in
  let s := setGameActive true (setClockSeconds 0 (setCurrentHalf 1 (setCurrentEvents [] s))) in
  let s := onDom (setHidden true true true) s in
  let s := updateScoreboard s in
  showScreen logging (startClock s).

(** ** Event logging *)

(** [now] and [rnd] make the event id, [stamp] is the instant of
    [created_at], [putOk] whether the write of the Event record succeeds. *)
Definition logEvent (eventCode : string) (now : Z) (rnd : string) (stamp : Z)
    (putOk : bool) (s : Session) : Session :=
  match currentGame s with
  | None => s
  | Some g =>
      if negb (gameActive s) then s else
      let event := mkEvent ("ev_" +:+ pretty now +:+ "_" +:+ rnd) (game_id g)
                     (currentHalf s) (clockSeconds s) eventCode
                     (JSDate.toISOString stamp) in
      let s := setCurrentEvents (JS.push (currentEvents s) event) s in
      if negb putOk then s else
      let s := setDb (dbPut STORE_EVENTS event (db s)) s in
      let s := updateScoreboard s in
      let s := if currentHalf s =? 1
               then onDom (fun d => setHidden false (btn_end_game_hidden d)
                                      (btn_resume_logging_hidden d) d) s
               else s in
      if currentHalf s =? 2
      then onDom (fun d => setHidden (btn_half2_hidden d) false
                             (btn_resume_logging_hidden d) d) s
      else s
  end.

(** Remove the most recently logged event; [delOk] is whether the delete in
    the store succeeds. [currentEvents.length] is zero exactly when [pop]
    finds nothing, so the emptiness test is the [None] case of [JS.pop]. *)
Definition undoLastEvent (delOk : bool) (s : Session) : Session :=
  match JS.pop (currentEvents s) with
  | None => showToast "Nothing to undo" s
  | Some (last, rest) =>
      let s := setCurrentEvents rest s in
      if negb delOk then s else
      let s := setDb (dbDelete STORE_EVENTS (event_id last) (db s)) s in
      showToast "Event removed" (updateScoreboard s)
  end.

(** ** Review screen *)

(** The callback of [currentEvents.filter] in [getFilteredEvents];
    [numStrictEq] is [===] between a number and a possibly-[NaN] number. *)
Definition numStrictEq (x : Z) (v : option Z) : bool :=
  match v with Some y => x =? y | None => false end.

Definition filterCallback (half_ team type_ : string) (e : Event) : bool :=
  if negb (String.eqb half_ "all") && negb (numStrictEq (half e) (JS.parseInt10 half_))
  then false
  else if negb (String.eqb team "all") && negb (JS.endsWith (event_code e) ("_" +:+ team))
  then false
  else if negb (String.eqb type_ "all") && negb (JS.startsWith (event_code e) type_)
  then false
  else true.

Definition getFilteredEvents (s : Session) : list Event :=
  List.filter
    (filterCallback (filter_half (dom s)) (filter_team (dom s)) (filter_type (dom s)))
    (currentEvents s).

Definition renderEventsList (s : Session) : Session :=
  onDom (setEventsList (getFilteredEvents s)) s.

(** The user picks filter values; the [change] listener re-renders. *)
Definition changeFilters (h t ty : string) (s : Session) : Session :=
  renderEventsList (onDom (setFilters h t ty) s).

(** The two [filter(...).length] counts of [openReviewScreen]. *)
Definition reviewScore (L : list Event) : Z * Z :=
  (Z.of_nat (length (List.filter (fun e => String.eqb (event_code e) "GOAL_PFC") L)),
   Z.of_nat (length (List.filter (fun e => String.eqb (event_code e) "GOAL_OPP") L))).

Definition openReviewScreen (s : Session) : Session :=
  match currentGame s with
  | None => s
  | Some _ =>
      let s := onDom (setReviewScore (Some (reviewScore (currentEvents s)))) s in
      let s := onDom (setFilters "all" "all" "all") s in
      let s := onDom (setAdjust "0" "0") s in
      renderEventsList s
  end.

(** ** Half transitions *)

Definition startHalf2 (s : Session) : Session :=
  let s := stopClock s in
  let s := setClockSeconds 0 (setCurrentHalf 2 s) in
  let s := onDom (fun d => setHidden true false (btn_resume_logging_hidden d) d) s in
  showToast "HALF 2 STARTED" (startClock s).

Definition endGame (s : Session) : Session :=
  let s := stopClock s in
  let s := setGameActive false s in
  let s := onDom (fun d => setHidden (btn_half2_hidden d) (btn_end_game_hidden d) false d) s in
  showScreen review (openReviewScreen s).

(** The click listener of [btn-resume-logging]. *)
Definition resumeLogging (s : Session) : Session :=
  let s := updateScoreboard s in
  let s := showScreen logging s in
  if negb (clockInterval s) && gameActive s then startClock s else s.

(** The click listener of [btn-back-to-setup]; [confirmed] is the answer to
    the confirmation dialog. *)
Definition backToSetup (confirmed : bool) (s : Session) : Session :=
  if gameActive s then
    if negb confirmed then s
    else showScreen setup (setGameActive false (stopClock s))
  else showScreen setup s.

(** ** Time adjust *)

Definition adjustEvent (adjH1 adjH2 : Z) (e : Event) : Event :=
  let adj := if half e =? 1 then adjH1 else adjH2 in
  let newSec := Z.max 0 (JS.toDouble (t_half_seconds e + adj)) in
  mkEvent (event_id e) (ev_game_id e) (half e) newSec (event_code e) (created_at e).

(** The writes started by [Promise.all]: every record is put on its own,
    and [fault] tells which event ids fail to be written. *)
Definition persistEvents (fault : string -> bool) (L : list Event) (st : Store) : Store :=
  fold_left (fun st e => if fault (event_id e) then st else dbPut STORE_EVENTS e st) L st.

(** [applyTimeAdjust] is an [async] function with one [await]. Its first
    part runs to the [await]: the offsets are read, the list is replaced by
    the adjusted list and the writes of that list are started. [None] says
    that the function has returned (both offsets zero), [Some L] that it
    waits for the writes of [L]. *)
Definition applyTimeAdjustBegin (s : Session) : Session * option (list Event) :=
  let adjH1 := JS.orZero (JS.parseInt10 (adjust_h1 (dom s))) in
  let adjH2 := JS.orZero (JS.parseInt10 (adjust_h2 (dom s))) in
  if (adjH1 =? 0) && (adjH2 =? 0) then (showToast "No adjustment entered" s, None) else
  let s := setCurrentEvents (map (adjustEvent adjH1 adjH2) (currentEvents s)) s in
  (s, Some (currentEvents s)).

(** Its second part runs when the writes of [L] have settled, on the
    session as it is then: the writes that did not fail are in the store,
    and when none failed the inputs are put back to "0", the list of that
    moment is rendered and the notice is shown. Other listeners can run
    between the two parts. *)
Definition applyTimeAdjustSettle (fault : string -> bool) (L : list Event) (s : Session)
    : Session :=
  let s := setDb (persistEvents fault L (db s)) s in
  if existsb (fun e => fault (event_id e)) L then s else
  let s := onDom (setAdjust "0" "0") s in
  showToast "Times adjusted" (renderEventsList s).

(** The two parts run one right after the other, with no other listener in
    between. *)
Definition applyTimeAdjust (fault : string -> bool) (s : Session) : Session :=
  let adjH1 := JS.orZero (JS.parseInt10 (adjust_h1 (dom s))) in
  let adjH2 := JS.orZero (JS.parseInt10 (adjust_h2 (dom s))) in
  if (adjH1 =? 0) && (adjH2 =? 0) then showToast "No adjustment entered" s else
  let s := setCurrentEvents (map (adjustEvent adjH1 adjH2) (currentEvents s)) s in
  let s := setDb (persistEvents fault (currentEvents s) (db s)) s in
  if existsb (fun e => fault (event_id e)) (currentEvents s) then s else
  let s := onDom (setAdjust "0" "0") s in
  showToast "Times adjusted" (renderEventsList s).

(** The session variables without the DOM. *)
Definition core (s : Session) :=
  (db s, currentGame s, currentEvents s, currentHalf s, clockSeconds s,
   clockInterval s, gameActive s).

(** The list that [applyTimeAdjust] leaves in memory for given offsets. *)
Definition adjustedList (a1 a2 : Z) (L : list Event) : list Event :=
  if (a1 =? 0) && (a2 =? 0) then L else map (adjustEvent a1 a2) L.

(** ** Export file name *)

Definition isAlnum (c : ascii) : bool := JS.isLower c || JS.isUpper c || JS.isDigit c.

(** [opponent.replace(/[^a-z0-9]/gi, '_').slice(0, 20)] *)
Definition sanitizeOpponent (opp : string) : string :=
  JS.slice0 20 (JS.mapChars (fun c => if isAlnum c then c else "_"%char) opp).

(** [None] when there is no current game, where the code throws, and when
    the date of the game is not in the format that [JSDate.parse] reads,
    where the code throws for an Invalid Date and is not modelled
    otherwise. *)
Definition buildFilename (ext : string) (s : Session) : option string :=
  g ← currentGame s;
  t ← JSDate.parse (date g);
  let date_ := JS.slice0 10 (JSDate.toISOString t) in
  let opp := sanitizeOpponent (opponent g) in
  Some ("GameMoments_" +:+ date_ +:+ "_" +:+ opp +:+ "." +:+ ext).

(** ** Saved games *)

Definition compareGames (a b : Game) : option Z := JSDate.diff (date b) (date a).

Definition viewSavedGames (s : Session) : Session :=
  let games := JS.sort compareGames (dbGetAll STORE_GAMES (db s)) in
  match games with
  | [] => showScreen gamesScreen (onDom (setGamesList []) s)
  | _ =>
      let eventCounts := map (fun g => length (dbGetEventsByGame (game_id g) (db s))) games in
      showScreen gamesScreen (onDom (setGamesList (zip games eventCounts)) s)
  end.

Definition compareEvents (a b : Event) : option Z :=
  if negb (half a =? half b) then Some (half a - half b)
  else Some (t_half_seconds a - t_half_seconds b).

Definition loadSavedGame (gameId : string) (s : Session) : Session :=
  let games := dbGetAll STORE_GAMES (db s) in
  let s := setCurrentGame (List.find (fun g => String.eqb (game_id g) gameId) games) s in
  match currentGame s with
  | None => s
  | Some _ =>
      let s := setCurrentEvents (dbGetEventsByGame gameId (db s)) s in
      let s := setCurrentEvents (JS.sort compareEvents (currentEvents s)) s in
      let s := setGameActive false s in
      let s := onDom (fun d => setHidden (btn_half2_hidden d) (btn_end_game_hidden d) true d) s in
      showScreen review (openReviewScreen s)
  end.

(** ** Specification-side notions

    The properties below are stated against these definitions, which follow
    the wording of the specification rather than the code. *)

(** Number of events of [L] whose code is [c]; it reads nothing but the
    event codes. *)
Definition countCode (c : string) (L : list Event) : Z :=
  Z.of_nat (count_occ String.eq_dec (map event_code L) c).


(** The time of [e] and the time shifted by the offset of its half are
    integers that a number holds exactly, so that the sum is computed
    without rounding. *)
Definition exactShift (adjH1 adjH2 : Z) (e : Event) : Prop :=
  JS.safeInteger (t_half_seconds e)
  /\ JS.safeInteger (t_half_seconds e + (if half e =? 1 then adjH1 else adjH2)).

Inductive HalfFilter := AllHalves | Half1 | Half2.
Inductive Side := PFC | OPP.
Inductive Family := GK | CK | FK | KO | SO | GOAL.

(** Modelled from the spec: the option values of the three filter
    [<select>] elements, which live in the page markup (index.html) and not
    in the script: half is 1, 2 or all; side is PFC, OPP or all; event family
    is one of the six base codes or all. *)
Definition halfValue (h : HalfFilter) : string :=
  match h with AllHalves => "all" | Half1 => "1" | Half2 => "2" end.

Definition sideName (sd : Side) : string :=
  match sd with PFC => "PFC" | OPP => "OPP" end.

Definition familyCode (f : Family) : string :=
  match f with
  | GK => "GK" | CK => "CK" | FK => "FK" | KO => "KO" | SO => "SO" | GOAL => "GOAL"
  end.

Definition teamValue (sd : option Side) : string :=
  match sd with None => "all" | Some x => sideName x end.

Definition typeValue (f : option Family) : string :=
  match f with None => "all" | Some x => familyCode x end.

(** The twelve event codes, family then side. *)
Definition eventCode (f : Family) (sd : Side) : string :=
  familyCode f +:+ "_" +:+ sideName sd.

Definition halfMatches (h : HalfFilter) (e : Event) : Prop :=
  match h with AllHalves => True | Half1 => half e = 1 | Half2 => half e = 2 end.

(** The side is matched by code suffix, the family by code prefix. *)
Definition sideMatches (sd : option Side) (e : Event) : Prop :=
  match sd with
  | None => True
  | Some x => exists pre, event_code e = pre +:+ "_" +:+ sideName x
  end.

Definition familyMatches (f : option Family) (e : Event) : Prop :=
  match f with
  | None => True
  | Some x => exists rest, event_code e = familyCode x +:+ rest
  end.

Definition Matches (h : HalfFilter) (sd : option Side) (f : option Family)
    (e : Event) : Prop :=
  halfMatches h e /\ sideMatches sd e /\ familyMatches f e.

(** Review order: half ascending, then time within the half ascending. *)
Definition chronological (a b : Event) : Prop :=
  half a < half b \/ (half a = half b /\ t_half_seconds a <= t_half_seconds b).

Definition sortKey (e : Event) : Z * Z := (half e, t_half_seconds e).

(** Lexicographic order on (half, seconds) pairs. *)
Definition keyLe (k1 k2 : Z * Z) : Prop :=
  k1.1 < k2.1 \/ (k1.1 = k2.1 /\ k1.2 <= k2.2).

(** Listing order: [a] may stand before [b] when [a] is not older than [b]. *)
Definition newestFirst (a b : Game) : Prop :=
  exists ta tb, JSDate.parse (date a) = Some ta /\ JSDate.parse (date b) = Some tb
                /\ tb <= ta.

(** The opponent name with every non-alphanumeric character removed and the
    result cut to 20 characters, as the specification words it. *)
Fixpoint keepChars (p : ascii -> bool) (s : string) : string :=
  match s with
  | EmptyString => EmptyString
  | String c r => if p c then String c (keepChars p r) else keepChars p r
  end.

Definition strippedOpponent (opp : string) : string :=
  JS.slice0 20 (keepChars isAlnum opp).

(** A string is numeric for [parseInt] when, after leading white space and
    one optional sign, it starts with a decimal digit. *)
Definition startsWithDigit (s : string) : bool :=
  match s with String c _ => JS.isDigit c | EmptyString => false end.

Definition afterSign (s : string) : string :=
  match s with
  | String c r => if Ascii.eqb c "-" || Ascii.eqb c "+" then r else s
  | EmptyString => s
  end.

Definition numeric (s : string) : bool := startsWithDigit (afterSign (JS.trimStart s)).

(** *** Exhaustive checks over one calendar year

    The month arithmetic is settled by running a Boolean check over the 366
    days of a year and the 372 (month, day) pairs, the year lengths over the
    400 years of an era. *)

(** [P] holds on the [n] integers from [i] on. *)
Fixpoint checkFrom (P : Z -> bool) (n : nat) (i : Z) : bool :=
  match n with
  | O => true
  | S n' => P i && checkFrom P n' (i + 1)
  end.

Definition janFeb (m : Z) : Z := if m <=? 2 then 1 else 0.

(** A day of the (March-based) year maps to a month and a day of that
    month, from which [doyOfMonthDay] leads back; day 365 is 29 February, and
    January and February are the days from 306 on. Year 1 is a common year. *)
Definition checkDoy (doy : Z) : bool :=
  let '(m, d) := JSDate.monthDayOfDoy doy in
  (1 <=? m) && (m <=? 12) && (1 <=? d)
  && ((d <=? JSDate.daysInMonth 1 m) || ((m =? 2) && (d =? 29) && (doy =? 365)))
  && (JSDate.doyOfMonthDay m d =? doy)
  && Bool.eqb (m <=? 2) (306 <=? doy).

(** The pair number [i]: month [i / 31 + 1], day [i mod 31 + 1]. When the
    day exists in a leap year (year 4), the pair has a day of the year that
    [monthDayOfDoy] maps back; only 29 February is day 365. *)
Definition checkMonthDay (i : Z) : bool :=
  let m := i / 31 + 1 in
  let d := i mod 31 + 1 in
  if d <=? JSDate.daysInMonth 4 m then
    let doy := JSDate.doyOfMonthDay m d in
    (0 <=? doy) && (doy <=? 365)
    && (let '(m', d') := JSDate.monthDayOfDoy doy in (m' =? m) && (d' =? d))
    && implb (doy =? 365) ((m =? 2) && (d =? 29))
  else true.

(** Year [yoe] of an era has 366 days exactly when the civil year in which
    it ends is a leap year. *)
Definition checkYoe (yoe : Z) : bool :=
  (if yoe =? 399 then 146097 else JSDate.startOfYoe (yoe + 1)) - JSDate.startOfYoe yoe
  =? (if JSDate.isLeap (yoe + 1) then 366 else 365).

(** [name] is embedded in [fname]: it occurs in it as a substring. *)
Definition embeds (name fname : string) : Prop :=
  exists pre post, fname = pre +:+ name +:+ post.

(** Search for an occurrence of [name], position by position. *)
Fixpoint occurs (name fname : string) : bool :=
  JS.startsWith fname name
  || match fname with
     | String _ r => occurs name r
     | EmptyString => false
     end.

(** The file name as the specification describes it: it embeds the date
    portion of the game's date and the stripped opponent name. *)
Definition describedFilename (g : Game) (fname : string) : Prop :=
  embeds (JS.slice0 10 (date g)) fname /\ embeds (strippedOpponent (opponent g)) fname.

(** [YYYY-MM-DD] *)
Definition isoDate (y m d : Z) : string :=
  JSDate.digits 4 y (String "-"%char (JSDate.digits 2 m (String "-"%char
    (JSDate.digits 2 d "")))).

(** ** The session as a state machine

    What the user and the timer can do to a session. The stamps are the
    readings of the wall clock that the handler takes. *)
Inductive Action :=
| TypeNames (opp lg : string)
| StartGame (now stamp : Z) (putOk : bool)
| Tick
| LogEvent (eventCode : string) (now : Z) (rnd : string) (stamp : Z) (putOk : bool)
| UndoLast (delOk : bool)
| StartHalf2
| EndGame
| ResumeLogging
| BackToSetup (confirmed : bool)
| ChangeFilters (h t ty : string)
| TypeAdjust (a1 a2 : string)
| ApplyTimeAdjust (fault : string -> bool)
| ViewSavedGames
| LoadSavedGame (gameId : string).

Definition typeNames (opp lg : string) (s : Session) : Session :=
  onDom (fun d => mkDom opp lg (score_pfc d) (score_opp d) (review_score d)
    (filter_half d) (filter_team d) (filter_type d) (adjust_h1 d) (adjust_h2 d)
    (events_list d) (games_list d) (screen d)
    (btn_half2_hidden d) (btn_end_game_hidden d) (btn_resume_logging_hidden d) (toast d)) s.

Definition perform (a : Action) (s : Session) : Session :=
  match a with
  | TypeNames opp lg => typeNames opp lg s
  | StartGame now stamp putOk => startGame now stamp putOk s
  | Tick => tick s
  | LogEvent eventCode now rnd stamp putOk => logEvent eventCode now rnd stamp putOk s
  | UndoLast delOk => undoLastEvent delOk s
  | StartHalf2 => startHalf2 s
  | EndGame => endGame s
  | ResumeLogging => resumeLogging s
  | BackToSetup confirmed => backToSetup confirmed s
  | ChangeFilters h t ty => changeFilters h t ty s
  | TypeAdjust a1 a2 => onDom (setAdjust a1 a2) s
  | ApplyTimeAdjust fault => applyTimeAdjust fault s
  | ViewSavedGames => viewSavedGames s
  | LoadSavedGame gameId => loadSavedGame gameId s
  end.

(** The wall clock shows an instant of the years 0000 to 9999. *)
Definition fourDigitYear (t : Z) : Prop := -62167219200000 <= t < 253402300800000.

Definition clockInRange (a : Action) : Prop :=
  match a with
  | StartGame _ stamp _ => fourDigitYear stamp
  | LogEvent _ _ _ stamp _ => fourDigitYear stamp
  | _ => True
  end.

Definition blankDom : Dom :=
  mkDom "" "" 0 0 None "all" "all" "all" "0" "0" [] [] setup true true true None.

(** The session right after the page has loaded with an empty database. *)
Definition freshSession : Session :=
  mkSession (mkStore ∅ ∅) None [] 1 0 false false blankDom.

Inductive Reachable : Session -> Prop :=
| reach_fresh : Reachable freshSession
| reach_step a s : Reachable s -> clockInRange a -> Reachable (perform a s).

(** An event as the data model wants it: half 1 or 2, time not negative. *)
Definition wfEvent (e : Event) : Prop :=
  (half e = 1 \/ half e = 2) /\ 0 <= t_half_seconds e.

Record Invariant (s : Session) : Prop := mkInvariant {
  inv_half : currentHalf s = 1 \/ currentHalf s = 2;
  inv_clock : 0 <= clockSeconds s;
  inv_events : Forall wfEvent (currentEvents s);
  inv_stored_events : map_Forall (fun _ e => wfEvent e) (events (db s));
  inv_stored_games :
    map_Forall (fun _ g => is_Some (JSDate.parse (date g))) (games (db s))
}.

(** ** Saved and in memory *)

(** Every record sits in its store under its own id (the key path of the
    store). *)
Definition keyedById (st : Store) : Prop :=
  map_Forall (fun k g => game_id g = k) (games st)
  /\ map_Forall (fun k e => event_id e = k) (events st).

(** The game [cg] (when there is one) is stored in [st], and the events of
    [L] are, without repetition of an id, the events stored in [st] for that
    game. *)
Definition syncOf (st : Store) (cg : option Game) (L : list Event) : Prop :=
  match cg with
  | None => True
  | Some g =>
      games st !! game_id g = Some g
      /\ NoDup (map event_id L)
      /\ forall e, e ∈ L <-> events st !! event_id e = Some e /\ ev_game_id e = game_id g
  end.

(** What is in memory is what is saved. *)
Definition inSync (s : Session) : Prop :=
  syncOf (db s) (currentGame s) (currentEvents s).

(** The session right after the page has loaded over the database [st]. *)
Definition pageLoad (st : Store) : Session :=
  mkSession st None [] 1 0 false false blankDom.

(** An action all of whose store requests succeed and which makes no id
    that is in use already. *)
Definition clean (a : Action) (s : Session) : Prop :=
  match a with
  | StartGame now _ putOk =>
      putOk = true
      /\ map_Forall (fun _ e => ev_game_id e <> "game_" +:+ pretty now) (events (db s))
  | LogEvent _ now rnd _ putOk =>
      putOk = true /\ events (db s) !! ("ev_" +:+ pretty now +:+ "_" +:+ rnd) = None
  | UndoLast delOk => delOk = true
  | ApplyTimeAdjust fault =>
      Forall (fun e => fault (event_id e) = false) (currentEvents s)
  | _ => True
  end.

(** The sessions that clean actions lead to from a page load. *)
Inductive CleanRun : Session -> Prop :=
| clean_load st : keyedById st -> CleanRun (pageLoad st)
| clean_step a s : CleanRun s -> clean a s -> CleanRun (perform a s).

(** [s'] has the store, the current game and the event list of [s]. *)
Definition sameData (s s' : Session) : Prop :=
  db s' = db s /\ currentGame s' = currentGame s /\ currentEvents s' = currentEvents s.

(** The two half-transition buttons show only in their own half. *)
Definition buttonsFollowHalf (s : Session) : Prop :=
  (btn_half2_hidden (dom s) = false -> currentHalf s = 1)
  /\ (btn_end_game_hidden (dom s) = false -> currentHalf s = 2).

(** The score on the logging screen is the score of the list. *)
Definition hudInStep (s : Session) : Prop :=
  screen (dom s) = logging ->
  (score_pfc (dom s), score_opp (dom s)) = scoreboard (currentEvents s).

(** The parts of a session that the buttons and the score display depend
    on. *)
Definition hudOf (s : Session) :=
  (currentHalf s, btn_half2_hidden (dom s), btn_end_game_hidden (dom s),
   screen (dom s), score_pfc (dom s), score_opp (dom s)).

(** A run of actions, first to last. *)
Definition run (acts : list Action) (s : Session) : Session :=
  fold_left (fun s a => perform a s) acts s.

(** The id of the game that an action stores, if it stores one. *)
Definition storesGame (a : Action) : option string :=
  match a with
  | StartGame now _ true => Some ("game_" +:+ pretty now)
  | _ => None
  end.

(** ** Sample states *)

(** A live Half-1 session against "FC Riverside", 125 seconds in. *)
Definition liveSession : Session :=
  Nat.iter 125 tick
    (startGame 1714566896789 1714566896789 true
       (typeNames "FC Riverside" "Coach A" freshSession)).

(** The game record that session is about. *)
Definition liveGame : Game :=
  mkGame "game_1714566896789" "2024-05-01T12:34:56.789Z" "FC Riverside" "Coach A".

Definition sampleEvent (h t : Z) (code : string) (id : string) : Event :=
  mkEvent id "game_1" h t code "2024-05-01T12:34:56.789Z".

(** A store holding one saved game whose three events were written in the
    order {H2,5s}, {H1,30s}, {H1,5s}. *)
Definition savedGame : Game :=
  mkGame "game_1" "2024-05-01T12:34:56.789Z" "FC Riverside" "Coach A".

Definition savedStore : Store :=
  dbPut STORE_EVENTS (sampleEvent 1 5 "GOAL_PFC" "ev_3")
    (dbPut STORE_EVENTS (sampleEvent 1 30 "GOAL_OPP" "ev_2")
       (dbPut STORE_EVENTS (sampleEvent 2 5 "GOAL_PFC" "ev_1")
          (dbPut STORE_GAMES savedGame (mkStore ∅ ∅)))).

Definition savedSession : Session := setDb savedStore freshSession.

(** A review session over two Half-1 events at 10s and 50s and one Half-2
    event at 3s, with +20 typed for Half 1 and -5 for Half 2. *)
Definition adjustSession : Session :=
  onDom (setAdjust "20" "-5")
    (setCurrentEvents
       [sampleEvent 1 10 "CK_PFC" "ev_a"; sampleEvent 1 50 "GOAL_PFC" "ev_b";
        sampleEvent 2 3 "GK_OPP" "ev_c"]
       (setCurrentGame (Some savedGame) savedSession)).

(** A store with three saved games of different dates. *)
Definition gamesStore : Store :=
  dbPut STORE_GAMES (mkGame "game_3" "2024-05-08T09:00:00.000Z" "Rovers" "Coach A")
    (dbPut STORE_GAMES (mkGame "game_2" "2023-11-20T18:30:00.000Z" "United" "Coach B")
       (dbPut STORE_GAMES savedGame (mkStore ∅ ∅))).

(** ** Event tables and the views built on them *)

(** [EVENT_TYPES]: base code, row label, goal flag. *)
Definition EVENT_TYPES : list (string * string * bool) :=
  [("GK", "GOAL KICK", false); ("CK", "CORNER", false); ("FK", "FREE KICK", false);
   ("KO", "KICKOFF", false); ("SO", "SIDEOUT", false); ("GOAL", "GOAL", true)].

(** [EVENT_DISPLAY]; the dash of the labels is held as the bytes of its
    UTF-8 form, which no statement below looks into. *)
Definition EVENT_DISPLAY : list (string * string) :=
  [("GK_PFC", "Goal Kick — PFC"); ("GK_OPP", "Goal Kick — Opponent");
   ("CK_PFC", "Corner — PFC"); ("CK_OPP", "Corner — Opponent");
   ("FK_PFC", "Free Kick — PFC"); ("FK_OPP", "Free Kick — Opponent");
   ("KO_PFC", "Kickoff — PFC"); ("KO_OPP", "Kickoff — Opponent");
   ("SO_PFC", "Sideout — PFC"); ("SO_OPP", "Sideout — Opponent");
   ("GOAL_PFC", "Goal — PFC"); ("GOAL_OPP", "Goal — Opponent")].

Fixpoint lookupKey (k : string) (table : list (string * string)) : option string :=
  match table with
  | [] => None
  | (k', v) :: rest => if String.eqb k k' then Some v else lookupKey k rest
  end.

(** [EVENT_DISPLAY[code] || code], for codes that are not names inherited
    from [Object.prototype]. *)
Definition displayLabel (code : string) : string :=
  match lookupKey code EVENT_DISPLAY with
  | Some label => label
  | None => code
  end.

Definition EVENT_CLASS (code : string) : string :=
  if JS.startsWith code "GOAL" then "ev-goal"
  else if JS.endsWith code "_PFC" then "ev-pfc"
  else "ev-opp".

(** The codes that the buttons made by [buildEventGrid] pass to
    [logEvent], row by row, PFC button first. *)
Definition gridCodes : list string :=
  flat_map (fun ty => [ty.1.1 +:+ "_PFC"; ty.1.1 +:+ "_OPP"]) EVENT_TYPES.

(** [a.slice(-n)]: the last [n] elements, all of them when there are fewer. *)
Definition sliceLast {A} (n : nat) (l : list A) : list A := drop (length l - n) l.

(** The events that [updateRecentEvents] shows in the footer:
    [currentEvents.slice(-3).reverse()]. *)
Definition recentEvents (s : Session) : list Event :=
  reverse (sliceLast 3 (currentEvents s)).

Definition eventToDisplayLine (e : Event) : string :=
  "H" +:+ pretty (half e) +:+ " " +:+ formatTime (t_half_seconds e) +:+ " "
  +:+ displayLabel (event_code e).

(** ** HTML escaping *)

Definition dquote : ascii := "034"%char.

(** [s.replace(/c/g, by)] for a single character [c]. *)
Fixpoint replaceChar (c : ascii) (by_ : string) (s : string) : string :=
  match s with
  | EmptyString => EmptyString
  | String x r =>
      if Ascii.eqb x c then by_ +:+ replaceChar c by_ r
      else String x (replaceChar c by_ r)
  end.

(** [esc]; [None] is [null] or [undefined], which [str ?? ''] turns into
    the empty string. *)
Definition esc (str : option string) : string :=
  let s := default "" str in
  let s := replaceChar "&" "&amp;" s in
  let s := replaceChar "<" "&lt;" s in
  let s := replaceChar ">" "&gt;" s in
  let s := replaceChar dquote "&quot;" s in
  replaceChar "'" "&#39;" s.

(** Reading escaped text back: each of the five entities stands for its
    character. *)
Fixpoint unesc (s : string) : string :=
  match s with
  | EmptyString => EmptyString
  | String c r =>
      if negb (Ascii.eqb c "&") then String c (unesc r) else
      match r with
      | String "a" (String "m" (String "p" (String ";" t))) => String "&" (unesc t)
      | String "l" (String "t" (String ";" t)) => String "<" (unesc t)
      | String "g" (String "t" (String ";" t)) => String ">" (unesc t)
      | String "q" (String "u" (String "o" (String "t" (String ";" t)))) =>
          String dquote (unesc t)
      | String "#" (String "3" (String "9" (String ";" t))) => String "'" (unesc t)
      | _ => String c (unesc r)
      end
  end%char.

(** ** Export *)

(** [a.join(sep)] on an array of strings. *)
Fixpoint join (sep : string) (l : list string) : string :=
  match l with
  | [] => ""
  | [x] => x
  | x :: r => x +:+ sep +:+ join sep r
  end.

Definition CRLF : string := String "013"%char (String "010"%char "").

(** One cell: the value between quotes, with each quote inside doubled. *)
Definition csvQuote (v : string) : string :=
  String dquote (replaceChar dquote (String dquote (String dquote "")) v
                 +:+ String dquote "").

Definition csvHeader : list string :=
  ["Date"; "Opponent"; "Logger"; "Half"; "Time (mm:ss)"; "Seconds"; "Event"].

Definition csvRow (date_ : string) (g : Game) (e : Event) : list string :=
  [date_; opponent g; logger_name g; "H" +:+ pretty (half e);
   formatTime (t_half_seconds e); pretty (t_half_seconds e);
   displayLabel (event_code e)].

Definition renderCSV (rows : list (list string)) : string :=
  join CRLF (map (fun row => join "," (map csvQuote row)) rows).

(** What [downloadFile] is handed. *)
Record Download := mkDownload {
  dl_content : string;
  dl_filename : string;
  dl_mimeType : string
}.

(** How an export ends: with the notice that there is nothing to export,
    with an exception (there is no current game whose date could be read),
    or with a file. [DateNotModelled] is the end that the model leaves
    open: the game's date is not in the format that [JSDate.parse] reads,
    and the code throws or hands over a file according to what [new Date]
    makes of it. *)
Inductive ExportResult :=
| NothingToExport
| Thrown
| DateNotModelled
| Downloaded (d : Download).

(** [toLocaleDateString] depends on the locale of the browser; it is the
    argument [locale], from the stored date to the text shown. *)
Definition exportCSV (locale : string -> string) (s : Session) : Session * ExportResult :=
  match getFilteredEvents s with
  | [] => (showToast "No events to export" s, NothingToExport)
  | events =>
      match currentGame s with
      | None => (s, Thrown)
      | Some g =>
          let date_ := locale (date g) in
          let csv := renderCSV (csvHeader :: map (csvRow date_ g) events) in
          match buildFilename "csv" s with
          | None => (s, DateNotModelled)
          | Some fn => (s, Downloaded (mkDownload csv fn "text/csv;charset=utf-8;"))
          end
      end
  end.

Definition exportText (locale : string -> string) (s : Session) : Session * ExportResult :=
  match getFilteredEvents s with
  | [] => (showToast "No events to export" s, NothingToExport)
  | events =>
      match currentGame s with
      | None => (s, Thrown)
      | Some g =>
          let date_ := locale (date g) in
          let lines := ["GameMoments Export"; "Date:     " +:+ date_;
                        "Opponent: " +:+ opponent g; "Logger:   " +:+ logger_name g; ""]
                       ++ map eventToDisplayLine events in
          match buildFilename "txt" s with
          | None => (s, DateNotModelled)
          | Some fn =>
              (s, Downloaded (mkDownload (join (String "010"%char "") lines) fn
                                "text/plain;charset=utf-8;"))
          end
      end
  end.

(** Reading a table of quoted cells back. [InCell] is inside the quotes of
    a cell, [AfterQuote] right behind a quote met inside a cell, [AfterCR]
    behind the carriage return that ends a row. *)
Inductive CsvState := CellStart | InCell | AfterQuote | AfterCR.

Fixpoint readCSV (st : CsvState) (cell : string) (row : list string)
    (rows : list (list string)) (s : string) : option (list (list string)) :=
  match s with
  | EmptyString =>
      match st with
      | AfterQuote => Some (rows ++ [row ++ [cell]])
      | _ => None
      end
  | String c r =>
      match st with
      | CellStart => if Ascii.eqb c dquote then readCSV InCell "" row rows r else None
      | InCell =>
          if Ascii.eqb c dquote then readCSV AfterQuote cell row rows r
          else readCSV InCell (cell +:+ String c "") row rows r
      | AfterQuote =>
          if Ascii.eqb c dquote then readCSV InCell (cell +:+ String dquote "") row rows r
          else if Ascii.eqb c "," then readCSV CellStart "" (row ++ [cell]) rows r
          else if Ascii.eqb c "013" then readCSV AfterCR "" (row ++ [cell]) rows r
          else None
      | AfterCR =>
          if Ascii.eqb c "010" then readCSV CellStart "" [] (rows ++ [row]) r else None
      end
  end.

(** The text [esc] puts for one character. *)
Definition escChar (c : ascii) : string :=
  if Ascii.eqb c "&" then "&amp;"
  else if Ascii.eqb c "<" then "&lt;"
  else if Ascii.eqb c ">" then "&gt;"
  else if Ascii.eqb c dquote then "&quot;"
  else if Ascii.eqb c "'" then "&#39;"
  else String c "".

(** The characters with a meaning in HTML text and attribute values. *)
Definition isMarkup (c : ascii) : bool :=
  Ascii.eqb c "<" || Ascii.eqb c ">" || Ascii.eqb c dquote || Ascii.eqb c "'".

Definition isSpecial (c : ascii) : bool := Ascii.eqb c "&" || isMarkup c.

Fixpoint allChars (p : ascii -> bool) (s : string) : bool :=
  match s with
  | EmptyString => true
  | String c r => p c && allChars p r
  end.

(** Two digits of minutes and two of seconds. *)
Definition clockText (m sec : Z) : string :=
  JSDate.digits 2 m (String ":"%char (JSDate.digits 2 sec "")).

Definition checkPad2 (n : Z) : bool :=
  String.eqb (JS.padStart0 2 (pretty n)) (JSDate.digits 2 n "").

(** A run of logging taps, each with the readings its handler takes, all
    of whose writes succeed. *)
Definition logMany (taps : list (string * Z * string * Z)) (s : Session) : Session :=
  fold_left (fun s tap => logEvent tap.1.1.1 tap.1.1.2 tap.1.2 tap.2 true s) taps s.

(** What one more event adds to the score. *)
Definition goalStep (code : string) : Z * Z :=
  (if String.eqb code "GOAL_PFC" then 1 else 0,
   if String.eqb code "GOAL_OPP" then 1 else 0).

(** The id and the record that [logEvent] makes for one tap
    [(eventCode, now, rnd, stamp)] in game [g], at half [h] and clock [t]. *)
Definition tapId (tap : string * Z * string * Z) : string :=
  "ev_" +:+ pretty tap.1.1.2 +:+ "_" +:+ tap.1.2.

Definition tapEvent (g : Game) (h t : Z) (tap : string * Z * string * Z) : Event :=
  mkEvent (tapId tap) (game_id g) h t tap.1.1.1 (JSDate.toISOString tap.2).

(** * The service worker ([service-worker.js])

    The three listeners are functions on the cache storage. A URL is the
    resolved URL of a request, as a string; the entries of [ASSETS] and the
    [./index.html] of the offline fallback stand for their resolved forms.
    A cache matches a request by its URL. *)

Module SW.

Record Response := mkResponse { status : Z; isErrorType : bool; body : string }.

Record Request := mkRequest { method : string; url : string; accept : option string }.

(** One cache maps request URLs to responses. The storage lists the named
    caches in the order of their creation, which is the order of
    [caches.keys()] and the order in which [caches.match] looks into
    them. *)
Definition Cache := gmap string Response.

Definition CacheStorage := list (string * Cache).

(** What a [fetch] of a URL gives; [None] is a rejected fetch. *)
Definition Network := string -> option Response.

Definition CACHE_NAME : string := "gamemoments-v1".

Definition ASSETS : list string :=
  ["./"; "./index.html"; "./styles.css"; "./app.js"; "./manifest.json";
   "./icons/icon.svg"; "./icons/icon-192.png"; "./icons/icon-512.png"].

Definition hasCache (name : string) (cs : CacheStorage) : bool :=
  existsb (fun nc => String.eqb nc.1 name) cs.

(** [caches.open(name)] makes the cache, empty, when there is none of that
    name. *)
Definition cachesOpen (name : string) (cs : CacheStorage) : CacheStorage :=
  if hasCache name cs then cs else cs ++ [(name, ∅)].

(** [caches.open(name).then(cache => ...)] with a change [f] to the cache. *)
Definition onCache (name : string) (f : Cache -> Cache) (cs : CacheStorage) : CacheStorage :=
  map (fun nc => if String.eqb nc.1 name then (nc.1, f nc.2) else nc) (cachesOpen name cs).

(** [caches.match(url)]: the first cache that has the URL answers. *)
Fixpoint cachesMatch (u : string) (cs : CacheStorage) : option Response :=
  match cs with
  | [] => None
  | nc :: rest =>
      match nc.2 !! u with
      | Some r => Some r
      | None => cachesMatch u rest
      end
  end.

Definition cachesKeys (cs : CacheStorage) : list string := map fst cs.

Definition cachesDelete (name : string) (cs : CacheStorage) : CacheStorage :=
  List.filter (fun nc => negb (String.eqb nc.1 name)) cs.

(** [response.ok] *)
Definition okStatus (r : Response) : bool := (200 <=? status r) && (status r <=? 299).

(** The fetch inside [cache.add] and [cache.addAll], which rejects when the
    fetch does or when the response is not ok. *)
Definition fetchOk (net : Network) (u : string) : option Response :=
  match net u with
  | Some r => if okStatus r then Some r else None
  | None => None
  end.

(** [cache.addAll(urls)]: all of them or none; [None] is the rejection. *)
Definition addAll (net : Network) (urls : list string) (c : Cache) : option Cache :=
  rs ← mapM (fetchOk net) urls;
  Some (fold_left (fun c ur => <[ur.1 := ur.2]> c) (zip urls rs) c).

(** [cache.add(url).catch(() => null)] *)
Definition addOne (net : Network) (c : Cache) (u : string) : Cache :=
  match fetchOk net u with
  | Some r => <[u := r]> c
  | None => c
  end.

(** The [install] listener. [net] is the network during [addAll], [net']
    the network during the one-by-one attempts after [addAll] has failed. *)
Definition onInstall (net net' : Network) (cs : CacheStorage) : CacheStorage :=
  onCache CACHE_NAME
    (fun c => match addAll net ASSETS c with
              | Some c' => c'
              | None => fold_left (addOne net') ASSETS c
              end) cs.

(** The [activate] listener. *)
Definition onActivate (cs : CacheStorage) : CacheStorage :=
  fold_left (fun cs key => cachesDelete key cs)
    (List.filter (fun key => negb (String.eqb key CACHE_NAME)) (cachesKeys cs)) cs.

(** What the [fetch] listener does with a request: it leaves it to the
    browser, or answers it, with a response or with nothing. *)
Inductive Answer :=
| NotHandled
| Answered (r : option Response).

Definition onFetch (net : Network) (req : Request) (cs : CacheStorage)
    : CacheStorage * Answer :=
  if negb (String.eqb (method req) "GET") then (cs, NotHandled) else
  match cachesMatch (url req) cs with
  | Some cached => (cs, Answered (Some cached))
  | None =>
      match net (url req) with
      | Some response =>
          if negb (status response =? 200) || isErrorType response
          then (cs, Answered (Some response))
          else (onCache CACHE_NAME (fun c => <[url req := response]> c) cs,
                Answered (Some response))
      | None =>
          match accept req with
          | Some a =>
              if occurs "text/html" a
              then (cs, Answered (cachesMatch "./index.html" cs))
              else (cs, Answered None)
          | None => (cs, Answered None)
          end
      end
  end.

End SW.

(** * Properties *)

Example toISOString_sample :
  JSDate.toISOString 1714566896789 = "2024-05-01T12:34:56.789Z".
Proof. vm_compute. reflexivity. Qed.

Example parse_sample :
  JSDate.parse "2024-05-01T12:34:56.789Z" = Some 1714566896789.
Proof. vm_compute. reflexivity. Qed.

Example toISOString_before_epoch :
  JSDate.toISOString (-1) = "1969-12-31T23:59:59.999Z".
Proof. vm_compute. reflexivity. Qed.

Example toISOString_leap_day :
  JSDate.toISOString 1709210096000 = "2024-02-29T12:34:56.000Z".
Proof. vm_compute. reflexivity. Qed.

Example toISOString_expanded_year :
  JSDate.toISOString (-62198755200000) = "-000001-01-01T00:00:00.000Z".
Proof. vm_compute. reflexivity. Qed.

Example formatTime_sample : formatTime 125 = "02:05".
Proof. vm_compute. reflexivity. Qed.

Example parseInt10_samples :
  JS.parseInt10 "  -20" = Some (-20) /\ JS.parseInt10 "12abc" = Some 12
  /\ JS.parseInt10 "" = None /\ JS.parseInt10 "abc" = None
  /\ JS.parseInt10 "+7" = Some 7 /\ JS.parseInt10 "-" = None.
Proof. vm_compute. repeat split; reflexivity. Qed.



(** ** Field-update bookkeeping *)

Lemma currentEvents_onDom f s : currentEvents (onDom f s) = currentEvents s.
Proof. reflexivity. Qed.

Lemma currentEvents_updateScoreboard s :
  currentEvents (updateScoreboard s) = currentEvents s.
Proof. unfold updateScoreboard. destruct (scoreboard _). reflexivity. Qed.

Lemma db_updateScoreboard s : db (updateScoreboard s) = db s.
Proof. unfold updateScoreboard. destruct (scoreboard _). reflexivity. Qed.

Lemma currentEvents_renderEventsList s :
  currentEvents (renderEventsList s) = currentEvents s.
Proof. reflexivity. Qed.

(** ** Scoreboard *)

Section Scoreboard.

Lemma countCode_cons c e L :
  countCode c (e :: L) =
  (if String.eqb (event_code e) c then 1 else 0) + countCode c L.
Proof.
  unfold countCode. simpl.
  destruct (String.eq_dec (event_code e) c) as [Heq | Hne].
  - apply String.eqb_eq in Heq. rewrite Heq. lia.
  - apply String.eqb_neq in Hne. rewrite Hne. lia.
Qed.

Lemma scoreboard_from (L : list Event) : forall p o,
  fold_left scoreStep L (p, o) =
  (p + countCode "GOAL_PFC" L, o + countCode "GOAL_OPP" L).
Proof.
  induction L as [| e L IH]; intros p o.
  - unfold countCode. simpl. f_equal; lia.
  - simpl fold_left. rewrite !countCode_cons. unfold scoreStep. simpl fst; simpl snd.
    destruct (String.eqb_spec (event_code e) "GOAL_PFC") as [Hp | Hp].
    + rewrite IH. rewrite Hp. simpl String.eqb. f_equal; lia.
    + destruct (String.eqb_spec (event_code e) "GOAL_OPP") as [Ho | Ho];
        rewrite IH; f_equal; lia.
Qed.

Lemma scoreboard_counts L :
  scoreboard L = (countCode "GOAL_PFC" L, countCode "GOAL_OPP" L).
Proof. unfold scoreboard. rewrite scoreboard_from. f_equal; lia. Qed.

Lemma filter_length_countCode c L :
  Z.of_nat (length (List.filter (fun e => String.eqb (event_code e) c) L)) =
  countCode c L.
Proof.
  induction L as [| e L IH].
  - reflexivity.
  - rewrite countCode_cons. simpl List.filter.
    destruct (String.eqb (event_code e) c); simpl length; lia.
Qed.

Lemma reviewScore_counts L :
  reviewScore L = (countCode "GOAL_PFC" L, countCode "GOAL_OPP" L).
Proof. unfold reviewScore. by rewrite !filter_length_countCode. Qed.

Lemma dom_updateScoreboard s :
  dom (updateScoreboard s) =
  setScore (countCode "GOAL_PFC" (currentEvents s))
           (countCode "GOAL_OPP" (currentEvents s)) (dom s).
Proof. unfold updateScoreboard. rewrite scoreboard_counts. reflexivity. Qed.

End Scoreboard.

(** C1. Both the live scoreboard and the score on the review surface are the
    pair (number of GOAL_PFC events, number of GOAL_OPP events) of the current
    event list. The counts read the event codes only, the review score is
    taken from the whole list, and choosing filter values neither changes the
    list nor the score shown. *)
Theorem scoreboard_is_goal_count (s : Session) (h t ty : string) :
  let L := currentEvents s in
  let goals := (countCode "GOAL_PFC" L, countCode "GOAL_OPP" L) in
  scoreboard L = goals
  /\ (score_pfc (dom (updateScoreboard s)), score_opp (dom (updateScoreboard s))) = goals
  /\ review_score (dom (openReviewScreen s)) =
       match currentGame s with Some _ => Some goals | None => review_score (dom s) end
  /\ review_score (dom (openReviewScreen (onDom (setFilters h t ty) s))) =
       review_score (dom (openReviewScreen s))
  /\ review_score (dom (changeFilters h t ty s)) = review_score (dom s)
  /\ currentEvents (changeFilters h t ty s) = L.
Proof.
  intros L goals. repeat split.
  - apply scoreboard_counts.
  - rewrite dom_updateScoreboard. reflexivity.
  - unfold openReviewScreen. destruct (currentGame s); [| reflexivity].
    simpl. by rewrite reviewScore_counts.
  - unfold openReviewScreen. simpl. destruct (currentGame s); reflexivity.
Qed.

(** Two lists with the same sequence of event codes have the same score,
    whatever their other fields are. *)
Lemma scoreboard_reads_codes_only (L L' : list Event) :
  map event_code L = map event_code L' -> scoreboard L = scoreboard L'.
Proof. intros H. rewrite !scoreboard_counts. unfold countCode. by rewrite H. Qed.

(** Scenario 1: a PFC goal logged at 125 seconds of Half 1 makes the
    scoreboard read 1 - 0. *)
Example scenario1_goal_scores :
  let s := logEvent "GOAL_PFC" 1714567021789 "k3x9a" 1714567021790 true liveSession in
  (score_pfc (dom s), score_opp (dom s)) = (1, 0)
  /\ map (fun e => (half e, t_half_seconds e, event_code e)) (currentEvents s)
     = [(1, 125, "GOAL_PFC")].
Proof. vm_compute. split; reflexivity. Qed.

(** ** Logging and undo *)

Section Logging.

Lemma pop_push {A} (L : list A) (e : A) : JS.pop (JS.push L e) = Some (e, L).
Proof.
  unfold JS.pop, JS.push. rewrite last_snoc. by rewrite removelast_last.
Qed.

Lemma pop_nil {A} : JS.pop (@nil A) = None.
Proof. reflexivity. Qed.

Lemma updateScoreboard_eq s :
  updateScoreboard s =
  onDom (setScore (fst (scoreboard (currentEvents s)))
                  (snd (scoreboard (currentEvents s)))) s.
Proof. unfold updateScoreboard. by destruct (scoreboard _). Qed.

(** The event that [logEvent] builds in a live session of game [g]. *)
Lemma logEvent_live s g eventCode now rnd stamp putOk :
  currentGame s = Some g -> gameActive s = true ->
  let event := mkEvent ("ev_" +:+ pretty now +:+ "_" +:+ rnd) (game_id g)
                 (currentHalf s) (clockSeconds s) eventCode
                 (JSDate.toISOString stamp) in
  let s' := logEvent eventCode now rnd stamp putOk s in
  currentEvents s' = currentEvents s ++ [event]
  /\ db s' = (if putOk then dbPut STORE_EVENTS event (db s) else db s)
  /\ currentGame s' = currentGame s /\ currentHalf s' = currentHalf s
  /\ clockSeconds s' = clockSeconds s /\ clockInterval s' = clockInterval s
  /\ gameActive s' = gameActive s.
Proof.
  intros Hg Hlive. unfold logEvent. rewrite Hg, Hlive. simpl negb. cbv iota.
  destruct putOk; simpl negb; cbv iota; [| simpl; repeat split; done].
  rewrite updateScoreboard_eq. simpl.
  destruct (currentHalf s =? 1); simpl;
    destruct (currentHalf s =? 2); simpl; repeat split; done.
Qed.

Lemma logEvent_not_live s eventCode now rnd stamp putOk :
  currentGame s = None \/ gameActive s = false ->
  logEvent eventCode now rnd stamp putOk s = s.
Proof.
  intros [Hg | Hlive]; unfold logEvent.
  - by rewrite Hg.
  - destruct (currentGame s); [| done]. by rewrite Hlive.
Qed.

Lemma undoLastEvent_push s L e delOk :
  currentEvents s = JS.push L e ->
  let s' := undoLastEvent delOk s in
  currentEvents s' = L
  /\ db s' = (if delOk then dbDelete STORE_EVENTS (event_id e) (db s) else db s).
Proof.
  intros HL. unfold undoLastEvent. rewrite HL, pop_push.
  destruct delOk; simpl negb; cbv iota; [| done].
  rewrite updateScoreboard_eq. done.
Qed.

End Logging.

(** C2. Undo right after an append gives back the list as it was: for any
    session and any event [e] pushed on its list, and in particular for the
    event that [logEvent] builds in a live session, [undoLastEvent] leaves
    the in-memory list exactly as before the append, and (when its store
    request succeeds) deletes the record with that event's id from the
    events store; the games store is not touched. *)
Theorem undo_after_append (s : Session) (e : Event) (g : Game)
    (eventCode : string) (now : Z) (rnd : string) (stamp : Z) (putOk delOk : bool) :
  currentGame s = Some g -> gameActive s = true ->
  let L := currentEvents s in
  let s1 := logEvent eventCode now rnd stamp putOk s in
  let s2 := undoLastEvent delOk s1 in
  let id := "ev_" +:+ pretty now +:+ "_" +:+ rnd in
  JS.pop (JS.push L e) = Some (e, L)
  /\ currentEvents (undoLastEvent delOk (setCurrentEvents (JS.push L e) s)) = L
  /\ (exists logged, currentEvents s1 = JS.push L logged /\ event_id logged = id)
  /\ currentEvents s2 = L
  /\ events (db s2) = (if delOk then delete id (events (db s1)) else events (db s1))
  /\ games (db s2) = games (db s)
  /\ (if delOk then events (db s2) !! id = None else True).
Proof.
  intros Hg Hlive L s1 s2 id.
  destruct (logEvent_live s g eventCode now rnd stamp putOk Hg Hlive)
    as (Hev & Hdb & _).
  fold s1 in Hev, Hdb.
  destruct (undoLastEvent_push s1 L _ delOk Hev) as (Hev2 & Hdb2).
  fold s2 in Hev2, Hdb2.
  split; [apply pop_push |].
  split; [by apply (undoLastEvent_push _ L e delOk) |].
  split; [eexists; split; [exact Hev | reflexivity] |].
  split; [exact Hev2 |].
  rewrite Hdb2. destruct delOk; simpl.
  - repeat split.
    + rewrite Hdb. by destruct putOk.
    + apply lookup_delete_eq.
  - repeat split. rewrite Hdb. by destruct putOk.
Qed.

Lemma undo_after_append_witness :
  currentGame liveSession = Some liveGame /\ gameActive liveSession = true
  /\ currentEvents
       (undoLastEvent true
          (logEvent "CK_OPP" 1714567021789 "k3x9a" 1714567021790 true liveSession))
     = currentEvents liveSession.
Proof.
  assert (Hg : currentGame liveSession = Some liveGame) by (vm_compute; reflexivity).
  assert (Hlive : gameActive liveSession = true) by (vm_compute; reflexivity).
  split; [exact Hg |]. split; [exact Hlive |].
  exact (proj1 (proj2 (proj2 (proj2
    (undo_after_append liveSession (sampleEvent 1 5 "CK_OPP" "ev_x") liveGame
       "CK_OPP" 1714567021789 "k3x9a" 1714567021790 true true Hg Hlive))))).
Defined.

(** C3. [logEvent] changes nothing at all when there is no current game or
    the session is not live; in a live session it appends exactly one event
    carrying the current half, the current clock value, the current game's id
    and the given code, and the events logged before stay as they were. *)
Theorem logEvent_live_only (s : Session) (eventCode : string) (now : Z)
    (rnd : string) (stamp : Z) (putOk : bool) :
  let s' := logEvent eventCode now rnd stamp putOk s in
  (currentGame s = None \/ gameActive s = false -> s' = s)
  /\ (forall g, currentGame s = Some g -> gameActive s = true ->
      exists e, currentEvents s' = currentEvents s ++ [e]
        /\ half e = currentHalf s
        /\ t_half_seconds e = clockSeconds s
        /\ ev_game_id e = game_id g
        /\ event_code e = eventCode).
Proof.
  intros s'. split.
  - apply logEvent_not_live.
  - intros g Hg Hlive.
    destruct (logEvent_live s g eventCode now rnd stamp putOk Hg Hlive) as (Hev & _).
    eexists. split; [exact Hev |]. by repeat split.
Qed.

Lemma logEvent_live_only_witness :
  logEvent "GOAL_PFC" 1714567021789 "k3x9a" 1714567021790 true freshSession = freshSession
  /\ exists e,
       currentEvents (logEvent "GOAL_PFC" 1714567021789 "k3x9a" 1714567021790 true liveSession)
       = currentEvents liveSession ++ [e]
       /\ half e = currentHalf liveSession
       /\ t_half_seconds e = clockSeconds liveSession
       /\ ev_game_id e = game_id liveGame
       /\ event_code e = "GOAL_PFC".
Proof.
  split.
  - apply (proj1 (logEvent_live_only freshSession "GOAL_PFC" 1714567021789 "k3x9a"
                    1714567021790 true)).
    left. reflexivity.
  - apply (proj2 (logEvent_live_only liveSession "GOAL_PFC" 1714567021789 "k3x9a"
                    1714567021790 true) liveGame); vm_compute; reflexivity.
Defined.

(** ** Time adjust *)

Section TimeAdjust.

(** A safe integer is its own number. *)
Lemma toDouble_safe z : JS.safeInteger z -> JS.toDouble z = z.
Proof.
  intros [Hlo Hhi]. unfold JS.toDouble.
  assert (Hlog : Z.log2 (Z.abs z) - 52 <= 0).
  { destruct (Z.eq_dec (Z.abs z) 0) as [-> | Hnz]; [simpl; lia |].
    assert (Z.log2 (Z.abs z) < 53); [| lia].
    apply Z.log2_lt_pow2; lia. }
  apply Z.leb_le in Hlog. by rewrite Hlog.
Qed.



Lemma persistEvents_games fault (L : list Event) : forall st,
  games (persistEvents fault L st) = games st.
Proof.
  unfold persistEvents. induction L as [| e L IH]; intros st; simpl; [reflexivity |].
  rewrite IH. by destruct (fault (event_id e)).
Qed.

(** What [applyTimeAdjust] does to the list and the store, by cases on the
    two offsets it read. *)
Lemma applyTimeAdjust_cases fault s :
  let adjH1 := JS.orZero (JS.parseInt10 (adjust_h1 (dom s))) in
  let adjH2 := JS.orZero (JS.parseInt10 (adjust_h2 (dom s))) in
  let s' := applyTimeAdjust fault s in
  (adjH1 = 0 /\ adjH2 = 0 -> s' = showToast "No adjustment entered" s)
  /\ (~ (adjH1 = 0 /\ adjH2 = 0) ->
      currentEvents s' = map (adjustEvent adjH1 adjH2) (currentEvents s)
      /\ db s' = persistEvents fault (map (adjustEvent adjH1 adjH2) (currentEvents s)) (db s)).
Proof.
  intros adjH1 adjH2 s'. subst s'. unfold applyTimeAdjust.
  fold adjH1 adjH2. split.
  - intros [-> ->]. reflexivity.
  - intros Hnz.
    destruct ((adjH1 =? 0) && (adjH2 =? 0)) eqn:Hz.
    { apply andb_true_iff in Hz as [?%Z.eqb_eq ?%Z.eqb_eq]. tauto. }
    simpl. by destruct (existsb _ _).
Qed.

(** A string with no digit where a number should start does not parse. *)
Lemma digitsPrefix_Some a s : JS.digitsPrefix (Some a) s <> None.
Proof.
  revert a. induction s as [| c r IH]; intros a; simpl; [done |].
  destruct (JS.isDigit c); [apply IH | done].
Qed.

Lemma digitsPrefix_None s :
  JS.digitsPrefix None s = None <-> startsWithDigit s = false.
Proof.
  destruct s as [| c r]; simpl; [done |].
  destruct (JS.isDigit c); [| done].
  split; [| done]. intros H. by apply digitsPrefix_Some in H.
Qed.

Lemma parseInt10_NaN s :
  JS.parseInt10 s = None <-> numeric s = false.
Proof.
  unfold JS.parseInt10. rewrite fmap_None.
  unfold JS.parseInteger, numeric, afterSign.
  destruct (JS.trimStart s) as [| c r]; [done |].
  destruct (Ascii.eqb c "-"); simpl orb; cbv iota.
  { rewrite <- digitsPrefix_None. destruct (JS.digitsPrefix None r); done. }
  destruct (Ascii.eqb c "+"); apply digitsPrefix_None.
Qed.

(** List and store after [applyTimeAdjust] are a function of the two
    offsets, the list and the store before. *)
Lemma applyTimeAdjust_result fault s :
  let a1 := JS.orZero (JS.parseInt10 (adjust_h1 (dom s))) in
  let a2 := JS.orZero (JS.parseInt10 (adjust_h2 (dom s))) in
  currentEvents (applyTimeAdjust fault s) = adjustedList a1 a2 (currentEvents s)
  /\ db (applyTimeAdjust fault s) =
     (if (a1 =? 0) && (a2 =? 0) then db s
      else persistEvents fault (adjustedList a1 a2 (currentEvents s)) (db s)).
Proof.
  intros a1 a2. unfold applyTimeAdjust, adjustedList. fold a1 a2.
  destruct ((a1 =? 0) && (a2 =? 0)); [done |].
  simpl. by destruct (existsb _ _).
Qed.

End TimeAdjust.




(** Scenario 3, with a Half-2 event that the offset would take below zero:
    10s and 50s of Half 1 under +20 become 30s and 70s, 3s of Half 2 under -5
    becomes 0s, and the store holds the same values. *)
Example scenario3_adjust :
  let s := applyTimeAdjust (fun _ => false) adjustSession in
  map (fun e => (half e, t_half_seconds e)) (currentEvents s) = [(1, 30); (1, 70); (2, 0)]
  /\ Forall (fun e => events (db s) !! event_id e = Some e) (currentEvents s).
Proof.
  split; [vm_compute; reflexivity |].
  let l := eval vm_compute in (currentEvents (applyTimeAdjust (fun _ => false) adjustSession))
  in change (currentEvents (applyTimeAdjust (fun _ => false) adjustSession)) with l.
  repeat constructor; vm_compute; reflexivity.
Qed.

(** C10. An offset input that [parseInt] cannot read counts as 0: the list
    and the store come out as they would with ["0"] typed in its place.
    When neither input can be read (the empty string included) the request
    is the rejected zero-and-zero one, and no event is changed or written. *)
Theorem applyTimeAdjust_unparseable_is_zero (fault : string -> bool) (s : Session) :
  (numeric (adjust_h1 (dom s)) = false ->
   let s0 := onDom (setAdjust "0" (adjust_h2 (dom s))) s in
   JS.orZero (JS.parseInt10 (adjust_h1 (dom s))) = 0
   /\ currentEvents (applyTimeAdjust fault s) = currentEvents (applyTimeAdjust fault s0)
   /\ db (applyTimeAdjust fault s) = db (applyTimeAdjust fault s0))
  /\ (numeric (adjust_h2 (dom s)) = false ->
   let s0 := onDom (setAdjust (adjust_h1 (dom s)) "0") s in
   JS.orZero (JS.parseInt10 (adjust_h2 (dom s))) = 0
   /\ currentEvents (applyTimeAdjust fault s) = currentEvents (applyTimeAdjust fault s0)
   /\ db (applyTimeAdjust fault s) = db (applyTimeAdjust fault s0))
  /\ (numeric (adjust_h1 (dom s)) = false -> numeric (adjust_h2 (dom s)) = false ->
   currentEvents (applyTimeAdjust fault s) = currentEvents s
   /\ db (applyTimeAdjust fault s) = db s).
Proof.
  split; [| split].
  - intros H1%parseInt10_NaN s0.
    destruct (applyTimeAdjust_result fault s) as [-> ->].
    destruct (applyTimeAdjust_result fault s0) as [-> ->].
    subst s0. simpl. rewrite H1. done.
  - intros H2%parseInt10_NaN s0.
    destruct (applyTimeAdjust_result fault s) as [-> ->].
    destruct (applyTimeAdjust_result fault s0) as [-> ->].
    subst s0. simpl. rewrite H2. done.
  - intros H1%parseInt10_NaN H2%parseInt10_NaN.
    unfold applyTimeAdjust. rewrite H1, H2. done.
Qed.

Lemma applyTimeAdjust_unparseable_is_zero_witness :
  let s := onDom (setAdjust "" "abc") adjustSession in
  numeric "" = false /\ numeric "abc" = false
  /\ currentEvents (applyTimeAdjust (fun _ => false) s) = currentEvents s
  /\ db (applyTimeAdjust (fun _ => false) s) = db s.
Proof.
  intros s. split; [reflexivity |]. split; [reflexivity |].
  apply (proj2 (proj2 (applyTimeAdjust_unparseable_is_zero (fun _ => false) s)));
    reflexivity.
Defined.

(** ** End game and resume *)

Section EndAndResume.

Lemma core_onDom f s : core (onDom f s) = core s.
Proof. reflexivity. Qed.

Lemma core_updateScoreboard s : core (updateScoreboard s) = core s.
Proof. by rewrite updateScoreboard_eq. Qed.

Lemma gameActive_updateScoreboard s :
  gameActive (updateScoreboard s) = gameActive s.
Proof. by rewrite updateScoreboard_eq. Qed.

Lemma core_openReviewScreen s : core (openReviewScreen s) = core s.
Proof. unfold openReviewScreen. by destruct (currentGame s). Qed.

Lemma core_stopClock s :
  core (stopClock s) =
  (db s, currentGame s, currentEvents s, currentHalf s, clockSeconds s,
   false, gameActive s).
Proof. unfold stopClock. by destruct (clockInterval s) eqn:E; unfold core; rewrite ?E. Qed.

(** [endGame] stops the clock and clears [gameActive]; game, clock value
    and events stay. *)
Lemma endGame_fields s :
  gameActive (endGame s) = false /\ clockInterval (endGame s) = false
  /\ currentGame (endGame s) = currentGame s
  /\ clockSeconds (endGame s) = clockSeconds s
  /\ currentEvents (endGame s) = currentEvents s.
Proof.
  assert (H : core (endGame s) =
    (db s, currentGame s, currentEvents s, currentHalf s, clockSeconds s,
     false, false)).
  { unfold endGame, showScreen. rewrite core_onDom, core_openReviewScreen, core_onDom.
    pose proof (core_stopClock s) as Hs. unfold core in *. simpl. congruence. }
  unfold core in H. repeat split; congruence.
Qed.

End EndAndResume.

(** C6. After [endGame], the resume listener does not bring the session
    back to live: [endGame] has cleared [gameActive], and the listener
    restarts the clock only when [gameActive] is set. The session stays
    not live, the clock stays stopped at its last value (no tick advances
    it), and [logEvent] is a no-op. No new game is made and the clock is not
    reset. *)
Theorem resume_after_endGame_stays_ended (s : Session) :
  let s' := resumeLogging (endGame s) in
  gameActive s' = false
  /\ clockInterval s' = false
  /\ tick s' = s'
  /\ (forall eventCode now rnd stamp putOk,
        logEvent eventCode now rnd stamp putOk s' = s')
  /\ currentGame s' = currentGame s
  /\ clockSeconds s' = clockSeconds s
  /\ currentEvents s' = currentEvents s.
Proof.
  intros s'.
  destruct (endGame_fields s) as (Hlive & Hclock & Hgame & Hsec & Hev).
  assert (Hs' : s' = showScreen logging (updateScoreboard (endGame s))).
  { subst s'. unfold resumeLogging. simpl gameActive.
    rewrite gameActive_updateScoreboard, Hlive. by rewrite andb_false_r. }
  assert (Hcore : core s' = core (endGame s)).
  { rewrite Hs'. unfold showScreen. rewrite core_onDom. apply core_updateScoreboard. }
  unfold core in Hcore.
  repeat split; try congruence.
  - unfold tick. replace (clockInterval s') with false by congruence. done.
  - intros. apply logEvent_not_live. right. congruence.
Qed.

(** The live session of the samples, ended and resumed: ten ticks later the
    clock still shows 125 seconds, and a goal tapped on the logging screen is
    not recorded. *)
Example resume_then_log_is_lost :
  let s := resumeLogging (endGame liveSession) in
  screen (dom s) = logging /\ gameActive s = false
  /\ clockSeconds (Nat.iter 10 tick s) = 125
  /\ currentEvents (logEvent "GOAL_PFC" 1714567021789 "k3x9a" 1714567021790 true s) = [].
Proof. vm_compute. repeat split; reflexivity. Qed.

(** ** Prefixes and suffixes of strings *)

Section Strings.

Lemma app_cons c (s t : string) : String c s +:+ t = String c (s +:+ t).
Proof. reflexivity. Qed.

Lemma app_nil_l (t : string) : "" +:+ t = t.
Proof. reflexivity. Qed.

Lemma length_app (s t : string) :
  String.length (s +:+ t) = (String.length s + String.length t)%nat.
Proof.
  induction s as [| c s IH]; [reflexivity |].
  rewrite app_cons. simpl. by rewrite IH.
Qed.

Lemma substring_whole (p : string) : String.substring 0 (String.length p) p = p.
Proof. induction p as [| c p IH]; [reflexivity |]. simpl. by rewrite IH. Qed.

Lemma substring_skip (pre p : string) k :
  String.substring (String.length pre) k (pre +:+ p) = String.substring 0 k p.
Proof.
  induction pre as [| c pre IH]; [reflexivity |].
  rewrite app_cons. simpl. exact IH.
Qed.

Lemma substring_split (s : string) : forall i, (i <= String.length s)%nat ->
  s = String.substring 0 i s +:+ String.substring i (String.length s - i) s.
Proof.
  induction s as [| c s IH]; intros i Hi.
  - simpl in Hi. assert (i = 0%nat) as -> by lia. reflexivity.
  - destruct i as [| i].
    + simpl String.substring at 1. rewrite app_nil_l.
      rewrite Nat.sub_0_r. symmetry. apply substring_whole.
    + simpl in Hi. simpl. rewrite app_cons. f_equal. apply IH. lia.
Qed.

Lemma startsWith_prefix (s p : string) :
  JS.startsWith s p = true <-> exists rest, s = p +:+ rest.
Proof.
  unfold JS.startsWith. revert s.
  induction p as [| c p IH]; intros s.
  - destruct s; simpl; split; eauto.
  - destruct s as [| d s]; simpl.
    + split; [done |]. intros [rest Hr]. rewrite app_cons in Hr. done.
    + destruct (ascii_dec c d) as [-> | Hne].
      * rewrite IH. split; intros [rest Hr]; exists rest.
        -- rewrite app_cons. by f_equal.
        -- rewrite app_cons in Hr. by injection Hr.
      * split; [done |]. intros [rest Hr]. rewrite app_cons in Hr. congruence.
Qed.

Lemma endsWith_suffix (s p : string) :
  JS.endsWith s p = true <-> exists pre, s = pre +:+ p.
Proof.
  unfold JS.endsWith. split.
  - destruct (Nat.leb_spec (String.length p) (String.length s)) as [Hle | Hlt]; [| done].
    intros Heq%String.eqb_eq.
    exists (String.substring 0 (String.length s - String.length p) s).
    rewrite (substring_split s (String.length s - String.length p)) at 1 by lia.
    f_equal. rewrite <- Heq at 3. f_equal. lia.
  - intros [pre ->]. rewrite length_app.
    destruct (Nat.leb_spec (String.length p) (String.length pre + String.length p))
      as [_ | Hlt]; [| lia].
    replace (String.length pre + String.length p - String.length p)%nat
      with (String.length pre) by lia.
    rewrite substring_skip, substring_whole. apply String.eqb_refl.
Qed.

End Strings.

(** ** Filtering *)

Section Filtering.

Global Instance halfMatches_dec h e : Decision (halfMatches h e).
Proof. destruct h; simpl; apply _. Defined.

Global Instance sideMatches_dec sd e : Decision (sideMatches sd e).
Proof.
  destruct sd as [x |]; simpl; [| left; exact I].
  destruct (JS.endsWith (event_code e) ("_" +:+ sideName x)) eqn:E.
  - left. by apply endsWith_suffix.
  - right. intros H%endsWith_suffix. congruence.
Defined.

Global Instance familyMatches_dec f e : Decision (familyMatches f e).
Proof.
  destruct f as [x |]; simpl; [| left; exact I].
  destruct (JS.startsWith (event_code e) (familyCode x)) eqn:E.
  - left. by apply startsWith_prefix.
  - right. intros H%startsWith_prefix. congruence.
Defined.

Global Instance Matches_dec h sd f e : Decision (Matches h sd f e).
Proof. unfold Matches. apply _. Defined.

Lemma half_test h e :
  negb (String.eqb (halfValue h) "all")
    && negb (numStrictEq (half e) (JS.parseInt10 (halfValue h))) = false
  <-> halfMatches h e.
Proof.
  destruct h; simpl halfValue; simpl halfMatches.
  - done.
  - replace (JS.parseInt10 "1") with (Some 1) by (vm_compute; reflexivity).
    simpl. rewrite negb_false_iff. apply Z.eqb_eq.
  - replace (JS.parseInt10 "2") with (Some 2) by (vm_compute; reflexivity).
    simpl. rewrite negb_false_iff. apply Z.eqb_eq.
Qed.

Lemma team_test sd e :
  negb (String.eqb (teamValue sd) "all")
    && negb (JS.endsWith (event_code e) ("_" +:+ teamValue sd)) = false
  <-> sideMatches sd e.
Proof.
  destruct sd as [x |]; simpl teamValue; simpl sideMatches; [| done].
  rewrite <- endsWith_suffix.
  destruct x; simpl; by rewrite negb_false_iff.
Qed.

Lemma type_test f e :
  negb (String.eqb (typeValue f) "all")
    && negb (JS.startsWith (event_code e) (typeValue f)) = false
  <-> familyMatches f e.
Proof.
  destruct f as [x |]; simpl typeValue; simpl familyMatches; [| done].
  rewrite <- startsWith_prefix.
  destruct x; simpl; by rewrite negb_false_iff.
Qed.

Lemma filterCallback_Matches h sd f e :
  filterCallback (halfValue h) (teamValue sd) (typeValue f) e = true
  <-> Matches h sd f e.
Proof.
  unfold filterCallback, Matches.
  rewrite <- half_test, <- team_test, <- type_test.
  destruct (negb (String.eqb (halfValue h) "all") && _);
    destruct (negb (String.eqb (teamValue sd) "all") && _);
    destruct (negb (String.eqb (typeValue f) "all") && _); intuition congruence.
Qed.

Lemma filter_bool_Prop {A} (b : A -> bool) (P : A -> Prop) `{!forall x, Decision (P x)}
    (L : list A) :
  (forall x, b x = true <-> P x) -> List.filter b L = filter P L.
Proof.
  intros Hb. induction L as [| x L IH]; [reflexivity |].
  simpl List.filter. rewrite filter_cons, IH.
  destruct (decide (P x)) as [HP | HP].
  - apply Hb in HP. by rewrite HP.
  - destruct (b x) eqn:E; [| done]. apply Hb in E. done.
Qed.

End Filtering.

(** C5. With the three filters set to a half, a side and a family (each
    possibly "all"), the filtered view is the current list restricted to the
    events whose half is the selected one, whose code ends with the side's
    suffix and starts with the family's code: the same events, in the order
    they have in the list. Rendering the view leaves the list itself as it
    was, and with all three filters on "all" the view is the whole list. *)
Theorem getFilteredEvents_exact (s : Session) (h : HalfFilter) (sd : option Side)
    (f : option Family) :
  let s' := changeFilters (halfValue h) (teamValue sd) (typeValue f) s in
  let L := currentEvents s in
  getFilteredEvents s' = filter (Matches h sd f) L
  /\ events_list (dom s') = getFilteredEvents s'
  /\ getFilteredEvents s' `sublist_of` L
  /\ (forall e, e ∈ getFilteredEvents s' <-> e ∈ L /\ Matches h sd f e)
  /\ currentEvents s' = L
  /\ getFilteredEvents (changeFilters "all" "all" "all" s) = L.
Proof.
  intros s' L.
  assert (Hf : getFilteredEvents s' = filter (Matches h sd f) L).
  { apply filter_bool_Prop. intros e. apply filterCallback_Matches. }
  split; [exact Hf |]. split; [reflexivity |].
  rewrite Hf. split; [apply sublist_filter |].
  split; [intros e; rewrite list_elem_of_filter; tauto |].
  split; [reflexivity |].
  unfold getFilteredEvents, changeFilters. simpl. subst L. clear.
  induction (currentEvents s) as [| e K IH]; [reflexivity |].
  simpl. by rewrite IH.
Qed.

(** Scenario 4: half 1, side PFC, family GOAL over a PFC goal in Half 1, an
    opponent goal in Half 1 and a PFC goal in Half 2 keeps the first only. *)
Example scenario4_filter :
  let L := [sampleEvent 1 10 "GOAL_PFC" "ev_a"; sampleEvent 1 20 "GOAL_OPP" "ev_b";
            sampleEvent 2 5 "GOAL_PFC" "ev_c"] in
  getFilteredEvents
    (changeFilters (halfValue Half1) (teamValue (Some PFC)) (typeValue (Some GOAL))
       (setCurrentEvents L savedSession))
  = [sampleEvent 1 10 "GOAL_PFC" "ev_a"].
Proof. vm_compute. reflexivity. Qed.

(** ** Sorting with a comparator *)

Section Sorting.

Context {A : Type} (cmp : A -> A -> option Z) (R : relation A) (ok : A -> Prop).

(** The comparator agrees with the order [R] on the elements that satisfy
    [ok]: a strictly positive result puts the second argument first. *)
Hypothesis cmp_pos : forall x y, ok x -> ok y -> 0 < JS.sortCompare cmp x y -> R y x.
Hypothesis cmp_nonpos : forall x y, ok x -> ok y -> JS.sortCompare cmp x y <= 0 -> R x y.
Hypothesis R_trans : Transitive R.

Lemma sortInsert_Permutation x l : JS.sortInsert cmp x l ≡ₚ x :: l.
Proof.
  induction l as [| y l IH]; [done |].
  simpl. destruct (0 <? JS.sortCompare cmp x y); [| done].
  rewrite IH. apply perm_swap.
Qed.

Lemma sort_Permutation l : JS.sort cmp l ≡ₚ l.
Proof.
  induction l as [| x l IH]; [done |].
  unfold JS.sort in *. simpl. by rewrite sortInsert_Permutation, IH.
Qed.

Lemma sortInsert_sorted x l :
  ok x -> Forall ok l -> StronglySorted R l -> StronglySorted R (JS.sortInsert cmp x l).
Proof.
  intros Hx Hl Hs. induction Hs as [| y l Hs IH Hy].
  - repeat constructor.
  - apply Forall_cons in Hl as [Hoky Hl]. simpl.
    destruct (Z.ltb_spec 0 (JS.sortCompare cmp x y)) as [Hpos | Hnp].
    + constructor; [by apply IH |].
      rewrite sortInsert_Permutation. constructor; [by apply cmp_pos | done].
    + assert (Hxy : R x y) by (by apply cmp_nonpos).
      constructor; [by constructor |].
      constructor; [done |].
      eapply Forall_impl; [exact Hy |]. intros z Hz. by etrans.
Qed.

Lemma sort_sorted l : Forall ok l -> StronglySorted R (JS.sort cmp l).
Proof.
  induction 1 as [| x l Hx Hl IH]; [constructor |].
  unfold JS.sort in *. simpl. apply sortInsert_sorted; [done | | done].
  fold (JS.sort cmp l). by rewrite sort_Permutation.
Qed.

End Sorting.

Section EventOrder.

Global Instance chronological_trans : Transitive chronological.
Proof. unfold chronological. intros a b c; lia. Qed.

Lemma compareEvents_value a b :
  JS.sortCompare compareEvents a b =
  if half a =? half b then t_half_seconds a - t_half_seconds b else half a - half b.
Proof. unfold JS.sortCompare, compareEvents. by destruct (half a =? half b). Qed.

Lemma sort_events_sorted L : StronglySorted chronological (JS.sort compareEvents L).
Proof.
  apply (sort_sorted compareEvents chronological (fun _ => True)).
  - intros x y _ _. rewrite compareEvents_value. unfold chronological.
    destruct (Z.eqb_spec (half x) (half y)); lia.
  - intros x y _ _. rewrite compareEvents_value. unfold chronological.
    destruct (Z.eqb_spec (half x) (half y)); lia.
  - apply _.
  - by apply Forall_forall.
Qed.

Global Instance keyLe_antisym : AntiSymm (=) keyLe.
Proof.
  intros [a b] [c d]. unfold keyLe. simpl. intros H1 H2. f_equal; lia.
Qed.

(** The review order of a game's events does not depend on the order in
    which the store hands them over. *)
Lemma sort_events_order_independent L L' :
  L ≡ₚ L' ->
  sortKey <$> JS.sort compareEvents L = sortKey <$> JS.sort compareEvents L'.
Proof.
  intros HP. apply (StronglySorted_unique keyLe).
  - apply (StronglySorted_fmap sortKey chronological keyLe); [| apply sort_events_sorted].
    intros a b Hab. exact Hab.
  - apply (StronglySorted_fmap sortKey chronological keyLe); [| apply sort_events_sorted].
    intros a b Hab. exact Hab.
  - apply fmap_Permutation. by rewrite !sort_Permutation.
Qed.

End EventOrder.

Section SavedGames.

Lemma find_is_Some {A} (f : A -> bool) (l : list A) x :
  x ∈ l -> f x = true -> is_Some (List.find f l).
Proof.
  induction 1 as [x l | x y l Hin IH]; intros Hf; simpl.
  - rewrite Hf. eauto.
  - destruct (f y); eauto.
Qed.

(** What [loadSavedGame] leaves in memory once the game is found. *)
Lemma loadSavedGame_found gameId s g :
  g ∈ dbGetAll STORE_GAMES (db s) -> game_id g = gameId ->
  let s' := loadSavedGame gameId s in
  is_Some (currentGame s')
  /\ currentEvents s' = JS.sort compareEvents (dbGetEventsByGame gameId (db s))
  /\ gameActive s' = false /\ db s' = db s.
Proof.
  intros Hin Hid s'.
  destruct (find_is_Some (fun g => String.eqb (game_id g) gameId) _ g Hin)
    as [g' Hg'].
  { by apply String.eqb_eq. }
  assert (Hcore : core s' =
    (db s, Some g', JS.sort compareEvents (dbGetEventsByGame gameId (db s)),
     currentHalf s, clockSeconds s, clockInterval s, false)).
  { subst s'. unfold loadSavedGame. rewrite Hg'.
    change (currentGame (setCurrentGame (Some g') s)) with (Some g'). cbv iota.
    unfold showScreen. by rewrite core_onDom, core_openReviewScreen. }
  unfold core in Hcore. repeat split; try congruence.
  exists g'. congruence.
Qed.

End SavedGames.

Example scenario6_review_order :
  currentEvents (loadSavedGame "game_1" savedSession) =
  [sampleEvent 1 5 "GOAL_PFC" "ev_3"; sampleEvent 1 30 "GOAL_OPP" "ev_2";
   sampleEvent 2 5 "GOAL_PFC" "ev_1"].
Proof. vm_compute. reflexivity. Qed.

(** C7. Once a saved game is found and loaded, the in-memory list holds
    exactly that game's stored events, ordered by half ascending and then by
    time within the half ascending; the (half, seconds) sequence that is
    reviewed is the same for every order in which the store may return the
    events. *)
Theorem loadSavedGame_orders_events (gameId : string) (s : Session) (g : Game) :
  g ∈ dbGetAll STORE_GAMES (db s) -> game_id g = gameId ->
  let s' := loadSavedGame gameId s in
  currentEvents s' ≡ₚ dbGetEventsByGame gameId (db s)
  /\ StronglySorted chronological (currentEvents s')
  /\ (forall L, L ≡ₚ dbGetEventsByGame gameId (db s) ->
        sortKey <$> JS.sort compareEvents L = sortKey <$> currentEvents s').
Proof.
  intros Hin Hid s'.
  destruct (loadSavedGame_found gameId s g Hin Hid) as (_ & Hev & _).
  fold s' in Hev. rewrite Hev. split; [apply sort_Permutation |].
  split; [apply sort_events_sorted |].
  intros L HL. by apply sort_events_order_independent.
Qed.

Lemma loadSavedGame_orders_events_witness :
  savedGame ∈ dbGetAll STORE_GAMES (db savedSession) /\ game_id savedGame = "game_1"
  /\ StronglySorted chronological (currentEvents (loadSavedGame "game_1" savedSession)).
Proof.
  assert (Hin : savedGame ∈ dbGetAll STORE_GAMES (db savedSession)).
  { let l := eval vm_compute in (dbGetAll STORE_GAMES (db savedSession)) in
    change (dbGetAll STORE_GAMES (db savedSession)) with l.
    apply list_elem_of_here. }
  split; [exact Hin |]. split; [reflexivity |].
  exact (proj1 (proj2
    (loadSavedGame_orders_events "game_1" savedSession savedGame Hin eq_refl))).
Defined.

Section GameOrder.

Global Instance newestFirst_trans : Transitive newestFirst.
Proof.
  intros a b c (ta & tb & Ha & Hb & Hab) (tb' & tc & Hb' & Hc & Hbc).
  exists ta, tc. repeat split; [done | done |]. simplify_eq. lia.
Qed.

Lemma compareGames_value a b ta tb :
  JSDate.parse (date a) = Some ta -> JSDate.parse (date b) = Some tb ->
  JS.sortCompare compareGames a b = tb - ta.
Proof.
  intros Ha Hb. unfold JS.sortCompare, compareGames, JSDate.diff.
  by rewrite Ha, Hb.
Qed.

Lemma sort_games_sorted (l : list Game) :
  Forall (fun g => is_Some (JSDate.parse (date g))) l ->
  StronglySorted newestFirst (JS.sort compareGames l).
Proof.
  apply (sort_sorted compareGames newestFirst).
  - intros x y [tx Hx] [ty Hy]. rewrite (compareGames_value x y tx ty Hx Hy).
    intros Hpos. exists ty, tx. repeat split; [done | done | lia].
  - intros x y [tx Hx] [ty Hy]. rewrite (compareGames_value x y tx ty Hx Hy).
    intros Hnp. exists tx, ty. repeat split; [done | done | lia].
  - apply _.
Qed.

Lemma games_list_viewSavedGames s :
  (games_list (dom (viewSavedGames s))).*1 =
  JS.sort compareGames (dbGetAll STORE_GAMES (db s)).
Proof.
  unfold viewSavedGames.
  destruct (JS.sort compareGames (dbGetAll STORE_GAMES (db s))) as [| g l] eqn:E;
    [reflexivity |].
  change (games_list _) with
    (zip (g :: l) (map (fun g => length (dbGetEventsByGame (game_id g) (db s))) (g :: l))).
  apply fst_zip. by rewrite length_map.
Qed.

End GameOrder.

(** C9. The saved-games listing shows every stored game, newest first:
    the games listed are the stored ones, each once, and no game stands
    before a game of a later date. (Every stored date is one that
    [startGame] wrote, so it reads back as a valid instant.) *)
Theorem viewSavedGames_newest_first (s : Session) :
  Forall (fun g => is_Some (JSDate.parse (date g))) (dbGetAll STORE_GAMES (db s)) ->
  let shown := (games_list (dom (viewSavedGames s))).*1 in
  shown ≡ₚ dbGetAll STORE_GAMES (db s)
  /\ StronglySorted newestFirst shown
  /\ screen (dom (viewSavedGames s)) = gamesScreen.
Proof.
  intros Hok shown. subst shown. rewrite games_list_viewSavedGames.
  split; [apply sort_Permutation |]. split; [by apply sort_games_sorted |].
  unfold viewSavedGames. by destruct (JS.sort _ _).
Qed.

Lemma viewSavedGames_newest_first_witness :
  let s := setDb gamesStore freshSession in
  Forall (fun g => is_Some (JSDate.parse (date g))) (dbGetAll STORE_GAMES (db s))
  /\ StronglySorted newestFirst (games_list (dom (viewSavedGames s))).*1.
Proof.
  intros s.
  assert (Hok : Forall (fun g => is_Some (JSDate.parse (date g)))
                  (dbGetAll STORE_GAMES (db s))).
  { let l := eval vm_compute in (dbGetAll STORE_GAMES (db s)) in
    change (dbGetAll STORE_GAMES (db s)) with l.
    repeat constructor; eexists; vm_compute; reflexivity. }
  split; [exact Hok |].
  exact (proj1 (proj2 (viewSavedGames_newest_first s Hok))).
Defined.

(** ** Dates: reading back what [toISOString] wrote *)

Section Digits.

Lemma code_range c : 0 <= JS.code c < 256.
Proof.
  unfold JS.code. pose proof (N_ascii_bounded c). lia.
Qed.

Lemma isDigit_range c : JS.isDigit c = true <-> 48 <= JS.code c <= 57.
Proof. unfold JS.isDigit. rewrite andb_true_iff, !Z.leb_le. tauto. Qed.

Lemma digitChar_digitValue c : JS.isDigit c = true -> JS.digitChar (JS.digitValue c) = c.
Proof.
  intros Hd%isDigit_range. unfold JS.digitChar, JS.digitValue.
  rewrite Z.mod_small by lia.
  replace (48 + (JS.code c - 48)) with (JS.code c) by lia.
  unfold JS.code. rewrite N2Z.id. apply ascii_N_embedding.
Qed.

Lemma code_digitChar d : JS.code (JS.digitChar d) = 48 + d mod 10.
Proof.
  unfold JS.code, JS.digitChar.
  pose proof (Z.mod_pos_bound d 10 ltac:(lia)) as Hm.
  rewrite N_ascii_embedding by lia. lia.
Qed.

Lemma isDigit_digitChar d : JS.isDigit (JS.digitChar d) = true.
Proof.
  apply isDigit_range. rewrite code_digitChar.
  pose proof (Z.mod_pos_bound d 10 ltac:(lia)). lia.
Qed.

Lemma digitValue_digitChar d : JS.digitValue (JS.digitChar d) = d mod 10.
Proof. unfold JS.digitValue. rewrite code_digitChar. lia. Qed.

Lemma pow10_succ (k : nat) : 10 ^ Z.of_nat (S k) = 10 * 10 ^ Z.of_nat k.
Proof. rewrite Nat2Z.inj_succ, Z.pow_succ_r by lia. reflexivity. Qed.

Lemma pow10_pos (k : nat) : 0 < 10 ^ Z.of_nat k.
Proof. apply Z.pow_pos_nonneg; lia. Qed.

(** Reading [k] digits succeeds only on a string that starts with the
    [k]-digit rendering of the number read. *)
Lemma readDigits_inv (k : nat) : forall acc s n r,
  JSDate.readDigits k acc s = Some (n, r) ->
  exists v, 0 <= v < 10 ^ Z.of_nat k /\ n = acc * 10 ^ Z.of_nat k + v
            /\ s = JSDate.digits k v r.
Proof.
  induction k as [| k IH]; intros acc s n r H.
  - simpl in H. injection H as <- <-. exists 0. simpl. split; [lia |]. split; [lia | done].
  - simpl in H. destruct s as [| c s']; [done |].
    destruct (JS.isDigit c) eqn:Hc; [| done].
    apply IH in H as (v & Hv & -> & ->).
    pose proof (pow10_pos k) as Hp. apply isDigit_range in Hc as Hr.
    set (d := JS.digitValue c). assert (Hd : 0 <= d <= 9) by (unfold d, JS.digitValue; lia).
    exists (d * 10 ^ Z.of_nat k + v). rewrite pow10_succ.
    split; [nia |]. split; [lia |].
    simpl JSDate.digits.
    replace ((d * 10 ^ Z.of_nat k + v) / 10 ^ Z.of_nat k) with d
      by (apply Z.div_unique with v; lia).
    replace ((d * 10 ^ Z.of_nat k + v) mod 10 ^ Z.of_nat k) with v
      by (apply Z.mod_unique with d; lia).
    unfold d. rewrite digitChar_digitValue by (by apply isDigit_range). done.
Qed.

Lemma readDigits_digits (k : nat) : forall acc v r,
  0 <= v < 10 ^ Z.of_nat k ->
  JSDate.readDigits k acc (JSDate.digits k v r) = Some (acc * 10 ^ Z.of_nat k + v, r).
Proof.
  induction k as [| k IH]; intros acc v r Hv.
  - simpl in *. f_equal. f_equal. lia.
  - pose proof (pow10_pos k) as Hp. rewrite pow10_succ in *.
    simpl JSDate.digits. simpl JSDate.readDigits.
    rewrite isDigit_digitChar, digitValue_digitChar.
    pose proof (Z.mod_pos_bound v (10 ^ Z.of_nat k) Hp) as Hm.
    pose proof (Z.div_mod v (10 ^ Z.of_nat k) ltac:(lia)) as Hdm.
    assert (0 <= v / 10 ^ Z.of_nat k < 10) as Hq.
    { split; [apply Z.div_pos; lia | apply Z.div_lt_upper_bound; lia]. }
    rewrite (Z.mod_small (v / _) 10) by lia.
    rewrite IH by lia. f_equal. f_equal. lia.
Qed.

End Digits.

Section Calendar.

Lemma checkFrom_spec (P : Z -> bool) (n : nat) : forall i,
  checkFrom P n i = true -> forall j, i <= j < i + Z.of_nat n -> P j = true.
Proof.
  induction n as [| n IH]; intros i H j Hj; [lia |].
  simpl in H. apply andb_true_iff in H as [Hi Hrest].
  destruct (Z.eq_dec j i) as [-> | Hne]; [done |].
  apply (IH (i + 1)); [done | lia].
Qed.

Lemma checkDoy_year : checkFrom checkDoy 366 0 = true.
Proof. vm_compute. reflexivity. Qed.

Lemma checkMonthDay_year : checkFrom checkMonthDay 372 0 = true.
Proof. vm_compute. reflexivity. Qed.

Lemma checkYoe_era : checkFrom checkYoe 400 0 = true.
Proof. vm_compute. reflexivity. Qed.

(** The year-of-era formula finds the year in which a day of the era lies. *)
Lemma yoeOfDoe_spec doe :
  0 <= doe < 146097 ->
  0 <= JSDate.yoeOfDoe doe <= 399
  /\ JSDate.startOfYoe (JSDate.yoeOfDoe doe) <= doe
  /\ (doe < JSDate.startOfYoe (JSDate.yoeOfDoe doe + 1) \/ JSDate.yoeOfDoe doe = 399).
Proof.
  intros H. unfold JSDate.yoeOfDoe, JSDate.startOfYoe.
  Z.to_euclidean_division_equations; lia.
Qed.

Lemma startOfYoe_mono y1 y2 :
  0 <= y1 -> y1 < y2 -> JSDate.startOfYoe (y1 + 1) <= JSDate.startOfYoe y2.
Proof.
  intros H0 H. unfold JSDate.startOfYoe.
  Z.to_euclidean_division_equations; lia.
Qed.

Lemma startOfYoe_bounds y :
  0 <= y <= 399 -> 0 <= JSDate.startOfYoe y <= 145731.
Proof.
  intros H. unfold JSDate.startOfYoe.
  Z.to_euclidean_division_equations; lia.
Qed.

Lemma yearLength yoe :
  0 <= yoe <= 399 ->
  (if yoe =? 399 then 146097 else JSDate.startOfYoe (yoe + 1)) - JSDate.startOfYoe yoe
  = if JSDate.isLeap (yoe + 1) then 366 else 365.
Proof.
  intros H. apply Z.eqb_eq.
  apply (checkFrom_spec checkYoe 400 0 checkYoe_era). lia.
Qed.

Lemma daysInMonth_common y m : JSDate.daysInMonth 1 m <= JSDate.daysInMonth y m.
Proof.
  unfold JSDate.daysInMonth. destruct (m =? 2); [| lia].
  replace (JSDate.isLeap 1) with false by reflexivity.
  destruct (JSDate.isLeap y); lia.
Qed.

Lemma daysInMonth_leap y m : JSDate.daysInMonth y m <= JSDate.daysInMonth 4 m.
Proof.
  unfold JSDate.daysInMonth. destruct (m =? 2); [| lia].
  replace (JSDate.isLeap 4) with true by reflexivity.
  destruct (JSDate.isLeap y); lia.
Qed.

Lemma daysInMonth_feb y : JSDate.daysInMonth y 2 = if JSDate.isLeap y then 29 else 28.
Proof. reflexivity. Qed.

Lemma daysInMonth_le_31 y m : JSDate.daysInMonth y m <= 31.
Proof.
  unfold JSDate.daysInMonth.
  destruct (m =? 2); [destruct (JSDate.isLeap y); lia |].
  destruct (_ || _); lia.
Qed.

Lemma isLeap_era y k : JSDate.isLeap (y + k * 400) = JSDate.isLeap y.
Proof.
  unfold JSDate.isLeap.
  replace ((y + k * 400) mod 4) with (y mod 4)
    by (replace (k * 400) with (k * 100 * 4) by lia; by rewrite Z.mod_add).
  replace ((y + k * 400) mod 100) with (y mod 100)
    by (replace (k * 400) with (k * 4 * 100) by lia; by rewrite Z.mod_add).
  by rewrite Z.mod_add.
Qed.

Lemma daysInMonth_era y k m : JSDate.daysInMonth (y + k * 400) m = JSDate.daysInMonth y m.
Proof. unfold JSDate.daysInMonth. by rewrite isLeap_era. Qed.

(** A day of the era maps to a valid date of the era, from which
    [doeOfCivil] leads back; the last 60 days of the era are the January
    and February of its 400th year. *)
Lemma civilOfDoe_valid doe :
  0 <= doe < 146097 ->
  exists yoe m d, JSDate.civilOfDoe doe = (yoe, m, d)
    /\ 0 <= yoe <= 399 /\ 1 <= m <= 12
    /\ 1 <= d <= JSDate.daysInMonth (yoe + janFeb m) m
    /\ JSDate.doeOfCivil yoe m d = doe
    /\ (146037 <= doe -> yoe = 399 /\ m <= 2)
    /\ (doe < 146037 -> yoe + janFeb m <= 399).
Proof.
  intros Hdoe. unfold JSDate.civilOfDoe, JSDate.doeOfCivil.
  destruct (yoeOfDoe_spec doe Hdoe) as (Hyoe & Hlo & Hhi).
  set (yoe := JSDate.yoeOfDoe doe) in *.
  set (doy := doe - JSDate.startOfYoe yoe).
  pose proof (yearLength yoe Hyoe) as Hlen.
  pose proof (startOfYoe_bounds yoe Hyoe) as Hsb.
  assert (Hdoy : 0 <= doy < if JSDate.isLeap (yoe + 1) then 366 else 365).
  { subst doy. destruct (Z.eqb_spec yoe 399) as [E | E]; lia. }
  assert (Hdoy' : 0 <= doy < 0 + Z.of_nat 366).
  { destruct (JSDate.isLeap (yoe + 1)); lia. }
  pose proof (checkFrom_spec checkDoy 366 0 checkDoy_year doy Hdoy') as Hc.
  unfold checkDoy in Hc. destruct (JSDate.monthDayOfDoy doy) as [m d].
  repeat (apply andb_true_iff in Hc as [Hc ?]).
  exists yoe, m, d. split; [reflexivity |].
  assert (Hback : JSDate.doyOfMonthDay m d = doy) by lia.
  assert (Hjf : (m <=? 2) = (306 <=? doy)) by (by apply Bool.eqb_prop).
  split; [lia |]. split; [lia |].
  split.
  { split; [lia |].
    match goal with H : (_ || _) = true |- _ => apply orb_true_iff in H as [Hd | Hd] end.
    - pose proof (daysInMonth_common (yoe + janFeb m) m). lia.
    - repeat (apply andb_true_iff in Hd as [Hd ?]).
      assert (m = 2) as -> by lia. assert (d = 29) as -> by lia.
      assert (doy = 365) as Hd365 by lia.
      change (janFeb 2) with 1. rewrite daysInMonth_feb.
      destruct (JSDate.isLeap (yoe + 1)); lia. }
  split; [rewrite Hback; subst doy; lia |].
  split.
  - intros Hlate.
    assert (yoe = 399) as Hy.
    { destruct Hhi as [Hhi | Hhi]; [| done].
      destruct (Z.eq_dec yoe 399) as [E | E]; [done |].
      pose proof (startOfYoe_mono yoe 399 ltac:(lia) ltac:(lia)) as Hm.
      pose proof (startOfYoe_bounds 399 ltac:(lia)). lia. }
    split; [done |].
    assert (306 <= doy).
    { subst doy. rewrite Hy. change (JSDate.startOfYoe 399) with 145731. lia. }
    apply Z.leb_le. rewrite Hjf. by apply Z.leb_le.
  - intros Hearly. unfold janFeb.
    destruct (Z.eq_dec yoe 399) as [E | E].
    + assert (doy < 306).
      { subst doy. rewrite E. change (JSDate.startOfYoe 399) with 145731. lia. }
      rewrite Hjf. destruct (Z.leb_spec 306 doy); lia.
    + destruct (m <=? 2); lia.
Qed.

(** A valid date of the era has a day of the era that [civilOfDoe] maps
    back to it. *)
Lemma doeOfCivil_valid yoe m d :
  0 <= yoe <= 399 -> 1 <= m <= 12 ->
  1 <= d <= JSDate.daysInMonth (yoe + janFeb m) m ->
  0 <= JSDate.doeOfCivil yoe m d < 146097
  /\ JSDate.civilOfDoe (JSDate.doeOfCivil yoe m d) = (yoe, m, d).
Proof.
  intros Hyoe Hm Hd.
  pose proof (daysInMonth_leap (yoe + janFeb m) m) as Hleap.
  pose proof (daysInMonth_le_31 4 m) as H31.
  set (i := (m - 1) * 31 + (d - 1)).
  assert (Hi : 0 <= i < 0 + Z.of_nat 372) by (subst i; lia).
  pose proof (checkFrom_spec checkMonthDay 372 0 checkMonthDay_year i Hi) as Hc.
  unfold checkMonthDay in Hc.
  assert (Hq : i / 31 = m - 1)
    by (symmetry; apply Z.div_unique with (d - 1); subst i; lia).
  assert (Hr : i mod 31 = d - 1)
    by (symmetry; apply Z.mod_unique with (m - 1); subst i; lia).
  rewrite Hq, Hr in Hc.
  replace (m - 1 + 1) with m in Hc by lia.
  replace (d - 1 + 1) with d in Hc by lia.
  destruct (Z.leb_spec d (JSDate.daysInMonth 4 m)) as [_ | ?]; [| lia].
  set (doy := JSDate.doyOfMonthDay m d) in *.
  destruct (JSDate.monthDayOfDoy doy) as [m' d'] eqn:Hmd.
  repeat (apply andb_true_iff in Hc as [Hc ?]).
  assert (m' = m) as -> by lia. assert (d' = d) as -> by lia.
  assert (Hdoy : 0 <= doy <= 365) by lia.
  pose proof (yearLength yoe Hyoe) as Hlen.
  pose proof (startOfYoe_bounds yoe Hyoe) as Hsb.
  assert (Hlt : doy < if JSDate.isLeap (yoe + 1) then 366 else 365).
  { destruct (Z.eqb_spec doy 365) as [E | E].
    - match goal with H : implb true _ = true |- _ => simpl in H;
        apply andb_true_iff in H as [?%Z.eqb_eq ?%Z.eqb_eq] end.
      subst m d. change (janFeb 2) with 1 in Hd. rewrite daysInMonth_feb in Hd.
      destruct (JSDate.isLeap (yoe + 1)); lia.
    - destruct (JSDate.isLeap (yoe + 1)); lia. }
  unfold JSDate.doeOfCivil. fold doy.
  set (doe := JSDate.startOfYoe yoe + doy).
  assert (Hend : doe < if yoe =? 399 then 146097 else JSDate.startOfYoe (yoe + 1))
    by (subst doe; lia).
  assert (Hdoe : 0 <= doe < 146097).
  { split; [subst doe; lia |].
    destruct (Z.eqb_spec yoe 399) as [E | E]; [lia |].
    pose proof (startOfYoe_mono yoe 399 ltac:(lia) ltac:(lia)).
    pose proof (startOfYoe_bounds 399 ltac:(lia)). lia. }
  split; [exact Hdoe |].
  destruct (yoeOfDoe_spec doe Hdoe) as (Hy' & Hlo & Hhi).
  assert (Hy : JSDate.yoeOfDoe doe = yoe).
  { set (y' := JSDate.yoeOfDoe doe) in *.
    destruct (Z.lt_trichotomy y' yoe) as [Hlt' | [Heq | Hgt]]; [| done |].
    - destruct Hhi as [Hhi | Hhi]; [| lia].
      pose proof (startOfYoe_mono y' yoe ltac:(lia) Hlt'). subst doe. lia.
    - destruct (Z.eqb_spec yoe 399) as [E | E]; [lia |].
      pose proof (startOfYoe_mono yoe y' ltac:(lia) Hgt). lia. }
  unfold JSDate.civilOfDoe. rewrite Hy.
  replace (doe - JSDate.startOfYoe yoe) with doy by (subst doe; lia).
  by rewrite Hmd.
Qed.

(** Every day number is the day number of the date it maps to, and that
    date is a valid one. *)
Lemma daysFromCivil_civilFromDays z :
  exists y m d, JSDate.civilFromDays z = (y, m, d)
    /\ JSDate.daysFromCivil y m d = z
    /\ 1 <= m <= 12 /\ 1 <= d <= JSDate.daysInMonth y m.
Proof.
  unfold JSDate.civilFromDays.
  set (z0 := z + 719468).
  pose proof (Z.mod_pos_bound z0 146097 ltac:(lia)) as Hmod.
  pose proof (Z.div_mod z0 146097 ltac:(lia)) as Hdm.
  destruct (civilOfDoe_valid (z0 mod 146097) Hmod)
    as (yoe & m & d & -> & Hyoe & Hm & Hd & Hback & _).
  eexists _, m, d. split; [reflexivity |].
  fold (janFeb m). split; [| split; [done |]].
  - unfold JSDate.daysFromCivil.
    replace (if m <=? 2 then yoe + z0 / 146097 * 400 + janFeb m - 1
             else yoe + z0 / 146097 * 400 + janFeb m)
      with (yoe + z0 / 146097 * 400) by (unfold janFeb; destruct (m <=? 2); lia).
    rewrite Z.div_add, Z.mod_add by lia.
    rewrite Z.div_small, Z.mod_small by lia.
    rewrite Hback. subst z0. lia.
  - replace (yoe + z0 / 146097 * 400 + janFeb m)
      with (yoe + janFeb m + z0 / 146097 * 400) by lia.
    by rewrite daysInMonth_era.
Qed.

(** A valid date is the date of its day number. *)
Lemma civilFromDays_daysFromCivil y m d :
  1 <= m <= 12 -> 1 <= d <= JSDate.daysInMonth y m ->
  JSDate.civilFromDays (JSDate.daysFromCivil y m d) = (y, m, d).
Proof.
  intros Hm Hd. unfold JSDate.daysFromCivil. fold (janFeb m).
  set (y' := if m <=? 2 then y - 1 else y).
  assert (Hy : y = y' + janFeb m) by (subst y'; unfold janFeb; destruct (m <=? 2); lia).
  pose proof (Z.mod_pos_bound y' 400 ltac:(lia)) as Hmod.
  pose proof (Z.div_mod y' 400 ltac:(lia)) as Hdm.
  assert (Hd' : 1 <= d <= JSDate.daysInMonth (y' mod 400 + janFeb m) m).
  { replace (y' mod 400 + janFeb m) with (y + (- (y' / 400)) * 400) by lia.
    by rewrite daysInMonth_era. }
  destruct (doeOfCivil_valid (y' mod 400) m d ltac:(lia) Hm Hd') as [Hdoe Hciv].
  unfold JSDate.civilFromDays.
  replace (y' / 400 * 146097 + JSDate.doeOfCivil (y' mod 400) m d - 719468 + 719468)
    with (JSDate.doeOfCivil (y' mod 400) m d + y' / 400 * 146097) by lia.
  rewrite Z.div_add, Z.mod_add by lia.
  rewrite Z.div_small, Z.mod_small by lia.
  rewrite Hciv. fold (janFeb m). f_equal. f_equal. lia.
Qed.

End Calendar.

Section DateStrings.

Lemma expect_inv c s r : JSDate.expect c s = Some r -> s = String c r.
Proof.
  destruct s as [| c' s']; simpl; [done |].
  destruct (Ascii.eqb_spec c c') as [-> | ?]; [| done]. by intros [= ->].
Qed.

Lemma timeOfDay_fields hh mi ss ms :
  0 <= hh <= 23 -> 0 <= mi <= 59 -> 0 <= ss <= 59 -> 0 <= ms <= 999 ->
  let r := hh * 3600000 + mi * 60000 + ss * 1000 + ms in
  0 <= r < JSDate.msPerDay
  /\ r / 3600000 = hh /\ r / 60000 mod 60 = mi /\ r / 1000 mod 60 = ss
  /\ r mod 1000 = ms.
Proof.
  intros Hh Hm Hs Hms r. subst r. unfold JSDate.msPerDay.
  Z.to_euclidean_division_equations; lia.
Qed.

(** What a string that parses looks like, field by field. *)
Lemma parse_inv s t :
  JSDate.parse s = Some t ->
  exists y m d hh mi ss ms,
    s = JSDate.isoFields (JSDate.digits 4 y) m d hh mi ss ms
    /\ 0 <= y <= 9999 /\ 1 <= m <= 12 /\ 1 <= d <= JSDate.daysInMonth y m
    /\ 0 <= hh <= 23 /\ 0 <= mi <= 59 /\ 0 <= ss <= 59 /\ 0 <= ms <= 999
    /\ t = JSDate.daysFromCivil y m d * JSDate.msPerDay
           + (hh * 3600000 + mi * 60000 + ss * 1000 + ms).
Proof.
  unfold JSDate.parse, mbind, option_bind. intros H.
  repeat match type of H with
  | (match JSDate.readDigits ?k 0 ?x with _ => _ end) = _ =>
      let n := fresh "n" in let r := fresh "r" in let E := fresh "E" in
      destruct (JSDate.readDigits k 0 x) as [[n r] |] eqn:E; cbv beta iota in H; [| done];
      apply readDigits_inv in E as (? & ? & -> & ->)
  | (match JSDate.expect ?c ?x with _ => _ end) = _ =>
      let r := fresh "r" in let E := fresh "E" in
      destruct (JSDate.expect c x) as [r |] eqn:E; cbv beta iota in H; [| done];
      apply expect_inv in E as ->
  end.
  match type of H with (if ?b then _ else _) = _ => destruct b eqn:Hb; [| done] end.
  injection H as <-.
  repeat (apply andb_true_iff in Hb as [Hb ?]).
  apply String.eqb_eq in Hb as ->.
  change (10 ^ Z.of_nat 4) with 10000 in *. change (10 ^ Z.of_nat 2) with 100 in *.
  change (10 ^ Z.of_nat 3) with 1000 in *.
  rewrite ?Z.mul_0_l, ?Z.add_0_l in *.
  do 7 eexists. split; [reflexivity |].
  repeat split; lia.
Qed.

Lemma yearString_4digits y : 0 <= y <= 9999 -> JSDate.yearString y = JSDate.digits 4 y.
Proof.
  intros H. unfold JSDate.yearString.
  destruct (Z.leb_spec 0 y); [| lia]. destruct (Z.leb_spec y 9999); [| lia]. done.
Qed.

(** Writing an instant that was read from a string gives that string back. *)
Lemma toISOString_parse s t : JSDate.parse s = Some t -> JSDate.toISOString t = s.
Proof.
  intros H.
  destruct (parse_inv s t H)
    as (y & m & d & hh & mi & ss & ms & -> & Hy & Hm & Hd & Hhh & Hmi & Hss & Hms & ->).
  destruct (timeOfDay_fields hh mi ss ms Hhh Hmi Hss Hms) as (Hr & Eh & Em & Es & Ems).
  set (r := hh * 3600000 + mi * 60000 + ss * 1000 + ms) in *.
  set (D := JSDate.daysFromCivil y m d).
  assert (HD : JSDate.Day (D * JSDate.msPerDay + r) = D).
  { unfold JSDate.Day. symmetry. apply Z.div_unique with r; lia. }
  assert (HT : JSDate.TimeWithinDay (D * JSDate.msPerDay + r) = r).
  { unfold JSDate.TimeWithinDay. symmetry. apply Z.mod_unique with D; lia. }
  unfold JSDate.toISOString. rewrite HD, HT. subst D.
  rewrite civilFromDays_daysFromCivil by done.
  rewrite Eh, Em, Es, Ems. unfold JSDate.isoFields. by rewrite yearString_4digits.
Qed.

Lemma expect_head c r : JSDate.expect c (String c r) = Some r.
Proof. simpl. by rewrite Ascii.eqb_refl. Qed.

(** Reading the layout of valid fields gives their instant. *)
Lemma parse_isoFields y m d hh mi ss ms :
  0 <= y <= 9999 -> 1 <= m <= 12 -> 1 <= d <= JSDate.daysInMonth y m ->
  0 <= hh <= 23 -> 0 <= mi <= 59 -> 0 <= ss <= 59 -> 0 <= ms <= 999 ->
  JSDate.parse (JSDate.isoFields (JSDate.digits 4 y) m d hh mi ss ms) =
  Some (JSDate.daysFromCivil y m d * JSDate.msPerDay
        + hh * 3600000 + mi * 60000 + ss * 1000 + ms).
Proof.
  intros Hy Hm Hd Hhh Hmi Hss Hms.
  pose proof (daysInMonth_le_31 y m) as H31.
  unfold JSDate.parse, JSDate.isoFields, mbind, option_bind.
  repeat (rewrite readDigits_digits
            by (change (10 ^ Z.of_nat 4) with 10000; change (10 ^ Z.of_nat 2) with 100;
                change (10 ^ Z.of_nat 3) with 1000; lia);
          cbv beta iota; rewrite expect_head).
  rewrite ?Z.mul_0_l, ?Z.add_0_l.
  replace (String.eqb "" "") with true by reflexivity.
  destruct (Z.leb_spec 1 m); [| lia]. destruct (Z.leb_spec m 12); [| lia].
  destruct (Z.leb_spec 1 d); [| lia].
  destruct (Z.leb_spec d (JSDate.daysInMonth y m)); [| lia].
  destruct (Z.leb_spec hh 23); [| lia]. destruct (Z.leb_spec mi 59); [| lia].
  destruct (Z.leb_spec ss 59); [| lia]. done.
Qed.

(** The years with a four-digit rendering. *)
Lemma civilFromDays_year_range z y m d :
  -719528 <= z <= 2932896 -> JSDate.civilFromDays z = (y, m, d) -> 0 <= y <= 9999.
Proof.
  intros Hz. unfold JSDate.civilFromDays.
  set (z0 := z + 719468).
  pose proof (Z.mod_pos_bound z0 146097 ltac:(lia)) as Hmod.
  pose proof (Z.div_mod z0 146097 ltac:(lia)) as Hdm.
  destruct (civilOfDoe_valid (z0 mod 146097) Hmod)
    as (yoe & m' & d' & -> & Hyoe & Hm & Hd & _ & Hlate & Hearly).
  intros [= <- <- <-]. fold (janFeb m').
  assert (Hjf : 0 <= janFeb m' <= 1) by (unfold janFeb; destruct (m' <=? 2); lia).
  assert (Hera : -1 <= z0 / 146097 <= 24) by (subst z0; lia).
  destruct (Z.eq_dec (z0 / 146097) (-1)) as [E | E].
  { destruct Hlate as [-> Hm2]; [subst z0; lia |].
    unfold janFeb. destruct (Z.leb_spec m' 2); lia. }
  destruct (Z.eq_dec (z0 / 146097) 24) as [E' | E'].
  { assert (yoe + janFeb m' <= 399) by (apply Hearly; subst z0; lia). lia. }
  lia.
Qed.

(** An instant in the years 0000 to 9999 is read back from the string
    [toISOString] writes for it. *)
Lemma parse_toISOString t :
  -62167219200000 <= t < 253402300800000 ->
  JSDate.parse (JSDate.toISOString t) = Some t.
Proof.
  intros Ht. unfold JSDate.toISOString.
  destruct (daysFromCivil_civilFromDays (JSDate.Day t)) as (y & m & d & E & Hback & Hm & Hd).
  assert (Hday : -719528 <= JSDate.Day t <= 2932896).
  { unfold JSDate.Day, JSDate.msPerDay. Z.to_euclidean_division_equations; lia. }
  pose proof (civilFromDays_year_range _ y m d Hday E) as Hy.
  rewrite E, yearString_4digits by done.
  set (r := JSDate.TimeWithinDay t).
  assert (Hr : 0 <= r < 86400000) by (apply Z.mod_pos_bound; done).
  rewrite parse_isoFields; try done;
    try (Z.to_euclidean_division_equations; lia).
  f_equal. rewrite Hback.
  assert (t = JSDate.Day t * JSDate.msPerDay + r).
  { subst r. unfold JSDate.Day, JSDate.TimeWithinDay.
    pose proof (Z.div_mod t JSDate.msPerDay ltac:(done)). lia. }
  Z.to_euclidean_division_equations; lia.
Qed.

End DateStrings.

(** ** Export file name *)

Section Filename.

(** The date portion of a stored date: the first ten characters, which
    spell the year, month and day of the instant. *)
Lemma parse_date_portion s t :
  JSDate.parse s = Some t ->
  JS.slice0 10 (JSDate.toISOString t) = JS.slice0 10 s
  /\ exists y m d, JSDate.civilFromDays (JSDate.Day t) = (y, m, d)
       /\ JS.slice0 10 s = isoDate y m d
       /\ 0 <= y <= 9999 /\ 1 <= m <= 12 /\ 1 <= d <= JSDate.daysInMonth y m.
Proof.
  intros H. split; [by rewrite (toISOString_parse s t H) |].
  destruct (parse_inv s t H)
    as (y & m & d & hh & mi & ss & ms & -> & Hy & Hm & Hd & Hhh & Hmi & Hss & Hms & ->).
  destruct (timeOfDay_fields hh mi ss ms Hhh Hmi Hss Hms) as (Hr & _).
  exists y, m, d. split; [| split; [reflexivity | done]].
  replace (JSDate.Day _) with (JSDate.daysFromCivil y m d).
  - by apply civilFromDays_daysFromCivil.
  - unfold JSDate.Day.
    apply Z.div_unique with (hh * 3600000 + mi * 60000 + ss * 1000 + ms); lia.
Qed.

Lemma length_mapChars f s : String.length (JS.mapChars f s) = String.length s.
Proof. induction s as [| c s IH]; simpl; [done | by rewrite IH]. Qed.

Lemma get_mapChars f s i : String.get i (JS.mapChars f s) = f <$> String.get i s.
Proof.
  revert i. induction s as [| c s IH]; intros i; simpl; [done |].
  destruct i; [done | apply IH].
Qed.

Lemma length_slice0 n s : String.length (JS.slice0 n s) = Nat.min n (String.length s).
Proof.
  unfold JS.slice0. revert n. induction s as [| c s IH]; intros [| n]; simpl; try done.
  by rewrite IH.
Qed.

Lemma get_slice0 n s i : (i < n)%nat -> String.get i (JS.slice0 n s) = String.get i s.
Proof.
  unfold JS.slice0. revert n i. induction s as [| c s IH]; intros [| n] i Hi; simpl;
    try done; try lia.
  destruct i; [done |]. apply IH. lia.
Qed.

(** The sanitized name: the first 20 characters, each kept when it is a
    letter or a digit and turned into an underscore otherwise. *)
Lemma sanitizeOpponent_chars opp :
  String.length (sanitizeOpponent opp) = Nat.min 20 (String.length opp)
  /\ forall i c, (i < 20)%nat -> String.get i opp = Some c ->
       String.get i (sanitizeOpponent opp) = Some (if isAlnum c then c else "_"%char).
Proof.
  unfold sanitizeOpponent. split.
  - by rewrite length_slice0, length_mapChars.
  - intros i c Hi Hc. by rewrite get_slice0, get_mapChars, Hc.
Qed.

End Filename.

(** C8, as the code has it. For a game whose stored date is a valid
    instant, the export file name is GameMoments_<date>_<name>.<ext>, where
    <date> is the first ten characters of the stored ISO date, spelling
    YYYY-MM-DD, and <name> is the opponent name cut to 20 characters with
    every character that is not a letter or a digit replaced by an
    underscore (replaced, not removed). *)
Theorem buildFilename_date_and_name (s : Session) (g : Game) (t : Z) (ext : string) :
  currentGame s = Some g -> JSDate.parse (date g) = Some t ->
  let name := sanitizeOpponent (opponent g) in
  buildFilename ext s =
    Some ("GameMoments_" +:+ JS.slice0 10 (date g) +:+ "_" +:+ name +:+ "." +:+ ext)
  /\ (exists y m d, JSDate.civilFromDays (JSDate.Day t) = (y, m, d)
        /\ JS.slice0 10 (date g) = isoDate y m d)
  /\ String.length name = Nat.min 20 (String.length (opponent g))
  /\ (forall i c, (i < 20)%nat -> String.get i (opponent g) = Some c ->
        String.get i name = Some (if isAlnum c then c else "_"%char)).
Proof.
  intros Hg Ht name.
  destruct (parse_date_portion (date g) t Ht) as (Hslice & y & m & d & Hciv & Hiso & _).
  split.
  { unfold buildFilename. rewrite Hg. simpl. rewrite Ht. simpl. by rewrite Hslice. }
  split; [by exists y, m, d |].
  apply sanitizeOpponent_chars.
Qed.

Lemma buildFilename_date_and_name_witness :
  currentGame liveSession = Some liveGame
  /\ JSDate.parse (date liveGame) = Some 1714566896789
  /\ buildFilename "csv" liveSession =
       Some ("GameMoments_" +:+ JS.slice0 10 (date liveGame) +:+ "_"
             +:+ sanitizeOpponent (opponent liveGame) +:+ "." +:+ "csv").
Proof.
  assert (Hg : currentGame liveSession = Some liveGame) by (vm_compute; reflexivity).
  assert (Ht : JSDate.parse (date liveGame) = Some 1714566896789)
    by (vm_compute; reflexivity).
  split; [exact Hg |]. split; [exact Ht |].
  exact (proj1 (buildFilename_date_and_name liveSession liveGame 1714566896789 "csv"
                  Hg Ht)).
Defined.

Lemma occurs_unfold name fname :
  occurs name fname =
  JS.startsWith fname name
  || match fname with String _ r => occurs name r | EmptyString => false end.
Proof. by destruct fname. Qed.

Lemma embeds_occurs name fname : embeds name fname -> occurs name fname = true.
Proof.
  intros (pre & post & ->). induction pre as [| c pre IH].
  - rewrite app_nil_l, occurs_unfold. apply orb_true_iff. left.
    apply startsWith_prefix. by exists post.
  - rewrite app_cons, occurs_unfold. apply orb_true_iff. by right.
Qed.

(** The file name does not carry the stripped name: for "FC Riverside" it
    is GameMoments_2024-05-01_FC_Riverside.csv, in which FCRiverside does
    not occur. *)
Lemma buildFilename_not_stripped :
  ~ (forall (s : Session) (g : Game) (t : Z) (ext : string),
       currentGame s = Some g -> JSDate.parse (date g) = Some t ->
       exists fname, buildFilename ext s = Some fname /\ describedFilename g fname).
Proof.
  intros H.
  destruct (H liveSession liveGame 1714566896789 "csv") as (fname & Hf & _ & Hname).
  - vm_compute. reflexivity.
  - vm_compute. reflexivity.
  - assert (Hb : buildFilename "csv" liveSession =
                 Some "GameMoments_2024-05-01_FC_Riverside.csv")
      by (vm_compute; reflexivity).
    rewrite Hb in Hf. injection Hf as <-.
    apply embeds_occurs in Hname. vm_compute in Hname. discriminate Hname.
Qed.

(** ** Invariants of reachable sessions *)

Section Invariants.

Lemma Invariant_core s s' : core s' = core s -> Invariant s -> Invariant s'.
Proof.
  intros Hc [? ? ? ? ?]. destruct s, s'. unfold core in Hc. simpl in *.
  simplify_eq. by constructor.
Qed.

Lemma dbGetAll_games_lookup st g :
  g ∈ dbGetAll STORE_GAMES st <-> exists k, games st !! k = Some g.
Proof.
  simpl. rewrite list_elem_of_fmap. split.
  - intros [[k g'] [-> Hin]]. exists k. by apply elem_of_map_to_list in Hin.
  - intros [k Hk]. exists (k, g). split; [done |]. by apply elem_of_map_to_list.
Qed.

Lemma dbGetAll_events_lookup st e :
  e ∈ dbGetAll STORE_EVENTS st <-> exists k, events st !! k = Some e.
Proof.
  simpl. rewrite list_elem_of_fmap. split.
  - intros [[k e'] [-> Hin]]. exists k. by apply elem_of_map_to_list in Hin.
  - intros [k Hk]. exists (k, e). split; [done |]. by apply elem_of_map_to_list.
Qed.

Lemma stored_events_wf st gameId :
  map_Forall (fun _ e => wfEvent e) (events st) ->
  Forall wfEvent (dbGetEventsByGame gameId st).
Proof.
  intros Hst. apply Forall_forall. intros e He.
  unfold dbGetEventsByGame in He. apply list_elem_of_In, filter_In in He as [He _].
  apply list_elem_of_In, dbGetAll_events_lookup in He as [k Hk].
  by apply (Hst k).
Qed.

Lemma wfEvent_adjustEvent a1 a2 e : wfEvent e -> wfEvent (adjustEvent a1 a2 e).
Proof. intros [Hh Ht]. split; simpl; [done | lia]. Qed.

Lemma persistEvents_wf fault (L : list Event) : forall st,
  Forall wfEvent L ->
  map_Forall (fun _ e => wfEvent e) (events st) ->
  map_Forall (fun _ e => wfEvent e) (events (persistEvents fault L st)).
Proof.
  unfold persistEvents. induction L as [| e L IH]; intros st HL Hst; simpl; [done |].
  apply Forall_cons in HL as [He HL]. apply IH; [done |].
  destruct (fault (event_id e)); [done |]. simpl. by apply map_Forall_insert_2.
Qed.

Lemma Forall_removelast {A} (P : A -> Prop) (l : list A) :
  Forall P l -> Forall P (removelast l).
Proof.
  induction 1 as [| x l Hx Hl IH]; simpl; [constructor |].
  destruct l; [constructor | by constructor].
Qed.

Lemma stopClock_eq s : stopClock s = setClockInterval false s.
Proof. destruct s as [? ? ? ? ? [] ? ?]; reflexivity. Qed.

Lemma Invariant_perform a s : clockInRange a -> Invariant s -> Invariant (perform a s).
Proof.
  intros Ha Hinv.
  destruct a as [opp lg | now stamp putOk | | code now rnd stamp putOk | delOk | | |
                 | confirmed | h t ty | a1 a2 | fault | | gameId]; simpl perform.
  - by apply (Invariant_core s).
  - (* startGame *)
    destruct Hinv as [? ? ? ? Hgames]. unfold startGame, startClock.
    destruct putOk; simpl negb; cbv iota.
    + rewrite updateScoreboard_eq, stopClock_eq.
      constructor; simpl; try done; [by left | ].
      apply map_Forall_insert_2; [| done]. simpl.
      rewrite parse_toISOString by exact Ha. by eexists.
    + by constructor.
  - (* tick *)
    destruct Hinv as [? ? ? ? ?]. unfold tick.
    destruct (clockInterval s); constructor; simpl; try done. lia.
  - (* logEvent *)
    destruct (currentGame s) as [g |] eqn:Hg;
      [| rewrite logEvent_not_live by (by left); done].
    destruct (gameActive s) eqn:Hlive;
      [| rewrite logEvent_not_live by (by right); done].
    destruct (logEvent_live s g code now rnd stamp putOk Hg Hlive)
      as (Hev & Hdb & _ & Hh & Hc & _).
    destruct Hinv as [? ? ? ? ?].
    assert (Hwf : wfEvent (mkEvent ("ev_" +:+ pretty now +:+ "_" +:+ rnd) (game_id g)
                     (currentHalf s) (clockSeconds s) code
                     (JSDate.toISOString stamp))) by (by split).
    constructor; rewrite ?Hev, ?Hdb, ?Hh, ?Hc; try done.
    + apply Forall_app. split; [done |]. by constructor.
    + destruct putOk; [| done]. simpl. by apply map_Forall_insert_2.
    + by destruct putOk.
  - (* undoLastEvent *)
    destruct Hinv as [? ? Hev ? ?]. unfold undoLastEvent, JS.pop.
    destruct (last (currentEvents s)); [| by constructor].
    destruct delOk; simpl negb; cbv iota; [rewrite updateScoreboard_eq |];
      constructor; simpl; try done; try (by apply Forall_removelast).
    by apply map_Forall_delete.
  - (* startHalf2 *)
    destruct Hinv as [? ? ? ? ?]. unfold startHalf2, startClock.
    rewrite !stopClock_eq. constructor; simpl; try done; auto.
  - (* endGame *)
    destruct Hinv as [? ? ? ? ?]. unfold endGame. rewrite stopClock_eq.
    eapply Invariant_core.
    { unfold showScreen. by rewrite core_onDom, core_openReviewScreen, core_onDom. }
    by constructor.
  - (* resumeLogging *)
    unfold resumeLogging. rewrite updateScoreboard_eq. simpl.
    destruct Hinv as [? ? ? ? ?].
    destruct (negb (clockInterval s) && gameActive s); [| by constructor].
    unfold startClock. rewrite stopClock_eq. by constructor.
  - (* backToSetup *)
    destruct Hinv as [? ? ? ? ?]. unfold backToSetup. rewrite stopClock_eq.
    destruct (gameActive s), confirmed; by constructor.
  - by apply (Invariant_core s).
  - by apply (Invariant_core s).
  - (* applyTimeAdjust *)
    pose proof (applyTimeAdjust_result fault s) as Hres. cbv zeta in Hres.
    assert (Hrest : currentHalf (applyTimeAdjust fault s) = currentHalf s
                    /\ clockSeconds (applyTimeAdjust fault s) = clockSeconds s).
    { unfold applyTimeAdjust.
      destruct (_ && _); [done |]. simpl. by destruct (existsb _ _). }
    set (a1 := JS.orZero (JS.parseInt10 (adjust_h1 (dom s)))) in *.
    set (a2 := JS.orZero (JS.parseInt10 (adjust_h2 (dom s)))) in *.
    destruct Hres as [Hev Hdb]. destruct Hrest as [Hh Hc].
    destruct Hinv as [? ? Hwf Hst ?].
    assert (Hadj : Forall wfEvent (adjustedList a1 a2 (currentEvents s))).
    { unfold adjustedList. destruct ((a1 =? 0) && (a2 =? 0)); [done |].
      apply List.Forall_forall. intros e' [e [<- He]]%in_map_iff.
      apply wfEvent_adjustEvent.
      by apply (proj1 (List.Forall_forall _ _) Hwf). }
    constructor; rewrite ?Hev, ?Hdb, ?Hh, ?Hc; try done.
    + destruct ((a1 =? 0) && (a2 =? 0)); [done |]. by apply persistEvents_wf.
    + destruct ((a1 =? 0) && (a2 =? 0)); [done |]. by rewrite persistEvents_games.
  - (* viewSavedGames *)
    apply (Invariant_core s); [| done]. unfold viewSavedGames.
    by destruct (JS.sort _ _).
  - (* loadSavedGame *)
    destruct Hinv as [? ? ? Hst ?]. unfold loadSavedGame.
    destruct (find _ _) as [g |]; [| by constructor].
    change (currentGame (setCurrentGame (Some g) s)) with (Some g). cbv iota.
    eapply Invariant_core.
    { unfold showScreen. by rewrite core_onDom, core_openReviewScreen, core_onDom. }
    constructor; simpl; try done.
    rewrite sort_Permutation. by apply stored_events_wf.
Qed.

Lemma Invariant_fresh : Invariant freshSession.
Proof.
  constructor; simpl; try done; auto; apply map_Forall_empty.
Qed.

(** Every session the application can get into keeps its events within
    halves 1 and 2 with non-negative times, in memory and in the store, and
    holds only games whose date reads back. *)
Lemma Reachable_Invariant s : Reachable s -> Invariant s.
Proof.
  induction 1 as [| a s Hs IH Ha]; [apply Invariant_fresh | by apply Invariant_perform].
Qed.

Lemma Reachable_dates_parse s :
  Reachable s ->
  Forall (fun g => is_Some (JSDate.parse (date g))) (dbGetAll STORE_GAMES (db s)).
Proof.
  intros [_ _ _ _ Hg]%Reachable_Invariant. apply Forall_forall.
  intros g [k Hk]%dbGetAll_games_lookup. by apply (Hg k).
Qed.

End Invariants.

(** * Further properties *)

(** ** The clock text *)

Section ClockText.

Lemma checkPad2_all : checkFrom checkPad2 100 0 = true.
Proof. vm_compute. reflexivity. Qed.

Lemma padStart0_pretty n :
  0 <= n < 100 -> JS.padStart0 2 (pretty n) = JSDate.digits 2 n "".
Proof.
  intros H. apply String.eqb_eq.
  apply (checkFrom_spec checkPad2 100 0 checkPad2_all). lia.
Qed.

Lemma formatTime_clockText t :
  0 <= t < 6000 -> formatTime t = clockText (t / 60) (t mod 60).
Proof.
  intros Ht. unfold formatTime, clockText.
  rewrite Z.max_r by lia.
  rewrite !padStart0_pretty by (Z.to_euclidean_division_equations; lia).
  reflexivity.
Qed.

Lemma String_tail c (a b : string) : String c a = String c b -> a = b.
Proof. by intros [= ->]. Qed.

Lemma clockText_inj m1 s1 m2 s2 :
  0 <= m1 < 100 -> 0 <= s1 < 100 -> 0 <= m2 < 100 -> 0 <= s2 < 100 ->
  clockText m1 s1 = clockText m2 s2 -> m1 = m2 /\ s1 = s2.
Proof.
  intros Hm1 Hs1 Hm2 Hs2 Heq. unfold clockText in Heq.
  set (R1 := String ":"%char (JSDate.digits 2 s1 "")) in *.
  set (R2 := String ":"%char (JSDate.digits 2 s2 "")) in *.
  assert (H1 := readDigits_digits 2 0 m1 R1 ltac:(change (10 ^ Z.of_nat 2) with 100; lia)).
  assert (H2 := readDigits_digits 2 0 m2 R2 ltac:(change (10 ^ Z.of_nat 2) with 100; lia)).
  rewrite Heq, H2 in H1.
  assert (Hm : m1 = m2).
  { assert (E : 0 * 10 ^ Z.of_nat 2 + m2 = 0 * 10 ^ Z.of_nat 2 + m1) by congruence. lia. }
  assert (Hrest : R2 = R1) by congruence.
  split; [done |]. subst R1 R2. apply String_tail in Hrest.
  assert (H3 := readDigits_digits 2 0 s1 "" ltac:(change (10 ^ Z.of_nat 2) with 100; lia)).
  assert (H4 := readDigits_digits 2 0 s2 "" ltac:(change (10 ^ Z.of_nat 2) with 100; lia)).
  rewrite <- Hrest, H4 in H3.
  assert (E : 0 * 10 ^ Z.of_nat 2 + s2 = 0 * 10 ^ Z.of_nat 2 + s1) by congruence. lia.
Qed.

End ClockText.

(** X1. [formatTime] shows a time below 100 minutes as two digits of
    minutes, a colon and two digits of seconds (five characters, the seconds
    below 60), shows every time that is not positive as 00:00, and shows
    different times below 100 minutes as different texts. *)
Theorem formatTime_mm_ss (t u : Z) :
  (t <= 0 -> formatTime t = "00:00")
  /\ (0 <= t < 6000 ->
      formatTime t = clockText (t / 60) (t mod 60)
      /\ 0 <= t mod 60 < 60
      /\ String.length (formatTime t) = 5%nat)
  /\ (0 <= t < 6000 -> 0 <= u < 6000 -> formatTime t = formatTime u -> t = u).
Proof.
  split; [| split].
  - intros Ht. unfold formatTime. rewrite Z.max_l by lia. reflexivity.
  - intros Ht. rewrite formatTime_clockText by done.
    split; [done |]. split; [apply Z.mod_pos_bound; lia | reflexivity].
  - intros Ht Hu Heq. rewrite !formatTime_clockText in Heq by done.
    apply clockText_inj in Heq as [Hm Hs];
      Z.to_euclidean_division_equations; lia.
Qed.

Lemma formatTime_mm_ss_witness :
  formatTime (-7) = "00:00"
  /\ formatTime 125 = clockText 2 5
  /\ (formatTime 125 = formatTime 125 -> 125 = 125).
Proof.
  pose proof (formatTime_mm_ss 125 125) as (_ & H2 & H3).
  split; [apply (proj1 (formatTime_mm_ss (-7) 0)); lia |].
  split; [apply (proj1 (H2 ltac:(lia))) | apply H3; lia].
Defined.

(** ** HTML escaping *)

Section Escaping.

Lemma app_assoc_string (a b c : string) : (a +:+ b) +:+ c = a +:+ (b +:+ c).
Proof.
  induction a as [| x a IH]; [reflexivity |].
  rewrite !app_cons. by rewrite IH.
Qed.

Lemma app_nil_r_string (a : string) : a +:+ "" = a.
Proof. induction a as [| x a IH]; [reflexivity |]. rewrite app_cons. by rewrite IH. Qed.

Lemma replaceChar_app c by_ (a b : string) :
  replaceChar c by_ (a +:+ b) = replaceChar c by_ a +:+ replaceChar c by_ b.
Proof.
  induction a as [| x a IH]; [reflexivity |].
  rewrite app_cons. simpl. destruct (Ascii.eqb x c).
  - by rewrite IH, app_assoc_string.
  - by rewrite IH, app_cons.
Qed.

Lemma replaceChar_cons c by_ x r :
  replaceChar c by_ (String x r) =
  (if Ascii.eqb x c then by_ else String x "") +:+ replaceChar c by_ r.
Proof. simpl. by destruct (Ascii.eqb x c). Qed.

(** The five replacements in a row act as one pass over the characters. *)
Lemma esc_cons x r : esc (Some (String x r)) = escChar x +:+ esc (Some r).
Proof.
  unfold esc. simpl default.
  rewrite (replaceChar_cons "&"%char). rewrite !replaceChar_app.
  f_equal. unfold escChar.
  destruct (Ascii.eqb_spec x "&"%char) as [-> | ?]; [reflexivity |].
  rewrite (replaceChar_cons "<"%char).
  destruct (Ascii.eqb_spec x "<"%char) as [-> | ?]; [reflexivity |].
  simpl replaceChar at 4. rewrite app_nil_r_string.
  rewrite (replaceChar_cons ">"%char).
  destruct (Ascii.eqb_spec x ">"%char) as [-> | ?]; [reflexivity |].
  simpl replaceChar at 3. rewrite app_nil_r_string.
  rewrite (replaceChar_cons dquote).
  destruct (Ascii.eqb_spec x dquote) as [-> | ?]; [reflexivity |].
  simpl replaceChar at 2. rewrite app_nil_r_string.
  rewrite (replaceChar_cons "'"%char).
  destruct (Ascii.eqb_spec x "'"%char) as [-> | ?]; [reflexivity |].
  reflexivity.
Qed.

Lemma allChars_app p (a b : string) :
  allChars p (a +:+ b) = allChars p a && allChars p b.
Proof.
  induction a as [| x a IH]; [reflexivity |].
  rewrite app_cons. simpl. rewrite IH. by rewrite andb_assoc.
Qed.

Lemma escChar_no_markup x : allChars (fun c => negb (isMarkup c)) (escChar x) = true.
Proof.
  unfold escChar.
  destruct (Ascii.eqb_spec x "&"%char); [reflexivity |].
  destruct (Ascii.eqb x "<"%char) eqn:E1; [reflexivity |].
  destruct (Ascii.eqb x ">"%char) eqn:E2; [reflexivity |].
  destruct (Ascii.eqb x dquote) eqn:E3; [reflexivity |].
  destruct (Ascii.eqb x "'"%char) eqn:E4; [reflexivity |].
  simpl. unfold isMarkup. by rewrite E1, E2, E3, E4.
Qed.

Lemma unesc_escChar x rest : unesc (escChar x +:+ rest) = String x (unesc rest).
Proof.
  unfold escChar.
  destruct (Ascii.eqb_spec x "&"%char) as [-> | Hamp]; [reflexivity |].
  destruct (Ascii.eqb_spec x "<"%char) as [-> | ?]; [reflexivity |].
  destruct (Ascii.eqb_spec x ">"%char) as [-> | ?]; [reflexivity |].
  destruct (Ascii.eqb_spec x dquote) as [-> | ?]; [reflexivity |].
  destruct (Ascii.eqb_spec x "'"%char) as [-> | ?]; [reflexivity |].
  rewrite app_cons, app_nil_l. simpl.
  apply Ascii.eqb_neq in Hamp. by rewrite Hamp.
Qed.

Lemma escChar_plain x : isSpecial x = false -> escChar x = String x "".
Proof.
  unfold isSpecial, isMarkup, escChar. intros H.
  repeat (apply orb_false_iff in H as [H ?]).
  destruct (Ascii.eqb x "&"%char), (Ascii.eqb x "<"%char), (Ascii.eqb x ">"%char),
    (Ascii.eqb x dquote), (Ascii.eqb x "'"%char); done.
Qed.

End Escaping.

(** X2. Text that went through [esc] holds none of the characters
    [<], [>], the double quote and the single quote, so it cannot open a tag
    or close an attribute; reading the five entities back gives the original
    text, so nothing is lost or merged; text without any of the five special
    characters is left as it is, and [null] becomes the empty text. *)
Theorem esc_safe_and_lossless (s : string) :
  allChars (fun c => negb (isMarkup c)) (esc (Some s)) = true
  /\ unesc (esc (Some s)) = s
  /\ (allChars (fun c => negb (isSpecial c)) s = true -> esc (Some s) = s)
  /\ esc None = "".
Proof.
  split; [| split; [| split; [| reflexivity]]].
  - induction s as [| x r IH]; [reflexivity |].
    by rewrite esc_cons, allChars_app, escChar_no_markup, IH.
  - induction s as [| x r IH]; [reflexivity |].
    by rewrite esc_cons, unesc_escChar, IH.
  - induction s as [| x r IH]; [reflexivity |].
    simpl. intros [Hx Hr]%andb_true_iff. apply negb_true_iff in Hx.
    by rewrite esc_cons, escChar_plain, IH.
Qed.

Lemma esc_safe_and_lossless_witness :
  esc (Some "Rovers FC") = "Rovers FC"
  /\ esc (Some "<b>A&B</b>") = "&lt;b&gt;A&amp;B&lt;/b&gt;".
Proof.
  split.
  - apply (proj1 (proj2 (proj2 (esc_safe_and_lossless "Rovers FC")))). reflexivity.
  - reflexivity.
Defined.

(** ** Export *)

Section Csv.

Lemma readCSV_cell_body v : forall cell row rows tail,
  readCSV InCell cell row rows
    (replaceChar dquote (String dquote (String dquote "")) v +:+ tail)
  = readCSV InCell (cell +:+ v) row rows tail.
Proof.
  induction v as [| c v IH]; intros cell row rows tail.
  - by rewrite app_nil_l, app_nil_r_string.
  - rewrite replaceChar_cons.
    destruct (Ascii.eqb_spec c dquote) as [-> | Hc].
    + rewrite app_assoc_string, !app_cons, app_nil_l. simpl readCSV.
      rewrite IH. f_equal. by rewrite app_assoc_string.
    + rewrite app_assoc_string, app_cons, app_nil_l. simpl readCSV.
      apply Ascii.eqb_neq in Hc. rewrite Hc.
      rewrite IH. f_equal. by rewrite app_assoc_string.
Qed.

Lemma readCSV_cell v row rows tail :
  readCSV CellStart "" row rows (csvQuote v +:+ tail)
  = readCSV AfterQuote v row rows tail.
Proof.
  unfold csvQuote. rewrite app_cons. simpl readCSV.
  rewrite app_assoc_string, readCSV_cell_body, app_nil_l.
  by rewrite app_cons, app_nil_l.
Qed.

Lemma join_cons2 sep x y r : join sep (x :: y :: r) = x +:+ sep +:+ join sep (y :: r).
Proof. reflexivity. Qed.

Lemma readCSV_comma cell row rows r :
  readCSV AfterQuote cell row rows ("," +:+ r) = readCSV CellStart "" (row ++ [cell]) rows r.
Proof. reflexivity. Qed.

Lemma readCSV_crlf cell row rows r :
  readCSV AfterQuote cell row rows (CRLF +:+ r)
  = readCSV CellStart "" [] (rows ++ [row ++ [cell]]) r.
Proof. reflexivity. Qed.

Lemma readCSV_end cell row rows :
  readCSV AfterQuote cell row rows "" = Some (rows ++ [row ++ [cell]]).
Proof. reflexivity. Qed.

Lemma last_cons_default {A} (w v : A) cells :
  List.last (w :: cells) v = List.last cells w.
Proof.
  revert w v. induction cells as [| x cells IH]; intros w v; [reflexivity |].
  change (List.last (w :: x :: cells) v) with (List.last (x :: cells) v).
  by rewrite !IH.
Qed.

(** A row of cells is read up to the end of its last cell. *)
Lemma readCSV_row cells : forall v row rows tail,
  readCSV CellStart "" row rows (join "," (map csvQuote (v :: cells)) +:+ tail)
  = readCSV AfterQuote (List.last cells v) (row ++ removelast (v :: cells)) rows tail.
Proof.
  induction cells as [| w cells IH]; intros v row rows tail.
  - simpl join. rewrite readCSV_cell. simpl. by rewrite app_nil_r.
  - change (map csvQuote (v :: w :: cells))
      with (csvQuote v :: map csvQuote (w :: cells)).
    change (map csvQuote (w :: cells)) with (csvQuote w :: map csvQuote cells) at 1.
    rewrite join_cons2.
    change (csvQuote w :: map csvQuote cells) with (map csvQuote (w :: cells)).
    rewrite !app_assoc_string, readCSV_cell, readCSV_comma, IH.
    change (removelast (v :: w :: cells)) with (v :: removelast (w :: cells)).
    rewrite last_cons_default.
    f_equal. by rewrite <- app_assoc.
Qed.

Lemma removelast_last_cons {A} (v : A) cells :
  removelast (v :: cells) ++ [List.last cells v] = v :: cells.
Proof.
  revert v. induction cells as [| w cells IH]; intros v; [reflexivity |].
  change (removelast (v :: w :: cells)) with (v :: removelast (w :: cells)).
  rewrite last_cons_default.
  rewrite <- app_comm_cons. f_equal. apply IH.
Qed.

(** A table of non-empty rows is read back as it was written. *)
Lemma readCSV_rows table : forall row acc,
  row <> [] -> Forall (fun r => r <> []) table ->
  readCSV CellStart "" [] acc (renderCSV (row :: table)) = Some (acc ++ row :: table).
Proof.
  unfold renderCSV. induction table as [| row2 table IH]; intros row acc Hrow Hall.
  - destruct row as [| v cells]; [done |].
    change (map _ [v :: cells]) with [join "," (map csvQuote (v :: cells))].
    change (join CRLF [?x]) with x.
    rewrite <- (app_nil_r_string (join _ _)).
    rewrite readCSV_row, readCSV_end.
    change ([] ++ removelast (v :: cells)) with (removelast (v :: cells)).
    by rewrite removelast_last_cons.
  - apply Forall_cons in Hall as [Hrow2 Hall].
    destruct row as [| v cells]; [done |].
    change (map _ ((v :: cells) :: row2 :: table))
      with (join "," (map csvQuote (v :: cells))
            :: join "," (map csvQuote row2)
            :: map (fun row => join "," (map csvQuote row)) table).
    rewrite join_cons2, readCSV_row, readCSV_crlf.
    change ([] ++ removelast (v :: cells)) with (removelast (v :: cells)).
    rewrite removelast_last_cons.
    change (join "," (map csvQuote row2)
            :: map (fun row => join "," (map csvQuote row)) table)
      with (map (fun row => join "," (map csvQuote row)) (row2 :: table)).
    rewrite IH by done. by rewrite <- app_assoc.
Qed.

Lemma core_showToast m s : core (showToast m s) = core s.
Proof. reflexivity. Qed.

End Csv.

Section Exports.

Lemma buildFilename_is_Some ext s :
  is_Some (buildFilename ext s) <->
  exists g t, currentGame s = Some g /\ JSDate.parse (date g) = Some t.
Proof.
  unfold buildFilename, mbind, option_bind. split.
  - intros [fn H]. destruct (currentGame s) as [g |]; [| done].
    destruct (JSDate.parse (date g)) as [t |] eqn:Ht; [| done]. by exists g, t.
  - intros (g & t & Hg & Ht). rewrite Hg, Ht. eauto.
Qed.

Lemma exportCSV_cases locale s :
  match getFilteredEvents s with
  | [] => exportCSV locale s = (showToast "No events to export" s, NothingToExport)
  | _ :: _ =>
      match currentGame s, buildFilename "csv" s with
      | Some g, Some fn =>
          exportCSV locale s =
          (s, Downloaded (mkDownload
                (renderCSV (csvHeader :: map (csvRow (locale (date g)) g)
                                           (getFilteredEvents s)))
                fn "text/csv;charset=utf-8;"))
      | Some g, None => exportCSV locale s = (s, DateNotModelled)
      | None, _ => exportCSV locale s = (s, Thrown)
      end
  end.
Proof.
  unfold exportCSV. destruct (getFilteredEvents s); [done |].
  destruct (currentGame s); [| done]. by destruct (buildFilename "csv" s).
Qed.

Lemma exportText_cases locale s :
  match getFilteredEvents s with
  | [] => exportText locale s = (showToast "No events to export" s, NothingToExport)
  | _ :: _ =>
      match currentGame s, buildFilename "txt" s with
      | Some g, Some fn => exists d, exportText locale s = (s, Downloaded d)
                                     /\ dl_filename d = fn
      | Some g, None => exportText locale s = (s, DateNotModelled)
      | None, _ => exportText locale s = (s, Thrown)
      end
  end.
Proof.
  unfold exportText. destruct (getFilteredEvents s); [done |].
  destruct (currentGame s); [| done]. destruct (buildFilename "txt" s); [| done].
  eexists. split; reflexivity.
Qed.

Lemma csvRows_shape date_ g (view : list Event) :
  Forall (fun r => r <> []) (map (csvRow date_ g) view)
  /\ Forall (fun r => length r = 7%nat) (map (csvRow date_ g) view).
Proof.
  induction view as [| e view [IH1 IH2]]; [by split |].
  split; constructor; done.
Qed.

End Exports.

(** X3. The CSV file that [exportCSV] hands to the download reads back,
    cell by cell, as the header row followed by one row of seven cells per
    event of the filtered view, in the order of the view, whatever quotes,
    commas or line breaks the opponent and logger names contain; its name is
    the one [buildFilename] gives for [csv]. *)
Theorem exportCSV_reads_back (locale : string -> string) (s : Session) (d : Download) :
  (exportCSV locale s).2 = Downloaded d ->
  exists g, currentGame s = Some g
    /\ readCSV CellStart "" [] [] (dl_content d)
       = Some (csvHeader :: map (csvRow (locale (date g)) g) (getFilteredEvents s))
    /\ Forall (fun row => length row = 7%nat)
         (csvHeader :: map (csvRow (locale (date g)) g) (getFilteredEvents s))
    /\ buildFilename "csv" s = Some (dl_filename d)
    /\ dl_mimeType d = "text/csv;charset=utf-8;".
Proof.
  intros Hd. pose proof (exportCSV_cases locale s) as Hc.
  destruct (getFilteredEvents s) as [| e view] eqn:Hview.
  { rewrite Hc in Hd. done. }
  destruct (currentGame s) as [g |]; [| rewrite Hc in Hd; done].
  destruct (buildFilename "csv" s) as [fn |]; [| rewrite Hc in Hd; done].
  rewrite Hc in Hd. injection Hd as <-. exists g.
  cbn [dl_content dl_filename dl_mimeType].
  split; [done |]. split.
  - apply (readCSV_rows _ csvHeader []); [done |].
    apply (proj1 (csvRows_shape (locale (date g)) g (e :: view))).
  - split; [| done]. constructor; [reflexivity |].
    apply (proj2 (csvRows_shape (locale (date g)) g (e :: view))).
Qed.

Lemma exportCSV_reads_back_witness :
  exists d, (exportCSV (fun _ => "5/1/2024") adjustSession).2 = Downloaded d
    /\ buildFilename "csv" adjustSession = Some (dl_filename d).
Proof.
  eexists. split; [vm_compute; reflexivity |].
  pose proof (exportCSV_reads_back (fun _ => "5/1/2024") adjustSession _
                ltac:(vm_compute; reflexivity)) as (g & _ & _ & _ & Hfn & _).
  exact Hfn.
Defined.

(** X4. Both exports work on the filtered view and never touch the
    session: with an empty view they only show the notice that there is
    nothing to export and produce no file; with events in view they leave
    the session exactly as it is, end in an exception when there is no
    current game, and produce a file, named by [buildFilename] with their
    extension, when there is a current game whose stored date is in the
    format that [startGame] writes. (For a date in another format nothing
    is stated.) *)
Theorem export_outcomes (locale : string -> string) (s : Session) :
  (getFilteredEvents s = [] ->
     exportCSV locale s = (showToast "No events to export" s, NothingToExport)
     /\ exportText locale s = (showToast "No events to export" s, NothingToExport))
  /\ (getFilteredEvents s <> [] ->
     (exportCSV locale s).1 = s /\ (exportText locale s).1 = s
     /\ (currentGame s = None ->
         (exportCSV locale s).2 = Thrown /\ (exportText locale s).2 = Thrown)
     /\ (forall g t, currentGame s = Some g -> JSDate.parse (date g) = Some t ->
         exists d d', (exportCSV locale s).2 = Downloaded d
                      /\ (exportText locale s).2 = Downloaded d'
                      /\ buildFilename "csv" s = Some (dl_filename d)
                      /\ buildFilename "txt" s = Some (dl_filename d')))
  /\ core (exportCSV locale s).1 = core s
  /\ core (exportText locale s).1 = core s.
Proof.
  pose proof (exportCSV_cases locale s) as Hc.
  pose proof (exportText_cases locale s) as Ht.
  destruct (getFilteredEvents s) as [| e view].
  { rewrite Hc, Ht. repeat split; done. }
  split; [done |].
  assert (Hfst : (exportCSV locale s).1 = s /\ (exportText locale s).1 = s).
  { destruct (currentGame s) as [g |].
    - split.
      + destruct (buildFilename "csv" s); by rewrite Hc.
      + destruct (buildFilename "txt" s); [by destruct Ht as (d & -> & _) | by rewrite Ht].
    - by rewrite Hc, Ht. }
  destruct Hfst as [Hc1 Ht1].
  split; [| by rewrite Hc1, Ht1].
  intros _. split; [exact Hc1 |]. split; [exact Ht1 |]. split.
  - intros Hnone. rewrite Hnone in Hc, Ht. by rewrite Hc, Ht.
  - intros g t Hg Hparse.
    assert (Hfn : forall ext, is_Some (buildFilename ext s)).
    { intros ext. apply buildFilename_is_Some. by exists g, t. }
    destruct (Hfn "csv") as [fc Hfc]. destruct (Hfn "txt") as [fx Hfx].
    pose proof Hfc as Hfc'. pose proof Hfx as Hfx'.
    rewrite Hg in Hc, Ht. rewrite Hfc' in Hc. rewrite Hfx' in Ht.
    destruct Ht as (d' & Hd' & Hname).
    eexists. exists d'. rewrite Hc, Hd'. simpl.
    split; [reflexivity |]. split; [reflexivity |].
    split; [exact Hfc | by rewrite Hname].
Qed.

Lemma export_outcomes_witness :
  exportCSV (fun _ => "5/1/2024") freshSession
  = (showToast "No events to export" freshSession, NothingToExport)
  /\ (exportText (fun _ => "5/1/2024") adjustSession).1 = adjustSession.
Proof.
  split.
  - apply (proj1 (export_outcomes (fun _ => "5/1/2024") freshSession)). reflexivity.
  - apply (proj2 (export_outcomes (fun _ => "5/1/2024") adjustSession)).
    vm_compute. discriminate.
Defined.

(** ** Starting a game *)

Section StartGame.

Lemma startClock_eq s : startClock s = setClockInterval true s.
Proof. unfold startClock. rewrite stopClock_eq. by destruct s. Qed.

Lemma startGame_ok now stamp s :
  let g := mkGame ("game_" +:+ pretty now) (JSDate.toISOString stamp)
             (JS.orString (JS.trim (input_opponent (dom s))) "Unknown")
             (JS.orString (JS.trim (input_logger (dom s))) "Logger 1") in
  core (startGame now stamp true s)
  = (dbPut STORE_GAMES g (db s), Some g, [], 1, 0, true, true)
  /\ dom (startGame now stamp true s)
     = setScreen logging (setScore 0 0 (setHidden true true true (dom s))).
Proof.
  unfold startGame. simpl negb. cbv iota.
  rewrite startClock_eq, updateScoreboard_eq. split; reflexivity.
Qed.

Lemma orString_nonempty x d : d <> "" -> JS.orString x d <> "".
Proof. intros Hd. by destruct x. Qed.

End StartGame.

(** X5. A [startGame] whose write succeeds opens a live Half-1 session on a
    new game: the game is the current one and is in the games store under its
    id, its date reads back as the instant it was made at, its opponent and
    logger names are not empty, the event list is empty, the clock is at 0
    and running, the score shows 0 - 0 and the logging screen is up; the
    other saved games and all saved events are kept. *)
Theorem startGame_opens_live_session (now stamp : Z) (s : Session) :
  let s' := startGame now stamp true s in
  exists g, currentGame s' = Some g
    /\ game_id g = "game_" +:+ pretty now
    /\ games (db s') !! game_id g = Some g
    /\ (forall k, k <> game_id g -> games (db s') !! k = games (db s) !! k)
    /\ events (db s') = events (db s)
    /\ (fourDigitYear stamp -> JSDate.parse (date g) = Some stamp)
    /\ opponent g <> "" /\ logger_name g <> ""
    /\ currentEvents s' = [] /\ currentHalf s' = 1 /\ clockSeconds s' = 0
    /\ clockInterval s' = true /\ gameActive s' = true
    /\ (score_pfc (dom s'), score_opp (dom s')) = (0, 0)
    /\ screen (dom s') = logging.
Proof.
  intros s'. destruct (startGame_ok now stamp s) as [Hcore Hdom].
  fold s' in Hcore, Hdom. unfold core in Hcore.
  set (g := mkGame _ _ _ _) in Hcore.
  assert (Hdb : db s' = dbPut STORE_GAMES g (db s)) by congruence.
  assert (Hg : currentGame s' = Some g) by congruence.
  assert (Hev : currentEvents s' = []) by congruence.
  assert (Hh : currentHalf s' = 1) by congruence.
  assert (Hc : clockSeconds s' = 0) by congruence.
  assert (Hi : clockInterval s' = true) by congruence.
  assert (Ha : gameActive s' = true) by congruence.
  clearbody s'. exists g. rewrite Hdb, Hdom, Hg, Hev, Hh, Hc, Hi, Ha. simpl.
  repeat split; try done.
  - apply lookup_insert_eq.
  - intros k Hk. by apply lookup_insert_ne.
  - intros Hy. by apply parse_toISOString.
  - by apply orString_nonempty.
  - by apply orString_nonempty.
Qed.

Lemma startGame_opens_live_session_witness :
  fourDigitYear 1714566896789
  /\ exists g, currentGame (startGame 1714566896789 1714566896789 true freshSession) = Some g
       /\ JSDate.parse (date g) = Some 1714566896789.
Proof.
  assert (Hy : fourDigitYear 1714566896789) by (unfold fourDigitYear; lia).
  split; [exact Hy |].
  destruct (startGame_opens_live_session 1714566896789 1714566896789 freshSession)
    as (g & Hg & _ & _ & _ & _ & Hparse & _).
  exists g. split; [exact Hg | exact (Hparse Hy)].
Defined.

(** X6. A [startGame] whose write fails stops at the write: the store,
    the event list, the half, the clock, the live flag and the whole page are
    as before, so a session that was not live stays not live and logs
    nothing; only the current game has been replaced by a game that is not
    in the store unless a game with its id was already there. *)
Theorem startGame_write_failure (now stamp : Z) (s : Session) (eventCode : string)
    (now' : Z) (rnd : string) (stamp' : Z) (putOk : bool) :
  let s' := startGame now stamp false s in
  db s' = db s /\ dom s' = dom s
  /\ currentEvents s' = currentEvents s /\ currentHalf s' = currentHalf s
  /\ clockSeconds s' = clockSeconds s /\ clockInterval s' = clockInterval s
  /\ gameActive s' = gameActive s
  /\ (exists g, currentGame s' = Some g /\ game_id g = "game_" +:+ pretty now
        /\ games (db s') !! game_id g = games (db s) !! game_id g)
  /\ (gameActive s = false -> logEvent eventCode now' rnd stamp' putOk s' = s').
Proof.
  intros s'. subst s'. unfold startGame. simpl negb. cbv iota.
  repeat split; try done.
  - eexists. repeat split; reflexivity.
  - intros Hlive. apply logEvent_not_live. by right.
Qed.

Lemma startGame_write_failure_witness :
  gameActive freshSession = false
  /\ logEvent "GOAL_PFC" 5 "abcde" 6 true (startGame 1 2 false freshSession)
     = startGame 1 2 false freshSession.
Proof.
  split; [reflexivity |].
  apply (startGame_write_failure 1 2 freshSession "GOAL_PFC" 5 "abcde" 6 true).
  reflexivity.
Defined.

(** ** Clock and halves *)

Section Clock.

Lemma tick_running s :
  clockInterval s = true -> tick s = setClockSeconds (clockSeconds s + 1) s.
Proof. unfold tick. by intros ->. Qed.

Lemma ticks_running (n : nat) : forall s,
  clockInterval s = true ->
  core (Nat.iter n tick s)
  = (db s, currentGame s, currentEvents s, currentHalf s,
     clockSeconds s + Z.of_nat n, true, gameActive s)
  /\ dom (Nat.iter n tick s) = dom s.
Proof.
  induction n as [| n IH]; intros s Hrun.
  - simpl. unfold core. rewrite Hrun, Z.add_0_r. done.
  - destruct (IH s Hrun) as [Hcore Hdom]. rewrite Nat2Z.inj_succ. simpl Nat.iter.
    unfold core in Hcore. rewrite tick_running by congruence.
    unfold core. cbn [db currentGame currentEvents currentHalf clockSeconds
                      clockInterval gameActive dom setClockSeconds].
    split; [| done].
    set (t := Nat.iter n tick s) in *.
    assert (Hc : clockSeconds t = clockSeconds s + Z.of_nat n) by congruence.
    rewrite Hc, <- Z.add_1_r, Z.add_assoc.
    congruence.
Qed.

Lemma ticks_stopped (n : nat) s : clockInterval s = false -> Nat.iter n tick s = s.
Proof.
  intros Hstop. induction n as [| n IH]; [done |].
  simpl. rewrite IH. unfold tick. by rewrite Hstop.
Qed.

End Clock.

(** X7. The clock counts one second per tick while it runs and keeps its
    value while it is stopped: [n] ticks after [startClock] add [n] seconds
    and nothing else in the session moves; after [stopClock] any number of
    ticks leaves the session as it is, and a later [startClock] goes on from
    the value that was kept. *)
Theorem clock_counts_while_running (n m : nat) (s : Session) :
  clockSeconds (Nat.iter n tick (startClock s)) = clockSeconds s + Z.of_nat n
  /\ currentEvents (Nat.iter n tick (startClock s)) = currentEvents s
  /\ db (Nat.iter n tick (startClock s)) = db s
  /\ dom (Nat.iter n tick (startClock s)) = dom s
  /\ Nat.iter n tick (stopClock s) = stopClock s
  /\ clockSeconds (stopClock s) = clockSeconds s
  /\ clockSeconds
       (Nat.iter m tick (startClock (Nat.iter n tick (stopClock (Nat.iter m tick (startClock s))))))
     = clockSeconds s + 2 * Z.of_nat m.
Proof.
  assert (Hstart : forall k t, core (Nat.iter k tick (startClock t))
            = (db t, currentGame t, currentEvents t, currentHalf t,
               clockSeconds t + Z.of_nat k, true, gameActive t)
            /\ dom (Nat.iter k tick (startClock t)) = dom t).
  { intros k t. rewrite startClock_eq. apply (ticks_running k (setClockInterval true t)).
    reflexivity. }
  assert (Hstop : forall k t, Nat.iter k tick (stopClock t) = stopClock t).
  { intros k t. apply ticks_stopped. by rewrite stopClock_eq. }
  destruct (Hstart n s) as [Hc Hd]. unfold core in Hc.
  split; [congruence |]. split; [congruence |]. split; [congruence |].
  split; [done |]. split; [apply Hstop |].
  split; [by rewrite stopClock_eq |].
  rewrite Hstop.
  destruct (Hstart m (stopClock (Nat.iter m tick (startClock s)))) as [Hc2 _].
  destruct (Hstart m s) as [Hc1 _]. unfold core in Hc1, Hc2.
  replace (clockSeconds (Nat.iter m tick (startClock (stopClock (Nat.iter m tick (startClock s))))))
    with (clockSeconds (stopClock (Nat.iter m tick (startClock s))) + Z.of_nat m)
    by congruence.
  rewrite stopClock_eq. simpl.
  replace (clockSeconds (Nat.iter m tick (startClock s)))
    with (clockSeconds s + Z.of_nat m) by congruence.
  lia.
Qed.

(** X8. [startHalf2] puts the clock back to 0 and running, makes the half
    2, and leaves the events, the store, the game and the live flag as they
    are; in a live session an event tapped [k] ticks later is appended with
    half 2 and time [k], behind the Half-1 events, which keep their half and
    time. *)
Theorem startHalf2_restarts_clock (s : Session) (g : Game) (k : nat)
    (eventCode : string) (now : Z) (rnd : string) (stamp : Z) (putOk : bool) :
  currentGame s = Some g -> gameActive s = true ->
  let s2 := startHalf2 s in
  let s3 := logEvent eventCode now rnd stamp putOk (Nat.iter k tick s2) in
  currentHalf s2 = 2 /\ clockSeconds s2 = 0 /\ clockInterval s2 = true
  /\ currentEvents s2 = currentEvents s /\ db s2 = db s
  /\ currentGame s2 = currentGame s /\ gameActive s2 = gameActive s
  /\ exists e, currentEvents s3 = currentEvents s ++ [e]
       /\ half e = 2 /\ t_half_seconds e = Z.of_nat k /\ event_code e = eventCode
       /\ ev_game_id e = game_id g.
Proof.
  intros Hg Hlive s2 s3.
  assert (Hcore2 : core s2 = (db s, currentGame s, currentEvents s, 2, 0, true, gameActive s)).
  { subst s2. unfold startHalf2, showToast. rewrite core_onDom, startClock_eq, stopClock_eq.
    reflexivity. }
  unfold core in Hcore2.
  assert (Hrun : clockInterval s2 = true) by congruence.
  destruct (ticks_running k s2 Hrun) as [Hcore3 _]. unfold core in Hcore3.
  set (s2k := Nat.iter k tick s2) in *.
  assert (Hg3 : currentGame s2k = Some g) by congruence.
  assert (Hl3 : gameActive s2k = true) by congruence.
  destruct (logEvent_live s2k g eventCode now rnd stamp putOk Hg3 Hl3) as (Hev & _).
  fold s3 in Hev.
  repeat split; try congruence.
  eexists. split; [rewrite Hev; f_equal; congruence |]. simpl.
  repeat split; try congruence.
  replace (clockSeconds s2k) with (clockSeconds s2 + Z.of_nat k) by congruence.
  replace (clockSeconds s2) with 0 by congruence. lia.
Qed.

Lemma startHalf2_restarts_clock_witness :
  currentGame liveSession = Some liveGame /\ gameActive liveSession = true
  /\ currentHalf (startHalf2 liveSession) = 2
  /\ clockSeconds (startHalf2 liveSession) = 0.
Proof.
  assert (Hg : currentGame liveSession = Some liveGame) by (vm_compute; reflexivity).
  assert (Hlive : gameActive liveSession = true) by (vm_compute; reflexivity).
  split; [exact Hg |]. split; [exact Hlive |].
  pose proof (startHalf2_restarts_clock liveSession liveGame 7 "CK_PFC" 1 "abcde" 2 true
                Hg Hlive) as (H1 & H2 & _).
  split; [exact H1 | exact H2].
Defined.

(** ** Logging, undo and the footer *)

Section LogUndo.

Lemma undoLastEvent_nil delOk s :
  currentEvents s = [] -> undoLastEvent delOk s = showToast "Nothing to undo" s.
Proof. intros H. unfold undoLastEvent. by rewrite H. Qed.

Lemma undoLastEvent_snoc delOk s L e :
  currentEvents s = L ++ [e] ->
  undoLastEvent delOk s
  = if delOk
    then showToast "Event removed"
           (updateScoreboard
              (setDb (dbDelete STORE_EVENTS (event_id e) (db s)) (setCurrentEvents L s)))
    else setCurrentEvents L s.
Proof.
  intros H. unfold undoLastEvent. fold (JS.push L e) in H. rewrite H, pop_push.
  by destruct delOk.
Qed.

Lemma undoLastEvent_snoc_ok s L e :
  currentEvents s = L ++ [e] ->
  core (undoLastEvent true s)
  = (dbDelete STORE_EVENTS (event_id e) (db s), currentGame s, L, currentHalf s,
     clockSeconds s, clockInterval s, gameActive s)
  /\ (score_pfc (dom (undoLastEvent true s)), score_opp (dom (undoLastEvent true s)))
     = scoreboard L
  /\ toast (dom (undoLastEvent true s)) = Some "Event removed".
Proof.
  intros H. rewrite (undoLastEvent_snoc true s L e H).
  rewrite core_showToast, core_updateScoreboard, updateScoreboard_eq.
  split; [reflexivity |]. simpl. by destruct (scoreboard L).
Qed.

Lemma scoreboard_snoc L e :
  scoreboard (L ++ [e])
  = ((scoreboard L).1 + (goalStep (event_code e)).1,
     (scoreboard L).2 + (goalStep (event_code e)).2).
Proof.
  unfold scoreboard. rewrite fold_left_app. simpl fold_left.
  destruct (fold_left scoreStep L (0, 0)) as [p o].
  unfold scoreStep, goalStep. simpl fst. simpl snd.
  destruct (String.eqb_spec (event_code e) "GOAL_PFC") as [-> | _].
  - simpl. f_equal; lia.
  - destruct (String.eqb (event_code e) "GOAL_OPP"); simpl; f_equal; lia.
Qed.

Lemma logEvent_ok_dom s g eventCode now rnd stamp :
  currentGame s = Some g -> gameActive s = true ->
  let s' := logEvent eventCode now rnd stamp true s in
  (score_pfc (dom s'), score_opp (dom s')) = scoreboard (currentEvents s')
  /\ (currentHalf s = 1 -> btn_half2_hidden (dom s') = false)
  /\ (currentHalf s = 2 -> btn_end_game_hidden (dom s') = false).
Proof.
  intros Hg Hlive.
  destruct (logEvent_live s g eventCode now rnd stamp true Hg Hlive) as (Hev & _).
  cbv zeta in *. rewrite Hev. clear Hev.
  unfold logEvent. rewrite Hg, Hlive. simpl negb. cbv iota.
  rewrite updateScoreboard_eq. unfold JS.push.
  set (L := currentEvents s ++ _).
  simpl.
  destruct (currentHalf s =? 1) eqn:H1; simpl;
    destruct (currentHalf s =? 2) eqn:H2; simpl;
    (split; [by destruct (scoreboard L) |]);
    split; intros Hh; rewrite Hh in H1, H2; done.
Qed.

Lemma recentEvents_take s : recentEvents s = take 3 (reverse (currentEvents s)).
Proof. unfold recentEvents, sliceLast. by rewrite take_reverse. Qed.

End LogUndo.

(** X9. [undoLastEvent] on any session: the in-memory list loses exactly
    its last element (nothing, when it is empty); game, half, clock and live
    flag are never touched, nor is the games store. On an empty list only
    the notice "Nothing to undo" appears. Otherwise, when the delete request
    succeeds, the record with the last event's id leaves the events store
    and the score shown is the score of the shortened list; when it fails,
    store and page stay as they were although the list is already
    shortened. *)
Theorem undoLastEvent_removes_last (delOk : bool) (s : Session) :
  let s' := undoLastEvent delOk s in
  currentEvents s' = removelast (currentEvents s)
  /\ (currentGame s', currentHalf s', clockSeconds s', clockInterval s', gameActive s')
     = (currentGame s, currentHalf s, clockSeconds s, clockInterval s, gameActive s)
  /\ games (db s') = games (db s)
  /\ (currentEvents s = [] ->
        db s' = db s /\ toast (dom s') = Some "Nothing to undo"
        /\ (score_pfc (dom s'), score_opp (dom s')) = (score_pfc (dom s), score_opp (dom s)))
  /\ (forall e, last (currentEvents s) = Some e ->
        if delOk
        then events (db s') = delete (event_id e) (events (db s))
             /\ (score_pfc (dom s'), score_opp (dom s'))
                = scoreboard (removelast (currentEvents s))
             /\ toast (dom s') = Some "Event removed"
        else db s' = db s /\ dom s' = dom s).
Proof.
  intros s'. subst s'.
  destruct (last (currentEvents s)) as [e |] eqn:Hlast.
  - apply last_Some in Hlast as [L HL]. rewrite HL, removelast_last.
    destruct delOk.
    + destruct (undoLastEvent_snoc_ok s L e HL) as (Hcore & Hscore & Htoast).
      unfold core in Hcore.
      assert (Hdb : db (undoLastEvent true s) = dbDelete STORE_EVENTS (event_id e) (db s))
        by congruence.
      split; [congruence |]. split; [congruence |].
      split; [by rewrite Hdb |].
      split; [by intros Hnil; destruct L |].
      intros e' [= <-]. rewrite Hdb. done.
    + rewrite (undoLastEvent_snoc false s L e HL).
      split; [done |]. split; [done |]. split; [done |].
      split; [by intros Hnil; destruct L |].
      by intros e' [= <-].
  - apply last_None in Hlast. rewrite Hlast.
    rewrite (undoLastEvent_nil delOk s Hlast). done.
Qed.

Lemma undoLastEvent_removes_last_witness :
  db (undoLastEvent true freshSession) = db freshSession
  /\ toast (dom (undoLastEvent true freshSession)) = Some "Nothing to undo"
  /\ (score_pfc (dom (undoLastEvent true freshSession)),
      score_opp (dom (undoLastEvent true freshSession)))
     = (score_pfc (dom freshSession), score_opp (dom freshSession)).
Proof.
  exact (proj1 (proj2 (proj2 (proj2 (undoLastEvent_removes_last true freshSession))))
           eq_refl).
Defined.

(** X10. In a live session a tap whose write succeeds leaves the score
    shown equal to the score of the list that now holds the new event, which
    is the old score plus one for the side whose goal code was tapped and
    plus nothing for any other code; in Half 1 the Half-2 button is shown
    afterwards, in Half 2 the End-Game button. When the write fails the
    event is in the list all the same, but the page and the store are as
    before the tap. *)
Theorem logEvent_score_follows_list (s : Session) (g : Game) (eventCode : string)
    (now : Z) (rnd : string) (stamp : Z) :
  currentGame s = Some g -> gameActive s = true ->
  let s' := logEvent eventCode now rnd stamp true s in
  let s'' := logEvent eventCode now rnd stamp false s in
  (score_pfc (dom s'), score_opp (dom s')) = scoreboard (currentEvents s')
  /\ scoreboard (currentEvents s')
     = ((scoreboard (currentEvents s)).1 + (goalStep eventCode).1,
        (scoreboard (currentEvents s)).2 + (goalStep eventCode).2)
  /\ (currentHalf s = 1 -> btn_half2_hidden (dom s') = false)
  /\ (currentHalf s = 2 -> btn_end_game_hidden (dom s') = false)
  /\ currentEvents s'' = currentEvents s' /\ dom s'' = dom s /\ db s'' = db s.
Proof.
  intros Hg Hlive s' s''.
  destruct (logEvent_ok_dom s g eventCode now rnd stamp Hg Hlive) as (Hscore & Hh1 & Hh2).
  destruct (logEvent_live s g eventCode now rnd stamp true Hg Hlive) as (Hev & _).
  destruct (logEvent_live s g eventCode now rnd stamp false Hg Hlive) as (Hev' & Hdb' & _).
  fold s' in Hscore, Hh1, Hh2, Hev. fold s'' in Hev', Hdb'.
  split; [exact Hscore |].
  split; [rewrite Hev; apply scoreboard_snoc |].
  split; [exact Hh1 |]. split; [exact Hh2 |].
  split; [congruence |]. split; [| exact Hdb'].
  subst s''. unfold logEvent. by rewrite Hg, Hlive.
Qed.

Lemma logEvent_score_follows_list_witness :
  currentGame liveSession = Some liveGame /\ gameActive liveSession = true
  /\ scoreboard (currentEvents (logEvent "GOAL_OPP" 1 "abcde" 2 true liveSession))
     = ((scoreboard (currentEvents liveSession)).1 + (goalStep "GOAL_OPP").1,
        (scoreboard (currentEvents liveSession)).2 + (goalStep "GOAL_OPP").2).
Proof.
  assert (Hg : currentGame liveSession = Some liveGame) by (vm_compute; reflexivity).
  assert (Hlive : gameActive liveSession = true) by (vm_compute; reflexivity).
  split; [exact Hg |]. split; [exact Hlive |].
  exact (proj1 (proj2 (logEvent_score_follows_list liveSession liveGame "GOAL_OPP"
                         1 "abcde" 2 Hg Hlive))).
Defined.

(** X11. The footer of the logging screen, as [updateRecentEvents] fills
    it, holds the last three events newest first (all of them when there are
    fewer): its first line is the last event logged, it is empty exactly
    when no event has been logged, and appending an event puts that event on
    top and moves the two newest of the old lines down. *)
Theorem recentEvents_newest_first (s : Session) (e : Event) :
  recentEvents s = take 3 (reverse (currentEvents s))
  /\ (length (recentEvents s) <= 3)%nat
  /\ head (recentEvents s) = last (currentEvents s)
  /\ (recentEvents s = [] <-> currentEvents s = [])
  /\ recentEvents (setCurrentEvents (JS.push (currentEvents s) e) s)
     = e :: take 2 (recentEvents s).
Proof.
  rewrite !recentEvents_take. cbn [currentEvents setCurrentEvents]. unfold JS.push.
  split; [done |].
  split; [rewrite length_take; lia |].
  split; [rewrite <- head_reverse; by destruct (reverse (currentEvents s)) |].
  split.
  - split.
    + intros H. destruct (currentEvents s) as [| x l] using rev_ind; [done |].
      rewrite reverse_snoc in H. done.
    + by intros ->.
  - rewrite reverse_snoc. simpl. f_equal.
    by rewrite take_take.
Qed.

Section LogMany.

Lemma logMany_snoc taps tap s :
  logMany (taps ++ [tap]) s
  = logEvent tap.1.1.1 tap.1.1.2 tap.1.2 tap.2 true (logMany taps s).
Proof. unfold logMany. by rewrite fold_left_app. Qed.

Lemma logMany_live g taps : forall s,
  currentGame s = Some g -> gameActive s = true ->
  core (logMany taps s)
  = (mkStore (games (db s))
       (fold_left (fun m e => <[event_id e := e]> m)
          (map (tapEvent g (currentHalf s) (clockSeconds s)) taps) (events (db s))),
     Some g,
     currentEvents s ++ map (tapEvent g (currentHalf s) (clockSeconds s)) taps,
     currentHalf s, clockSeconds s, clockInterval s, true).
Proof.
  induction taps as [| tap taps IH] using rev_ind; intros s Hg Hlive.
  - unfold core. simpl. rewrite Hg, Hlive, app_nil_r. by destruct (db s).
  - rewrite logMany_snoc. specialize (IH s Hg Hlive). unfold core in IH.
    set (s1 := logMany taps s) in *.
    assert (Hg1 : currentGame s1 = Some g) by congruence.
    assert (Hl1 : gameActive s1 = true) by congruence.
    destruct (logEvent_live s1 g tap.1.1.1 tap.1.1.2 tap.1.2 tap.2 true Hg1 Hl1)
      as (Hev & Hdb & Hg' & Hh & Hc & Hi & Ha).
    unfold core. rewrite Hev, Hdb, Hg', Hh, Hc, Hi, Ha.
    assert (E1 : db s1 = mkStore (games (db s))
       (fold_left (fun m e => <[event_id e := e]> m)
          (map (tapEvent g (currentHalf s) (clockSeconds s)) taps) (events (db s))))
      by congruence.
    assert (E2 : currentEvents s1
                 = currentEvents s ++ map (tapEvent g (currentHalf s) (clockSeconds s)) taps)
      by congruence.
    assert (E3 : currentHalf s1 = currentHalf s) by congruence.
    assert (E4 : clockSeconds s1 = clockSeconds s) by congruence.
    assert (E5 : clockInterval s1 = clockInterval s) by congruence.
    rewrite E1, E2, E3, E4, E5, Hg1, Hl1.
    rewrite map_app, fold_left_app, app_assoc. reflexivity.
Qed.

Lemma undo_iter (L' : list Event) : forall s L,
  currentEvents s = L ++ L' ->
  core (Nat.iter (length L') (undoLastEvent true) s)
  = (mkStore (games (db s))
       (foldr (fun e m => delete (event_id e) m) (events (db s)) L'),
     currentGame s, L, currentHalf s, clockSeconds s, clockInterval s, gameActive s)
  /\ (L' <> [] ->
      (score_pfc (dom (Nat.iter (length L') (undoLastEvent true) s)),
       score_opp (dom (Nat.iter (length L') (undoLastEvent true) s))) = scoreboard L).
Proof.
  induction L' as [| e L' IH] using rev_ind; intros s L HL.
  - rewrite app_nil_r in HL. simpl. unfold core. rewrite HL.
    split; [by destruct (db s) | done].
  - rewrite List.length_app, Nat.add_1_r, Nat.iter_succ_r.
    rewrite app_assoc in HL.
    destruct (undoLastEvent_snoc_ok s (L ++ L') e HL) as (Hcore & Hscore & _).
    unfold core in Hcore.
    set (s1 := undoLastEvent true s) in *.
    assert (E1 : currentEvents s1 = L ++ L') by congruence.
    destruct (IH s1 L E1) as [IHcore IHscore].
    split.
    + rewrite IHcore.
      replace (db s1) with (dbDelete STORE_EVENTS (event_id e) (db s)) by congruence.
      rewrite fold_right_app. simpl.
      assert (E2 : currentGame s1 = currentGame s) by congruence.
      assert (E3 : currentHalf s1 = currentHalf s) by congruence.
      assert (E4 : clockSeconds s1 = clockSeconds s) by congruence.
      assert (E5 : clockInterval s1 = clockInterval s) by congruence.
      assert (E6 : gameActive s1 = gameActive s) by congruence.
      by rewrite E2, E3, E4, E5, E6.
    + intros _. destruct L' as [| e' L'' _] using rev_ind.
      * simpl. rewrite app_nil_r in Hscore. exact Hscore.
      * apply IHscore. by destruct L''.
Qed.

Lemma lookup_fold_delete (L : list Event) (m : gmap string Event) i :
  foldr (fun e m => delete (event_id e) m) m L !! i
  = if decide (i ∈ map event_id L) then None else m !! i.
Proof.
  induction L as [| e L IH]; simpl.
  - done.
  - destruct (decide (i = event_id e)) as [-> | Hne].
    + rewrite lookup_delete_eq. rewrite decide_True; [done | left].
    + rewrite lookup_delete_ne by done. rewrite IH.
      destruct (decide (i ∈ map event_id L)) as [Hin | Hnin].
      * rewrite decide_True; [done | by right].
      * rewrite decide_False; [done |]. by intros [? | ?]%elem_of_cons.
Qed.

Lemma lookup_fold_insert (L : list Event) : forall (m : gmap string Event) i,
  i ∉ map event_id L ->
  fold_left (fun m e => <[event_id e := e]> m) L m !! i = m !! i.
Proof.
  induction L as [| e L IH]; intros m i Hi; simpl; [done |].
  simpl in Hi. apply not_elem_of_cons in Hi as [Hne Hi].
  rewrite IH by done. by rewrite lookup_insert_ne.
Qed.

Lemma delete_all_inserted (L : list Event) (m : gmap string Event) :
  Forall (fun e => m !! event_id e = None) L ->
  foldr (fun e m => delete (event_id e) m)
    (fold_left (fun m e => <[event_id e := e]> m) L m) L = m.
Proof.
  intros Hfresh. apply map_eq. intros i. rewrite lookup_fold_delete.
  destruct (decide (i ∈ map event_id L)) as [Hin | Hnin].
  - apply list_elem_of_fmap in Hin as (e & -> & He).
    rewrite Forall_forall in Hfresh. symmetry. apply Hfresh.
    exact He.
  - by apply lookup_fold_insert.
Qed.

End LogMany.

(** X12. Undo takes back a whole run of taps. In a live session, logging a
    run of events (all writes succeeding) appends one event per tap, in tap
    order, each with the session's game, half and clock value; undoing as
    many times as there were taps (all deletes succeeding) gives back the
    session's list, and, when none of the new ids was in the events store
    before, the store as well, so that nothing but the page differs from the
    session before the run. The score shown is then the score of the list
    before the run. *)
Theorem undo_all_after_logMany (taps : list (string * Z * string * Z))
    (s : Session) (g : Game) :
  currentGame s = Some g -> gameActive s = true ->
  let s1 := logMany taps s in
  let s2 := Nat.iter (length taps) (undoLastEvent true) s1 in
  currentEvents s1
  = currentEvents s ++ map (tapEvent g (currentHalf s) (clockSeconds s)) taps
  /\ currentEvents s2 = currentEvents s
  /\ (Forall (fun tap => events (db s) !! tapId tap = None) taps -> core s2 = core s)
  /\ (taps <> [] ->
      (score_pfc (dom s2), score_opp (dom s2)) = scoreboard (currentEvents s)).
Proof.
  intros Hg Hlive s1 s2.
  pose proof (logMany_live g taps s Hg Hlive) as H1. fold s1 in H1. unfold core in H1.
  set (L' := map (tapEvent g (currentHalf s) (clockSeconds s)) taps) in *.
  assert (E1 : currentEvents s1 = currentEvents s ++ L') by congruence.
  assert (Hlen : length taps = length L') by (subst L'; by rewrite length_map).
  destruct (undo_iter L' s1 (currentEvents s) E1) as [H2 Hscore].
  rewrite <- Hlen in H2, Hscore. fold s2 in H2, Hscore. unfold core in H2.
  split; [exact E1 |]. split; [congruence |]. split.
  - intros Hfresh. unfold core.
    assert (Hdb : db s2 = db s).
    { replace (db s2) with (mkStore (games (db s1))
         (foldr (fun e m => delete (event_id e) m) (events (db s1)) L')) by congruence.
      replace (db s1) with (mkStore (games (db s))
         (fold_left (fun m e => <[event_id e := e]> m) L' (events (db s)))) by congruence.
      simpl. rewrite delete_all_inserted; [by destruct (db s) |].
      subst L'. apply Forall_map. exact Hfresh. }
    assert (E2 : currentGame s2 = currentGame s) by congruence.
    assert (E3 : currentEvents s2 = currentEvents s) by congruence.
    assert (E4 : currentHalf s2 = currentHalf s) by congruence.
    assert (E5 : clockSeconds s2 = clockSeconds s) by congruence.
    assert (E6 : clockInterval s2 = clockInterval s) by congruence.
    assert (E7 : gameActive s2 = gameActive s) by congruence.
    by rewrite Hdb, E2, E3, E4, E5, E6, E7.
  - intros Hne. apply Hscore. subst L'. by destruct taps.
Qed.

Lemma undo_all_after_logMany_witness :
  currentGame liveSession = Some liveGame /\ gameActive liveSession = true
  /\ core (Nat.iter 2 (undoLastEvent true)
             (logMany [("GOAL_PFC", 5, "aaaaa", 6); ("CK_OPP", 7, "bbbbb", 8)] liveSession))
     = core liveSession.
Proof.
  assert (Hg : currentGame liveSession = Some liveGame) by (vm_compute; reflexivity).
  assert (Hlive : gameActive liveSession = true) by (vm_compute; reflexivity).
  split; [exact Hg |]. split; [exact Hlive |].
  refine (proj1 (proj2 (proj2 (undo_all_after_logMany
            [("GOAL_PFC", 5, "aaaaa", 6); ("CK_OPP", 7, "bbbbb", 8)]
            liveSession liveGame Hg Hlive))) _).
  repeat constructor.
Defined.

(** ** Time adjust: what it keeps, how it composes, what it stores *)

Section AdjustMore.

Lemma filterCallback_adjustEvent h t ty a1 a2 e :
  filterCallback h t ty (adjustEvent a1 a2 e) = filterCallback h t ty e.
Proof. reflexivity. Qed.

Lemma filter_map_adjustEvent h t ty a1 a2 (L : list Event) :
  List.filter (filterCallback h t ty) (map (adjustEvent a1 a2) L)
  = map (adjustEvent a1 a2) (List.filter (filterCallback h t ty) L).
Proof.
  induction L as [| e L IH]; [done |]. simpl map. simpl List.filter.
  rewrite filterCallback_adjustEvent.
  destruct (filterCallback h t ty e); simpl; by rewrite IH.
Qed.

Lemma scoreboard_codes (L L' : list Event) :
  map event_code L = map event_code L' -> scoreboard L = scoreboard L'.
Proof.
  intros H. rewrite !scoreboard_counts. unfold countCode. by rewrite H.
Qed.

Lemma map_adjustEvent_fields a1 a2 (L : list Event) :
  map event_id (map (adjustEvent a1 a2) L) = map event_id L
  /\ map ev_game_id (map (adjustEvent a1 a2) L) = map ev_game_id L
  /\ map half (map (adjustEvent a1 a2) L) = map half L
  /\ map event_code (map (adjustEvent a1 a2) L) = map event_code L
  /\ map created_at (map (adjustEvent a1 a2) L) = map created_at L.
Proof. rewrite !map_map. done. Qed.

Lemma adjustedList_fields a1 a2 (L : list Event) :
  map event_id (adjustedList a1 a2 L) = map event_id L
  /\ map ev_game_id (adjustedList a1 a2 L) = map ev_game_id L
  /\ map half (adjustedList a1 a2 L) = map half L
  /\ map event_code (adjustedList a1 a2 L) = map event_code L
  /\ map created_at (adjustedList a1 a2 L) = map created_at L.
Proof.
  unfold adjustedList. destruct ((a1 =? 0) && (a2 =? 0)); [done |].
  apply map_adjustEvent_fields.
Qed.

Lemma filter_adjustedList h t ty a1 a2 (L : list Event) :
  List.filter (filterCallback h t ty) (adjustedList a1 a2 L)
  = adjustedList a1 a2 (List.filter (filterCallback h t ty) L).
Proof.
  unfold adjustedList. destruct ((a1 =? 0) && (a2 =? 0)); [done |].
  apply filter_map_adjustEvent.
Qed.

(** The session after [applyTimeAdjust], case by case. *)
Lemma applyTimeAdjust_eq fault s :
  let a1 := JS.orZero (JS.parseInt10 (adjust_h1 (dom s))) in
  let a2 := JS.orZero (JS.parseInt10 (adjust_h2 (dom s))) in
  let L' := map (adjustEvent a1 a2) (currentEvents s) in
  let s1 := setDb (persistEvents fault L' (db s)) (setCurrentEvents L' s) in
  applyTimeAdjust fault s
  = if (a1 =? 0) && (a2 =? 0) then showToast "No adjustment entered" s
    else if existsb (fun e => fault (event_id e)) L' then s1
    else showToast "Times adjusted" (renderEventsList (onDom (setAdjust "0" "0") s1)).
Proof. reflexivity. Qed.

Lemma applyTimeAdjust_core fault s :
  let a1 := JS.orZero (JS.parseInt10 (adjust_h1 (dom s))) in
  let a2 := JS.orZero (JS.parseInt10 (adjust_h2 (dom s))) in
  core (applyTimeAdjust fault s)
  = (if (a1 =? 0) && (a2 =? 0) then db s
     else persistEvents fault (adjustedList a1 a2 (currentEvents s)) (db s),
     currentGame s, adjustedList a1 a2 (currentEvents s), currentHalf s,
     clockSeconds s, clockInterval s, gameActive s).
Proof.
  intros a1 a2. rewrite applyTimeAdjust_eq. fold a1 a2. unfold adjustedList.
  destruct ((a1 =? 0) && (a2 =? 0)); [by rewrite core_showToast |].
  destruct (existsb _ _); [reflexivity |].
  rewrite core_showToast. unfold renderEventsList. by rewrite !core_onDom.
Qed.

Lemma applyTimeAdjust_filters fault s :
  (filter_half (dom (applyTimeAdjust fault s)), filter_team (dom (applyTimeAdjust fault s)),
   filter_type (dom (applyTimeAdjust fault s)))
  = (filter_half (dom s), filter_team (dom s), filter_type (dom s)).
Proof.
  rewrite applyTimeAdjust_eq. cbv zeta.
  destruct (_ && _); [reflexivity |]. destruct (existsb _ _); reflexivity.
Qed.

Lemma adjustEvent_back a1 a2 e :
  0 <= a1 -> 0 <= a2 -> 0 <= t_half_seconds e -> exactShift a1 a2 e ->
  adjustEvent (- a1) (- a2) (adjustEvent a1 a2 e) = e.
Proof.
  intros H1 H2 Ht [Hst Hsum]. destruct e as [i gid h t c ca].
  unfold adjustEvent. simpl in *. f_equal.
  rewrite (toDouble_safe _ Hsum).
  destruct (h =? 1).
  - replace (0 `max` (t + a1) + - a1) with t by lia.
    rewrite (toDouble_safe _ Hst). lia.
  - replace (0 `max` (t + a2) + - a2) with t by lia.
    rewrite (toDouble_safe _ Hst). lia.
Qed.

Lemma persistEvents_cons fault e (L : list Event) st :
  persistEvents fault (e :: L) st
  = persistEvents fault L (if fault (event_id e) then st else dbPut STORE_EVENTS e st).
Proof. reflexivity. Qed.

Lemma persistEvents_lookup_notin fault (L : list Event) : forall st k,
  k ∉ map event_id L -> events (persistEvents fault L st) !! k = events st !! k.
Proof.
  induction L as [| e L IH]; intros st k Hk; [done |].
  simpl in Hk. apply not_elem_of_cons in Hk as [Hne Hk].
  rewrite persistEvents_cons, IH by done.
  destruct (fault (event_id e)); [done |]. simpl. by rewrite lookup_insert_ne.
Qed.

Lemma persistEvents_lookup_in fault (L : list Event) : forall st e,
  NoDup (map event_id L) -> e ∈ L ->
  events (persistEvents fault L st) !! event_id e
  = if fault (event_id e) then events st !! event_id e else Some e.
Proof.
  induction L as [| x L IH]; intros st e Hnd He; [by apply elem_of_nil in He |].
  simpl in Hnd. apply NoDup_cons in Hnd as [Hx Hnd].
  rewrite persistEvents_cons.
  apply elem_of_cons in He as [-> | He].
  - rewrite persistEvents_lookup_notin by done.
    destruct (fault (event_id x)); [done |]. simpl. by rewrite lookup_insert_eq.
  - rewrite IH by done.
    assert (Hne : event_id e <> event_id x).
    { intros Heq. apply Hx. rewrite <- Heq. by apply list_elem_of_fmap_2. }
    destruct (fault (event_id e)); [| done].
    destruct (fault (event_id x)); [done |]. simpl. by rewrite lookup_insert_ne.
Qed.

End AdjustMore.

(** X13. [applyTimeAdjust] changes times only. Whatever the inputs and
    whichever writes fail, the list keeps its length and order and every
    event its id, game id, half, code and creation stamp, so the score is
    the same; game, half, clock, live flag, the games store and the filter
    selection stay; and the events that pass the filter afterwards are the
    adjusted forms of those that passed it before, in the same order. *)
Theorem applyTimeAdjust_changes_times_only (fault : string -> bool) (s : Session) :
  let s' := applyTimeAdjust fault s in
  let a1 := JS.orZero (JS.parseInt10 (adjust_h1 (dom s))) in
  let a2 := JS.orZero (JS.parseInt10 (adjust_h2 (dom s))) in
  length (currentEvents s') = length (currentEvents s)
  /\ map event_id (currentEvents s') = map event_id (currentEvents s)
  /\ map ev_game_id (currentEvents s') = map ev_game_id (currentEvents s)
  /\ map half (currentEvents s') = map half (currentEvents s)
  /\ map event_code (currentEvents s') = map event_code (currentEvents s)
  /\ map created_at (currentEvents s') = map created_at (currentEvents s)
  /\ scoreboard (currentEvents s') = scoreboard (currentEvents s)
  /\ reviewScore (currentEvents s') = reviewScore (currentEvents s)
  /\ (currentGame s', currentHalf s', clockSeconds s', clockInterval s', gameActive s')
     = (currentGame s, currentHalf s, clockSeconds s, clockInterval s, gameActive s)
  /\ games (db s') = games (db s)
  /\ getFilteredEvents s' = adjustedList a1 a2 (getFilteredEvents s).
Proof.
  intros s' a1 a2.
  pose proof (applyTimeAdjust_core fault s) as Hcore. fold s' a1 a2 in Hcore.
  unfold core in Hcore.
  assert (Hev : currentEvents s' = adjustedList a1 a2 (currentEvents s)) by congruence.
  assert (Hdb : db s' = (if (a1 =? 0) && (a2 =? 0) then db s
            else persistEvents fault (adjustedList a1 a2 (currentEvents s)) (db s)))
    by congruence.
  destruct (adjustedList_fields a1 a2 (currentEvents s)) as (Hid & Hgid & Hhalf & Hcode & Hca).
  rewrite Hev.
  split; [by rewrite <- (length_map event_id), Hid, length_map |].
  split; [exact Hid |]. split; [exact Hgid |]. split; [exact Hhalf |].
  split; [exact Hcode |]. split; [exact Hca |].
  split; [by apply scoreboard_codes |].
  split.
  { unfold reviewScore. rewrite !filter_length_countCode. unfold countCode.
    by rewrite Hcode. }
  split.
  { assert (E2 : currentGame s' = currentGame s) by congruence.
    assert (E4 : currentHalf s' = currentHalf s) by congruence.
    assert (E5 : clockSeconds s' = clockSeconds s) by congruence.
    assert (E6 : clockInterval s' = clockInterval s) by congruence.
    assert (E7 : gameActive s' = gameActive s) by congruence.
    by rewrite E2, E4, E5, E6, E7. }
  split.
  { rewrite Hdb. destruct (_ && _); [done |]. apply persistEvents_games. }
  unfold getFilteredEvents.
  pose proof (applyTimeAdjust_filters fault s) as Hf. fold s' in Hf.
  assert (F1 : filter_half (dom s') = filter_half (dom s)) by congruence.
  assert (F2 : filter_team (dom s') = filter_team (dom s)) by congruence.
  assert (F3 : filter_type (dom s') = filter_type (dom s)) by congruence.
  rewrite F1, F2, F3, Hev. apply filter_adjustedList.
Qed.

Section AdjustTwice.

Lemma existsb_fault_adjusted fault a1 a2 (L : list Event) :
  existsb (fun e => fault (event_id e)) (map (adjustEvent a1 a2) L)
  = existsb (fun e => fault (event_id e)) L.
Proof. induction L as [| e L IH]; [done |]. simpl. by rewrite IH. Qed.

Lemma adjustedList_zero_iff a1 a2 :
  (- a1 =? 0) && (- a2 =? 0) = (a1 =? 0) && (a2 =? 0).
Proof. f_equal; destruct (Z.eqb_spec a1 0), (Z.eqb_spec a2 0); lia. Qed.

Lemma adjustedList_back a1 a2 (L : list Event) :
  0 <= a1 -> 0 <= a2 ->
  Forall (fun e => 0 <= t_half_seconds e /\ exactShift a1 a2 e) L ->
  adjustedList (- a1) (- a2) (adjustedList a1 a2 L) = L.
Proof.
  intros H1 H2 HL. unfold adjustedList. rewrite adjustedList_zero_iff.
  destruct ((a1 =? 0) && (a2 =? 0)); [done |].
  induction HL as [| e L [He Hex] HL IH]; [done |].
  simpl. by rewrite adjustEvent_back, IH.
Qed.

Lemma adjustEvent_forth a1 a2 e :
  0 <= a1 -> 0 <= a2 -> JS.safeInteger a1 -> JS.safeInteger a2 ->
  exactShift (- a1) (- a2) e ->
  t_half_seconds (adjustEvent a1 a2 (adjustEvent (- a1) (- a2) e))
  = Z.max (t_half_seconds e) (if half e =? 1 then a1 else a2).
Proof.
  intros H1 H2 Hs1 Hs2 [Hst Hsum]. unfold adjustEvent. simpl.
  rewrite (toDouble_safe _ Hsum).
  unfold JS.safeInteger in *.
  destruct (half e =? 1); rewrite toDouble_safe; unfold JS.safeInteger; lia.
Qed.

Lemma applyTimeAdjust_typed fault x1 x2 s :
  currentEvents (applyTimeAdjust fault (onDom (setAdjust x1 x2) s))
  = adjustedList (JS.orZero (JS.parseInt10 x1)) (JS.orZero (JS.parseInt10 x2))
      (currentEvents s).
Proof.
  pose proof (applyTimeAdjust_core fault (onDom (setAdjust x1 x2) s)) as H.
  unfold core in H. cbv zeta in H.
  assert (E : currentEvents (applyTimeAdjust fault (onDom (setAdjust x1 x2) s))
              = adjustedList
                  (JS.orZero (JS.parseInt10 (adjust_h1 (dom (onDom (setAdjust x1 x2) s)))))
                  (JS.orZero (JS.parseInt10 (adjust_h2 (dom (onDom (setAdjust x1 x2) s)))))
                  (currentEvents (onDom (setAdjust x1 x2) s))) by congruence.
  exact E.
Qed.

End AdjustTwice.

(** X14. Pressing Apply twice, with an offset that is not zero. The
    handler is its first part (list replaced, writes started) followed by
    its second part (after the writes have settled). When the second press
    comes after the first call has finished and no write failed, the inputs
    are back at "0" by then, the filtered view of the adjusted list and the
    notice "Times adjusted" are shown, and the press changes no session
    variable and only shows "No adjustment entered". When the second press
    comes while the writes of the first are pending, the offsets are still
    in the inputs and the times are shifted a second time, although every
    write succeeds; once both calls have finished the list and the view are
    the twice shifted ones and the inputs are at "0". When a write of the
    first call fails, the page is left as it was, offsets included, with
    the list in memory already shifted, and a second press shifts again. *)
Theorem applyTimeAdjust_pressed_twice (fault fault' : string -> bool) (s : Session) :
  let a1 := JS.orZero (JS.parseInt10 (adjust_h1 (dom s))) in
  let a2 := JS.orZero (JS.parseInt10 (adjust_h2 (dom s))) in
  let L1 := map (adjustEvent a1 a2) (currentEvents s) in
  let L2 := map (adjustEvent a1 a2) L1 in
  let s1 := applyTimeAdjust fault s in
  let failed (f : string -> bool) := existsb (fun e => f (event_id e)) (currentEvents s) in
  ~ (a1 = 0 /\ a2 = 0) ->
  (applyTimeAdjustBegin s = (setCurrentEvents L1 s, Some L1)
   /\ s1 = applyTimeAdjustSettle fault L1 (setCurrentEvents L1 s))
  /\ (failed fault = false ->
      adjust_h1 (dom s1) = "0" /\ adjust_h2 (dom s1) = "0"
      /\ events_list (dom s1) = getFilteredEvents s1
      /\ toast (dom s1) = Some "Times adjusted"
      /\ core (applyTimeAdjust fault' s1) = core s1
      /\ toast (dom (applyTimeAdjust fault' s1)) = Some "No adjustment entered")
  /\ (let pending := setCurrentEvents L1 s in
      let final := applyTimeAdjustSettle fault' L2
                     (applyTimeAdjustSettle fault L1 (setCurrentEvents L2 s)) in
      applyTimeAdjustBegin pending = (setCurrentEvents L2 s, Some L2)
      /\ currentEvents final = L2
      /\ (failed fault = false -> failed fault' = false ->
          adjust_h1 (dom final) = "0" /\ adjust_h2 (dom final) = "0"
          /\ events_list (dom final) = getFilteredEvents final
          /\ db final = persistEvents fault' L2 (persistEvents fault L1 (db s))))
  /\ (failed fault = true ->
      dom s1 = dom s
      /\ currentEvents s1 = L1
      /\ currentEvents (applyTimeAdjust fault' s1) = L2).
Proof.
  intros a1 a2 L1 L2 s1 failed Hnz.
  assert (Hz : (a1 =? 0) && (a2 =? 0) = false).
  { apply andb_false_iff. destruct (Z.eqb_spec a1 0), (Z.eqb_spec a2 0); tauto. }
  assert (Hbegin : forall L, applyTimeAdjustBegin (setCurrentEvents L s)
            = (setCurrentEvents (map (adjustEvent a1 a2) L) s,
               Some (map (adjustEvent a1 a2) L))).
  { intros L. unfold applyTimeAdjustBegin.
    change (dom (setCurrentEvents L s)) with (dom s). fold a1 a2. by rewrite Hz. }
  assert (Hs1 : s1 = applyTimeAdjustSettle fault L1 (setCurrentEvents L1 s)).
  { subst s1. rewrite applyTimeAdjust_eq. fold a1 a2. cbv zeta. by rewrite Hz. }
  assert (Hf : forall f L, existsb (fun e => f (event_id e)) (map (adjustEvent a1 a2) L)
                           = existsb (fun e => f (event_id e)) L).
  { intros f L. apply existsb_fault_adjusted. }
  split.
  { split; [| exact Hs1]. unfold applyTimeAdjustBegin. fold a1 a2. by rewrite Hz. }
  split.
  { intros Hok. unfold failed in Hok.
    assert (Hs1' : s1 = showToast "Times adjusted"
                          (renderEventsList (onDom (setAdjust "0" "0")
                             (setDb (persistEvents fault L1 (db s))
                                (setCurrentEvents L1 s))))).
    { rewrite Hs1. unfold applyTimeAdjustSettle. subst L1. by rewrite Hf, Hok. }
    assert (Hd1 : adjust_h1 (dom s1) = "0") by (by rewrite Hs1').
    assert (Hd2 : adjust_h2 (dom s1) = "0") by (by rewrite Hs1').
    split; [exact Hd1 |]. split; [exact Hd2 |].
    split; [by rewrite Hs1' |]. split; [by rewrite Hs1' |].
    assert (Hs2 : applyTimeAdjust fault' s1 = showToast "No adjustment entered" s1).
    { rewrite applyTimeAdjust_eq. cbv zeta. by rewrite Hd1, Hd2. }
    rewrite Hs2. split; [apply core_showToast | reflexivity]. }
  split.
  { cbv zeta. split; [apply Hbegin |].
    assert (Hcur : forall f g La Lb t,
              currentEvents (applyTimeAdjustSettle f La (applyTimeAdjustSettle g Lb t))
              = currentEvents t).
    { intros f g La Lb t. unfold applyTimeAdjustSettle.
      destruct (existsb _ Lb); destruct (existsb _ La); reflexivity. }
    split; [by rewrite Hcur |].
    intros Hok Hok'. unfold failed in Hok, Hok'.
    unfold applyTimeAdjustSettle. subst L2 L1. rewrite !Hf, Hok, Hok'.
    repeat split. }
  intros Hfail. unfold failed in Hfail.
  assert (Hs1' : s1 = setDb (persistEvents fault L1 (db s)) (setCurrentEvents L1 s)).
  { rewrite Hs1. unfold applyTimeAdjustSettle. subst L1. by rewrite Hf, Hfail. }
  split; [by rewrite Hs1' |]. split; [by rewrite Hs1' |].
  pose proof (applyTimeAdjust_core fault' s1) as Hcore.
  unfold core in Hcore. cbv zeta in Hcore.
  assert (Hev2 : currentEvents (applyTimeAdjust fault' s1)
            = adjustedList (JS.orZero (JS.parseInt10 (adjust_h1 (dom s1))))
                (JS.orZero (JS.parseInt10 (adjust_h2 (dom s1)))) (currentEvents s1))
    by congruence.
  rewrite Hev2.
  replace (dom s1) with (dom s) by (by rewrite Hs1').
  replace (currentEvents s1) with L1 by (by rewrite Hs1').
  fold a1 a2. unfold adjustedList. by rewrite Hz.
Qed.

Lemma applyTimeAdjust_pressed_twice_witness :
  core (applyTimeAdjust (fun _ => true)
          (applyTimeAdjust (fun _ => false) adjustSession))
  = core (applyTimeAdjust (fun _ => false) adjustSession).
Proof.
  refine (proj1 (proj2 (proj2 (proj2 (proj2 (proj1 (proj2
            (applyTimeAdjust_pressed_twice (fun _ => false) (fun _ => true) adjustSession _))
            _)))))).
  - vm_compute. intros [H _]. discriminate H.
  - reflexivity.
Defined.

(** X15. What [applyTimeAdjust] writes. When the events in memory have
    pairwise different ids and an offset is not zero, then afterwards the
    events store holds, under the id of each event of the new list whose
    write succeeded, exactly that adjusted event; a record whose write
    failed, and every record under an id that is not in the list, is as it
    was before. *)
Theorem applyTimeAdjust_stores_adjusted (fault : string -> bool) (s : Session) :
  let a1 := JS.orZero (JS.parseInt10 (adjust_h1 (dom s))) in
  let a2 := JS.orZero (JS.parseInt10 (adjust_h2 (dom s))) in
  let s' := applyTimeAdjust fault s in
  NoDup (map event_id (currentEvents s)) ->
  ~ (a1 = 0 /\ a2 = 0) ->
  (forall e, e ∈ currentEvents s' ->
     events (db s') !! event_id e
     = if fault (event_id e) then events (db s) !! event_id e else Some e)
  /\ (forall k, k ∉ map event_id (currentEvents s) ->
        events (db s') !! k = events (db s) !! k).
Proof.
  intros a1 a2 s' Hnd Hnz.
  destruct (applyTimeAdjust_cases fault s) as [_ H]. cbv zeta in H.
  destruct (H Hnz) as [Hev Hdb]. fold a1 a2 s' in Hev, Hdb.
  destruct (map_adjustEvent_fields a1 a2 (currentEvents s)) as (Hid & _).
  rewrite Hev, Hdb. split.
  - intros e He. apply persistEvents_lookup_in; [by rewrite Hid | exact He].
  - intros k Hk. apply persistEvents_lookup_notin. by rewrite Hid.
Qed.

Lemma applyTimeAdjust_stores_adjusted_witness :
  events (db (applyTimeAdjust (fun _ => false) adjustSession)) !! "ev_zz"
  = events (db adjustSession) !! "ev_zz".
Proof.
  refine (proj2 (applyTimeAdjust_stores_adjusted (fun _ => false) adjustSession _ _)
            "ev_zz" _).
  - apply (bool_decide_unpack _). vm_compute. reflexivity.
  - vm_compute. intros [H _]. discriminate H.
  - apply (bool_decide_unpack _). vm_compute. reflexivity.
Defined.

(** X16. Shifting forward and back again, for times and shifted times
    that are integers a number holds exactly (below 2^53 in magnitude, so
    that no sum is rounded). After an adjustment by offsets that are not
    negative, typing the opposite offsets and applying again gives back the
    list as it was (its times being not negative), whichever writes fail.
    The other way round it does not: an event shifted back by [a] and
    forward by [a] again ends at the later of its own time and [a]. *)
Theorem applyTimeAdjust_forward_then_back (fault fault' : string -> bool)
    (x1 x2 : string) (s : Session) :
  let a1 := JS.orZero (JS.parseInt10 (adjust_h1 (dom s))) in
  let a2 := JS.orZero (JS.parseInt10 (adjust_h2 (dom s))) in
  0 <= a1 -> 0 <= a2 ->
  JS.orZero (JS.parseInt10 x1) = - a1 -> JS.orZero (JS.parseInt10 x2) = - a2 ->
  Forall (fun e => 0 <= t_half_seconds e /\ exactShift a1 a2 e) (currentEvents s) ->
  currentEvents
    (applyTimeAdjust fault' (onDom (setAdjust x1 x2) (applyTimeAdjust fault s)))
  = currentEvents s
  /\ forall e, JS.safeInteger a1 -> JS.safeInteger a2 -> exactShift (- a1) (- a2) e ->
       t_half_seconds (adjustEvent a1 a2 (adjustEvent (- a1) (- a2) e))
       = Z.max (t_half_seconds e) (if half e =? 1 then a1 else a2).
Proof.
  intros a1 a2 H1 H2 Hx1 Hx2 HL. split.
  - rewrite applyTimeAdjust_typed, Hx1, Hx2.
    destruct (applyTimeAdjust_result fault s) as [Hev _]. cbv zeta in Hev.
    fold a1 a2 in Hev. rewrite Hev. by apply adjustedList_back.
  - intros e Hs1 Hs2 Hex. by apply adjustEvent_forth.
Qed.

Lemma applyTimeAdjust_forward_then_back_witness :
  currentEvents
    (applyTimeAdjust (fun _ => false)
       (onDom (setAdjust "-20" "0")
          (applyTimeAdjust (fun _ => false) (onDom (setAdjust "20" "0") adjustSession))))
  = currentEvents (onDom (setAdjust "20" "0") adjustSession).
Proof.
  refine (proj1 (applyTimeAdjust_forward_then_back (fun _ => false) (fun _ => false)
            "-20" "0" (onDom (setAdjust "20" "0") adjustSession) _ _ _ _ _)).
  - vm_compute. discriminate.
  - vm_compute. discriminate.
  - vm_compute. reflexivity.
  - vm_compute. reflexivity.
  - repeat constructor; vm_compute; first [reflexivity | discriminate].
Defined.

(** ** Filters on arbitrary values, reachable sessions and the event tables *)

Section FilterAxes.

Lemma getFilteredEvents_changeFilters h t ty s :
  getFilteredEvents (changeFilters h t ty s)
  = List.filter (filterCallback h t ty) (currentEvents s).
Proof. reflexivity. Qed.

Lemma filterCallback_axes h t ty e :
  filterCallback h t ty e
  = filterCallback h "all" "all" e && filterCallback "all" t "all" e
    && filterCallback "all" "all" ty e.
Proof.
  unfold filterCallback.
  change (String.eqb "all" "all") with true. cbn [negb andb].
  destruct (negb (String.eqb h "all") && negb (numStrictEq (half e) (JS.parseInt10 h)));
    [done |].
  destruct (negb (String.eqb t "all") && negb (JS.endsWith (event_code e) ("_" +:+ t)));
    [done |].
  by destruct (negb (String.eqb ty "all") && negb (JS.startsWith (event_code e) ty)).
Qed.

Lemma filter_andb {A} (f g : A -> bool) (L : list A) :
  List.filter (fun x => f x && g x) L = List.filter g (List.filter f L).
Proof.
  induction L as [| x L IH]; [done |]. simpl.
  destruct (f x); simpl; [destruct (g x) |]; by rewrite IH.
Qed.

Lemma filter_In_elem {A} (f : A -> bool) (L : list A) x :
  x ∈ List.filter f L <-> x ∈ L /\ f x = true.
Proof. rewrite !list_elem_of_In. apply filter_In. Qed.

Lemma filterCallback_half1 t ty e :
  filterCallback "1" t ty e = (half e =? 1) && filterCallback "all" t ty e.
Proof.
  unfold filterCallback. change (JS.parseInt10 "1") with (Some 1).
  change (String.eqb "1" "all") with false. change (String.eqb "all" "all") with true.
  cbn [negb andb numStrictEq]. by destruct (half e =? 1).
Qed.

Lemma filterCallback_half2 t ty e :
  filterCallback "2" t ty e = (half e =? 2) && filterCallback "all" t ty e.
Proof.
  unfold filterCallback. change (JS.parseInt10 "2") with (Some 2).
  change (String.eqb "2" "all") with false. change (String.eqb "all" "all") with true.
  cbn [negb andb numStrictEq]. by destruct (half e =? 2).
Qed.

Lemma filter_halves_length t ty (L : list Event) :
  Forall wfEvent L ->
  (length (List.filter (filterCallback "1" t ty) L)
   + length (List.filter (filterCallback "2" t ty) L)
   = length (List.filter (filterCallback "all" t ty) L))%nat.
Proof.
  induction 1 as [| e L [Hh _] _ IH]; [done |]. simpl.
  rewrite filterCallback_half1, filterCallback_half2.
  destruct Hh as [-> | ->]; simpl;
    destruct (filterCallback "all" t ty e); simpl; lia.
Qed.

Lemma filterCallback_no_such_half h t ty e :
  h <> "all" -> JS.parseInt10 h <> Some (half e) -> filterCallback h t ty e = false.
Proof.
  intros Hall Hh. unfold filterCallback.
  destruct (String.eqb_spec h "all") as [-> | _]; [done |].
  destruct (JS.parseInt10 h) as [v |]; [| done]. simpl.
  destruct (Z.eqb_spec (half e) v) as [Heq | _]; [by rewrite Heq in Hh | done].
Qed.

End FilterAxes.

(** X17. The three filters work side by side, for any values of the three
    selects: an event is shown when it passes each filter taken alone, so
    filtering on all three is filtering on one after the other, and the
    view is always a part of the list in the list's order. In a session
    reached from a fresh page the Half-1 and Half-2 views split the
    all-halves view between them (their lengths add up to its length), and
    a half value that is neither "all" nor reads as 1 or 2 shows
    nothing. *)
Theorem filters_side_by_side (h t ty : string) (s : Session) :
  Reachable s ->
  let view h t ty := getFilteredEvents (changeFilters h t ty s) in
  (forall e, e ∈ view h t ty
     <-> e ∈ view h "all" "all" /\ e ∈ view "all" t "all" /\ e ∈ view "all" "all" ty)
  /\ view h t ty
     = List.filter (filterCallback "all" "all" ty)
         (List.filter (filterCallback "all" t "all") (view h "all" "all"))
  /\ view h t ty `sublist_of` currentEvents s
  /\ view "all" "all" "all" = currentEvents s
  /\ (length (view "1" t ty) + length (view "2" t ty) = length (view "all" t ty))%nat
  /\ (h <> "all" -> JS.parseInt10 h <> Some 1 -> JS.parseInt10 h <> Some 2 ->
      view h t ty = []).
Proof.
  intros Hreach view.
  pose proof (Reachable_Invariant s Hreach) as Hinv.
  pose proof (inv_events s Hinv) as Hwf.
  subst view. cbv beta. rewrite !getFilteredEvents_changeFilters.
  split.
  { intros e. rewrite !filter_In_elem, filterCallback_axes, !andb_true_iff. tauto. }
  split.
  { rewrite <- !filter_andb. apply filter_ext. intros e.
    rewrite (filterCallback_axes h t ty e). by rewrite andb_assoc. }
  split.
  { clear Hwf. induction (currentEvents s) as [| e L IH]; [done |]. cbn [List.filter].
    destruct (filterCallback h t ty e); [by apply sublist_skip | by apply sublist_cons]. }
  split.
  { clear Hwf. induction (currentEvents s) as [| e L IH]; [done |]. cbn [List.filter].
    change (filterCallback "all" "all" "all" e) with true. cbv iota. by rewrite IH. }
  split; [by apply filter_halves_length |].
  intros Hall H1 H2.
  induction Hwf as [| e L [Hh _] _ IH]; [done |]. cbn [List.filter].
  rewrite filterCallback_no_such_half; [exact IH | exact Hall |].
  destruct Hh as [-> | ->]; done.
Qed.

Lemma filters_side_by_side_witness :
  Reachable liveSession
  /\ getFilteredEvents (changeFilters "all" "all" "all" liveSession)
     = currentEvents liveSession.
Proof.
  assert (Hreach : Reachable liveSession).
  { unfold liveSession.
    assert (Hn : forall n s, Reachable s -> Reachable (Nat.iter n tick s)).
    { intros n s Hs. induction n as [| n IH]; [exact Hs |].
      simpl. exact (reach_step Tick _ IH I). }
    apply Hn.
    refine (reach_step (StartGame 1714566896789 1714566896789 true) _ _ _).
    - exact (reach_step (TypeNames "FC Riverside" "Coach A") _ reach_fresh I).
    - unfold clockInRange, fourDigitYear. lia. }
  split; [exact Hreach |].
  exact (proj1 (proj2 (proj2 (proj2
           (filters_side_by_side "1" "PFC" "GOAL" liveSession Hreach))))).
Defined.



Section EventTables.

Lemma gridCodes_eq :
  gridCodes = ["GK_PFC"; "GK_OPP"; "CK_PFC"; "CK_OPP"; "FK_PFC"; "FK_OPP";
               "KO_PFC"; "KO_OPP"; "SO_PFC"; "SO_OPP"; "GOAL_PFC"; "GOAL_OPP"].
Proof. reflexivity. Qed.

Lemma gridCodes_cases code :
  code ∈ gridCodes ->
  code = "GK_PFC" \/ code = "GK_OPP" \/ code = "CK_PFC" \/ code = "CK_OPP"
  \/ code = "FK_PFC" \/ code = "FK_OPP" \/ code = "KO_PFC" \/ code = "KO_OPP"
  \/ code = "SO_PFC" \/ code = "SO_OPP" \/ code = "GOAL_PFC" \/ code = "GOAL_OPP".
Proof.
  rewrite gridCodes_eq. intros H. apply list_elem_of_In in H. simpl in H.
  intuition (subst; tauto).
Qed.

Lemma typeCodes_cases (ty : string * string * bool) :
  ty ∈ EVENT_TYPES ->
  ty.1.1 = "GK" \/ ty.1.1 = "CK" \/ ty.1.1 = "FK" \/ ty.1.1 = "KO" \/ ty.1.1 = "SO"
  \/ ty.1.1 = "GOAL".
Proof.
  intros H. apply list_elem_of_In in H. simpl in H.
  intuition (subst; simpl; tauto).
Qed.

End EventTables.

(** X19. The event tables agree with one another. The codes that the
    buttons of the grid log are twelve different codes, and they are the
    keys of [EVENT_DISPLAY] in the same order, so every event logged from
    the grid has a label of its own. For such a code the type filter set to
    the code of a row of [EVENT_TYPES] passes it exactly when it comes from
    one of the two buttons of that row, the team filter set to PFC or OPP
    passes it exactly when it comes from a button of that side, the colour
    class is [ev-goal] for the goal row and the side's class otherwise, and
    only the two goal codes move the score. *)
Theorem grid_codes_agree (code : string) (e : Event) :
  code ∈ gridCodes -> event_code e = code ->
  map fst EVENT_DISPLAY = gridCodes
  /\ NoDup gridCodes
  /\ is_Some (lookupKey code EVENT_DISPLAY)
  /\ (forall ty, ty ∈ EVENT_TYPES ->
        (filterCallback "all" "all" ty.1.1 e = true
         <-> code = ty.1.1 +:+ "_PFC" \/ code = ty.1.1 +:+ "_OPP"))
  /\ (forall sd, sd = "PFC" \/ sd = "OPP" ->
        (filterCallback "all" sd "all" e = true
         <-> exists ty, ty ∈ EVENT_TYPES /\ code = ty.1.1 +:+ "_" +:+ sd))
  /\ EVENT_CLASS code
     = (if String.eqb code "GOAL_PFC" || String.eqb code "GOAL_OPP" then "ev-goal"
        else if JS.endsWith code "_PFC" then "ev-pfc" else "ev-opp")
  /\ (goalStep code <> (0, 0) <-> code = "GOAL_PFC" \/ code = "GOAL_OPP").
Proof.
  intros Hin Hcode.
  split; [reflexivity |].
  split; [apply (bool_decide_unpack _); vm_compute; reflexivity |].
  assert (Hty : forall ty : string * string * bool, ty ∈ EVENT_TYPES ->
            (JS.startsWith code ty.1.1 = true
             <-> code = ty.1.1 +:+ "_PFC" \/ code = ty.1.1 +:+ "_OPP")).
  { intros ty Ht. apply typeCodes_cases in Ht. apply gridCodes_cases in Hin.
    destruct Ht as [-> | [-> | [-> | [-> | [-> | ->]]]]];
      destruct Hin as [-> | [-> | [-> | [-> | [-> | [-> | [-> | [-> | [-> | [-> | [-> | ->]]]]]]]]]]];
      (split; [intros H; vm_compute in H; first [discriminate H | by left | by right]
              | intros [H | H]; first [discriminate H | reflexivity]]). }
  assert (Hsd : forall sd, sd = "PFC" \/ sd = "OPP" ->
            (JS.endsWith code ("_" +:+ sd) = true
             <-> exists ty, ty ∈ EVENT_TYPES /\ code = ty.1.1 +:+ "_" +:+ sd)).
  { intros sd Hsd. apply gridCodes_cases in Hin.
    destruct Hsd as [-> | ->];
      destruct Hin as [-> | [-> | [-> | [-> | [-> | [-> | [-> | [-> | [-> | [-> | [-> | ->]]]]]]]]]]];
      (split;
       [intros H; vm_compute in H; first
          [ discriminate H
          | exists ("GK", "GOAL KICK", false); split;
              [apply list_elem_of_In; simpl; tauto | reflexivity]
          | exists ("CK", "CORNER", false); split;
              [apply list_elem_of_In; simpl; tauto | reflexivity]
          | exists ("FK", "FREE KICK", false); split;
              [apply list_elem_of_In; simpl; tauto | reflexivity]
          | exists ("KO", "KICKOFF", false); split;
              [apply list_elem_of_In; simpl; tauto | reflexivity]
          | exists ("SO", "SIDEOUT", false); split;
              [apply list_elem_of_In; simpl; tauto | reflexivity]
          | exists ("GOAL", "GOAL", true); split;
              [apply list_elem_of_In; simpl; tauto | reflexivity] ]
       | intros (ty & Ht & Heq); apply typeCodes_cases in Ht;
         destruct ty as [[c l] b]; simpl in Ht, Heq;
         destruct Ht as [-> | [-> | [-> | [-> | [-> | ->]]]]];
         first [discriminate Heq | reflexivity] ]). }
  split.
  { apply gridCodes_cases in Hin.
    destruct Hin as [-> | [-> | [-> | [-> | [-> | [-> | [-> | [-> | [-> | [-> | [-> | ->]]]]]]]]]]];
      vm_compute; eauto. }
  split.
  { intros ty Hin'. rewrite <- (Hty ty Hin'). unfold filterCallback.
    change (String.eqb "all" "all") with true. cbn [negb andb]. rewrite Hcode.
    destruct (String.eqb ty.1.1 "all") eqn:Hall.
    - apply String.eqb_eq in Hall. apply typeCodes_cases in Hin'.
      rewrite Hall in Hin'. intuition discriminate.
    - cbn [negb andb]. by destruct (JS.startsWith code ty.1.1). }
  split.
  { intros sd Hsd'. rewrite <- (Hsd sd Hsd'). unfold filterCallback.
    change (String.eqb "all" "all") with true. cbn [negb andb]. rewrite Hcode.
    destruct Hsd' as [-> | ->]; change (String.eqb _ "all") with false;
      cbn [negb andb]; by destruct (JS.endsWith code _). }
  apply gridCodes_cases in Hin.
  destruct Hin as [-> | [-> | [-> | [-> | [-> | [-> | [-> | [-> | [-> | [-> | [-> | ->]]]]]]]]]]];
    (split; [reflexivity |]);
    (split; [intros H; first [by left | by right | exfalso; apply H; reflexivity]
            | intros [H | H]; first [discriminate H | intros H'; discriminate H']]).
Qed.

Lemma grid_codes_agree_witness :
  "CK_OPP" ∈ gridCodes
  /\ is_Some (lookupKey "CK_OPP" EVENT_DISPLAY).
Proof.
  assert (Hin : "CK_OPP" ∈ gridCodes)
    by (apply (bool_decide_unpack _); vm_compute; reflexivity).
  split; [exact Hin |].
  exact (proj1 (proj2 (proj2 (grid_codes_agree "CK_OPP" (sampleEvent 1 5 "CK_OPP" "ev_1")
                                Hin eq_refl)))).
Defined.

(** ** Saved games: the list and what a tap on it loads *)

Section SavedMore.

Lemma unesc_esc s : unesc (esc (Some s)) = s.
Proof.
  induction s as [| x r IH]; [reflexivity |].
  by rewrite esc_cons, unesc_escChar, IH.
Qed.

Lemma find_Some_elem {A} (f : A -> bool) (l : list A) x :
  List.find f l = Some x -> x ∈ l /\ f x = true.
Proof.
  intros H. apply find_some in H as [Hin Hf]. split; [by apply list_elem_of_In | done].
Qed.

Lemma loadSavedGame_None gameId s :
  List.find (fun g => String.eqb (game_id g) gameId) (dbGetAll STORE_GAMES (db s)) = None ->
  loadSavedGame gameId s = setCurrentGame None s.
Proof. intros H. unfold loadSavedGame. by rewrite H. Qed.

Lemma loadSavedGame_Some gameId s g :
  List.find (fun g => String.eqb (game_id g) gameId) (dbGetAll STORE_GAMES (db s)) = Some g ->
  let L := JS.sort compareEvents (dbGetEventsByGame gameId (db s)) in
  core (loadSavedGame gameId s)
  = (db s, Some g, L, currentHalf s, clockSeconds s, clockInterval s, false)
  /\ screen (dom (loadSavedGame gameId s)) = review
  /\ review_score (dom (loadSavedGame gameId s)) = Some (reviewScore L)
  /\ events_list (dom (loadSavedGame gameId s)) = L
  /\ (filter_half (dom (loadSavedGame gameId s)), filter_team (dom (loadSavedGame gameId s)),
      filter_type (dom (loadSavedGame gameId s))) = ("all", "all", "all")
  /\ btn_resume_logging_hidden (dom (loadSavedGame gameId s)) = true.
Proof.
  intros H L.
  assert (E : loadSavedGame gameId s
              = showScreen review
                  (openReviewScreen
                     (onDom (fun d => setHidden (btn_half2_hidden d) (btn_end_game_hidden d)
                                        true d)
                        (setGameActive false
                           (setCurrentEvents L (setCurrentGame (Some g) s)))))).
  { unfold loadSavedGame. by rewrite H. }
  rewrite E. clearbody L. clear E H.
  split.
  { unfold showScreen. by rewrite core_onDom, core_openReviewScreen. }
  simpl. repeat split.
  change (List.filter (filterCallback "all" "all" "all") L = L).
  induction L as [| e L IH]; [done |]. cbn [List.filter].
  change (filterCallback "all" "all" "all" e) with true. cbv iota. by rewrite IH.
Qed.

Lemma dbGetEventsByGame_elem gameId st e :
  e ∈ dbGetEventsByGame gameId st
  <-> (exists k, events st !! k = Some e) /\ ev_game_id e = gameId.
Proof.
  unfold dbGetEventsByGame. rewrite list_elem_of_In, filter_In, <- list_elem_of_In.
  rewrite dbGetAll_events_lookup, String.eqb_eq. done.
Qed.

Lemma sort_elem {A} (cmp : A -> A -> option Z) (l : list A) x :
  x ∈ JS.sort cmp l <-> x ∈ l.
Proof. by rewrite (sort_Permutation cmp l). Qed.

Lemma zip_map_elem {A B} (f : A -> B) (l : list A) x y :
  (x, y) ∈ zip l (map f l) -> x ∈ l /\ y = f x.
Proof.
  induction l as [| a l IH]; simpl; intros H; [by apply elem_of_nil in H |].
  apply elem_of_cons in H as [[= -> ->] | H].
  - split; [left | done].
  - destruct (IH H) as [Hin ->]. split; [by right | done].
Qed.

Lemma games_list_elem s g n :
  (g, n) ∈ games_list (dom (viewSavedGames s)) ->
  g ∈ dbGetAll STORE_GAMES (db s)
  /\ n = length (dbGetEventsByGame (game_id g) (db s)).
Proof.
  unfold viewSavedGames.
  destruct (JS.sort compareGames (dbGetAll STORE_GAMES (db s))) as [| g0 l] eqn:E.
  - intros H. by apply elem_of_nil in H.
  - change (games_list _) with
      (zip (g0 :: l) (map (fun g => length (dbGetEventsByGame (game_id g) (db s))) (g0 :: l))).
    intros H. apply zip_map_elem in H as [Hin ->]. split; [| done].
    rewrite <- E in Hin. by apply sort_elem in Hin.
Qed.

Lemma core_viewSavedGames s : core (viewSavedGames s) = core s.
Proof.
  unfold viewSavedGames, showScreen. destruct (JS.sort _ _); by rewrite !core_onDom.
Qed.

End SavedMore.

(** X20. [loadSavedGame] never starts a live session and never writes.
    The store, the half and the clock are as before, and a tap on an event
    button afterwards records nothing, whether the id was found or not.
    When no stored game has the id, the current game is dropped and nothing
    else changes (the events of the earlier game stay in memory). When one
    has, it becomes the current game, every event in memory carries that
    game id, and the review screen is shown with the score of those events,
    all three filters on "all", the whole list displayed and the resume
    button hidden. *)
Theorem loadSavedGame_outcomes (gameId : string) (s : Session)
    (eventCode : string) (now : Z) (rnd : string) (stamp : Z) (putOk : bool) :
  let s' := loadSavedGame gameId s in
  let found := List.find (fun g => String.eqb (game_id g) gameId)
                 (dbGetAll STORE_GAMES (db s)) in
  currentGame s' = found
  /\ db s' = db s
  /\ (currentHalf s', clockSeconds s', clockInterval s')
     = (currentHalf s, clockSeconds s, clockInterval s)
  /\ logEvent eventCode now rnd stamp putOk s' = s'
  /\ (found = None -> s' = setCurrentGame None s)
  /\ (forall g, found = Some g ->
        game_id g = gameId /\ g ∈ dbGetAll STORE_GAMES (db s)
        /\ gameActive s' = false
        /\ Forall (fun e => ev_game_id e = gameId) (currentEvents s')
        /\ screen (dom s') = review
        /\ review_score (dom s') = Some (reviewScore (currentEvents s'))
        /\ events_list (dom s') = currentEvents s'
        /\ (filter_half (dom s'), filter_team (dom s'), filter_type (dom s'))
           = ("all", "all", "all")
        /\ btn_resume_logging_hidden (dom s') = true).
Proof.
  intros s' found.
  destruct found as [g |] eqn:Hfound; subst found.
  - destruct (loadSavedGame_Some gameId s g Hfound) as (Hcore & Hscr & Hrs & Hel & Hfl & Hbtn).
    fold s' in Hcore, Hscr, Hrs, Hel, Hfl, Hbtn. unfold core in Hcore.
    assert (Hev : currentEvents s'
                  = JS.sort compareEvents (dbGetEventsByGame gameId (db s))) by congruence.
    assert (Ha : gameActive s' = false) by congruence.
    split; [congruence |]. split; [congruence |].
    split.
    { assert (E1 : currentHalf s' = currentHalf s) by congruence.
      assert (E2 : clockSeconds s' = clockSeconds s) by congruence.
      assert (E3 : clockInterval s' = clockInterval s) by congruence.
      by rewrite E1, E2, E3. }
    split; [apply logEvent_not_live; by right |].
    split; [done |].
    intros g' [= <-]. apply find_Some_elem in Hfound as [Hin Hid].
    apply String.eqb_eq in Hid.
    split; [exact Hid |]. split; [exact Hin |]. split; [exact Ha |].
    split.
    { rewrite Hev. apply Forall_forall. intros e He.
      apply sort_elem, dbGetEventsByGame_elem in He as [_ He]. exact He. }
    rewrite Hev. done.
  - assert (Hs' : s' = setCurrentGame None s) by apply (loadSavedGame_None gameId s Hfound).
    clearbody s'. subst s'. split; [done |]. split; [done |]. split; [done |].
    split; [apply logEvent_not_live; by left |].
    split; [done |]. intros g Hg. discriminate Hg.
Qed.

Lemma loadSavedGame_outcomes_witness :
  loadSavedGame "game_77" savedSession = setCurrentGame None savedSession.
Proof.
  refine (proj1 (proj2 (proj2 (proj2 (proj2
            (loadSavedGame_outcomes "game_77" savedSession "GOAL_PFC" 1 "abcde" 2 true)))))
            _).
  vm_compute. reflexivity.
Defined.

(** X21. A card of the saved-games list opens its own game. Every card
    that [viewSavedGames] shows stands for a stored game, and the count on
    it is the number of stored events with that game's id; the id goes into
    the card through [esc] and comes back unchanged when the attribute is
    read, so the tap loads a game with exactly that id, the list then held
    in memory has as many events as the card announced, and none of them
    belongs to another game. Showing the list changes no session
    variable. *)
Theorem saved_game_card_opens_its_game (s : Session) (g : Game) (n : nat) :
  (g, n) ∈ games_list (dom (viewSavedGames s)) ->
  let s' := loadSavedGame (unesc (esc (Some (game_id g)))) (viewSavedGames s) in
  core (viewSavedGames s) = core s
  /\ g ∈ dbGetAll STORE_GAMES (db s)
  /\ n = length (dbGetEventsByGame (game_id g) (db s))
  /\ (exists g', currentGame s' = Some g' /\ game_id g' = game_id g
                 /\ g' ∈ dbGetAll STORE_GAMES (db s))
  /\ length (currentEvents s') = n
  /\ Forall (fun e => ev_game_id e = game_id g) (currentEvents s')
  /\ gameActive s' = false /\ db s' = db s.
Proof.
  intros Hcard s'. subst s'. rewrite unesc_esc.
  set (s' := loadSavedGame (game_id g) (viewSavedGames s)).
  destruct (games_list_elem s g n Hcard) as [Hin Hn].
  pose proof (core_viewSavedGames s) as Hcv. unfold core in Hcv.
  assert (Hdb : db (viewSavedGames s) = db s) by congruence.
  split; [apply core_viewSavedGames |]. split; [exact Hin |]. split; [exact Hn |].
  destruct (find_is_Some (fun g0 => String.eqb (game_id g0) (game_id g))
              (dbGetAll STORE_GAMES (db (viewSavedGames s))) g) as [g' Hg'].
  { by rewrite Hdb. }
  { by apply String.eqb_eq. }
  destruct (loadSavedGame_Some (game_id g) (viewSavedGames s) g' Hg') as (Hcore & _).
  fold s' in Hcore. unfold core in Hcore.
  assert (Hev : currentEvents s'
     = JS.sort compareEvents (dbGetEventsByGame (game_id g) (db (viewSavedGames s))))
    by congruence.
  apply find_Some_elem in Hg' as [Hin' Hid']. apply String.eqb_eq in Hid'.
  split; [exists g'; split; [congruence | split; [exact Hid' | by rewrite <- Hdb]] |].
  split.
  { rewrite Hev, Hdb, Hn. apply Permutation_length, sort_Permutation. }
  split.
  { rewrite Hev. apply Forall_forall. intros e He.
    apply sort_elem, dbGetEventsByGame_elem in He as [_ He]. exact He. }
  split; congruence.
Qed.

Lemma saved_game_card_opens_its_game_witness :
  (savedGame, 3%nat) ∈ games_list (dom (viewSavedGames savedSession))
  /\ length (currentEvents
               (loadSavedGame (unesc (esc (Some (game_id savedGame))))
                  (viewSavedGames savedSession))) = 3%nat.
Proof.
  assert (Hcard : (savedGame, 3%nat) ∈ games_list (dom (viewSavedGames savedSession))).
  { let l := eval vm_compute in (games_list (dom (viewSavedGames savedSession))) in
    change (games_list (dom (viewSavedGames savedSession))) with l.
    left. }
  split; [exact Hcard |].
  exact (proj1 (proj2 (proj2 (proj2 (proj2
           (saved_game_card_opens_its_game savedSession savedGame 3 Hcard)))))).
Defined.

(** ** What is in memory is what is saved *)

Section Sync.

Lemma inSync_syncOf s : inSync s <-> syncOf (db s) (currentGame s) (currentEvents s).
Proof. reflexivity. Qed.














End Sync.

Section SyncSteps.

Lemma sameData_core s s' :
  (exists h c i a, core s' = (db s, currentGame s, currentEvents s, h, c, i, a)) ->
  sameData s s'.
Proof.
  intros (h & c & i & a & H). unfold core in H. unfold sameData.
  repeat split; congruence.
Qed.

Lemma sameData_typeNames opp lg s : sameData s (typeNames opp lg s).
Proof. apply sameData_core. do 4 eexists. unfold typeNames. by rewrite core_onDom. Qed.

Lemma sameData_tick s : sameData s (tick s).
Proof.
  apply sameData_core. unfold tick. destruct (clockInterval s); by do 4 eexists.
Qed.

Lemma sameData_startClock s : sameData s (startClock s).
Proof. apply sameData_core. rewrite startClock_eq. by do 4 eexists. Qed.

Lemma sameData_stopClock s : sameData s (stopClock s).
Proof. apply sameData_core. rewrite stopClock_eq. by do 4 eexists. Qed.

Lemma sameData_startHalf2 s : sameData s (startHalf2 s).
Proof.
  apply sameData_core. do 4 eexists. unfold startHalf2, showToast.
  rewrite core_onDom, startClock_eq, stopClock_eq. reflexivity.
Qed.

Lemma sameData_openReviewScreen s : sameData s (openReviewScreen s).
Proof. apply sameData_core. do 4 eexists. by rewrite core_openReviewScreen. Qed.

Lemma sameData_endGame s : sameData s (endGame s).
Proof.
  apply sameData_core. do 4 eexists. unfold endGame, showScreen.
  rewrite core_onDom, core_openReviewScreen, core_onDom, stopClock_eq. reflexivity.
Qed.

Lemma sameData_resumeLogging s : sameData s (resumeLogging s).
Proof.
  apply sameData_core. unfold resumeLogging. rewrite updateScoreboard_eq.
  unfold showScreen.
  destruct (negb _ && _); [rewrite startClock_eq |]; by do 4 eexists.
Qed.

Lemma sameData_backToSetup confirmed s : sameData s (backToSetup confirmed s).
Proof.
  apply sameData_core. unfold backToSetup. rewrite stopClock_eq. unfold showScreen.
  destruct (gameActive s), confirmed; by do 4 eexists.
Qed.

Lemma sameData_onDom f s : sameData s (onDom f s).
Proof. apply sameData_core. do 4 eexists. by rewrite core_onDom. Qed.

Lemma sameData_changeFilters h t ty s : sameData s (changeFilters h t ty s).
Proof.
  apply sameData_core. do 4 eexists. unfold changeFilters, renderEventsList.
  by rewrite !core_onDom.
Qed.

Lemma sameData_viewSavedGames s : sameData s (viewSavedGames s).
Proof. apply sameData_core. do 4 eexists. by rewrite core_viewSavedGames. Qed.


Lemma syncOf_None st L : syncOf st None L.
Proof. exact I. Qed.



End SyncSteps.



(** X23. Moving about never touches the data. Typing the names, a clock
    tick, starting and stopping the clock, the change to Half 2, opening
    the review, ending the game, resuming, going back to setup (confirmed
    or not), changing the filters, typing offsets, showing the saved games
    and showing the setup screen all leave the store, the current game and
    the event list exactly as they were. *)
Theorem navigation_keeps_data (s : Session) (opp lg h t ty a1 a2 : string)
    (confirmed : bool) :
  Forall (fun s' => db s' = db s /\ currentGame s' = currentGame s
                    /\ currentEvents s' = currentEvents s)
    [typeNames opp lg s; tick s; startClock s; stopClock s; startHalf2 s;
     openReviewScreen s; endGame s; resumeLogging s; backToSetup confirmed s;
     changeFilters h t ty s; onDom (setAdjust a1 a2) s; viewSavedGames s;
     showScreen setup s].
Proof.
  repeat apply Forall_cons_2; try apply Forall_nil_2.
  - apply sameData_typeNames.
  - apply sameData_tick.
  - apply sameData_startClock.
  - apply sameData_stopClock.
  - apply sameData_startHalf2.
  - apply sameData_openReviewScreen.
  - apply sameData_endGame.
  - apply sameData_resumeLogging.
  - apply sameData_backToSetup.
  - apply sameData_changeFilters.
  - apply (sameData_onDom (setAdjust a1 a2)).
  - apply sameData_viewSavedGames.
  - apply (sameData_onDom (setScreen setup)).
Qed.

(** ** The service worker *)

Section ServiceWorker.

Import SW.

Lemma cachesMatch_app u (cs cs' : CacheStorage) :
  cachesMatch u (cs ++ cs')
  = match cachesMatch u cs with Some r => Some r | None => cachesMatch u cs' end.
Proof.
  induction cs as [| nc cs IH]; [done |]. simpl.
  destruct (nc.2 !! u); [done | exact IH].
Qed.

(** After a change [f] to the cache [name] that puts [r] under [u], a URL
    that no cache had is answered with [r]. *)
Lemma cachesMatch_onCache_new name f u r (cs : CacheStorage) :
  (forall c, f c !! u = Some r) ->
  cachesMatch u cs = None ->
  cachesMatch u (onCache name f cs) = Some r.
Proof.
  intros Hf. unfold onCache, cachesOpen.
  assert (Hgen : forall extra : CacheStorage,
            cachesMatch u cs = None ->
            hasCache name cs || hasCache name extra = true ->
            Forall (fun nc => nc.2 !! u = None) extra ->
            cachesMatch u
              (map (fun nc => if String.eqb nc.1 name then (nc.1, f nc.2) else nc)
                 (cs ++ extra)) = Some r).
  { intros extra. induction cs as [| nc cs IH]; intros Hnone Hhas Hextra.
    - simpl in Hhas. simpl app. clear Hnone.
      induction Hextra as [| nc extra Hnc Hextra IH]; [done |].
      simpl in Hhas. simpl.
      destruct (String.eqb nc.1 name) eqn:E; simpl.
      + by rewrite Hf.
      + rewrite Hnc. apply IH. exact Hhas.
    - simpl in Hnone. destruct (nc.2 !! u) eqn:Hu; [done |].
      simpl in Hhas. simpl.
      destruct (String.eqb nc.1 name) eqn:E; simpl.
      + by rewrite Hf.
      + rewrite Hu. by apply IH. }
  intros Hnone. destruct (hasCache name cs) eqn:Hhas.
  - specialize (Hgen [] Hnone). rewrite app_nil_r in Hgen.
    apply Hgen; [done | constructor].
  - apply Hgen; [done | | by repeat constructor].
    simpl. by rewrite String.eqb_refl.
Qed.

(** A change to the cache [name] that leaves [v] alone in every cache
    leaves the answer for [v] alone. *)
Lemma cachesMatch_onCache_other name f v (cs : CacheStorage) :
  (forall c, f c !! v = c !! v) ->
  cachesMatch v (onCache name f cs) = cachesMatch v cs.
Proof.
  intros Hf. unfold onCache, cachesOpen.
  assert (Hmap : forall l : CacheStorage,
            cachesMatch v
              (map (fun nc => if String.eqb nc.1 name then (nc.1, f nc.2) else nc) l)
            = cachesMatch v l).
  { induction l as [| nc l IH]; [done |]. simpl.
    destruct (String.eqb nc.1 name); simpl; rewrite ?Hf, IH; done. }
  rewrite Hmap. destruct (hasCache name cs); [done |].
  rewrite cachesMatch_app. simpl. by destruct (cachesMatch v cs).
Qed.

Lemma deleteAll_filter (keys : list string) : forall cs : CacheStorage,
  fold_left (fun cs key => cachesDelete key cs) keys cs
  = List.filter (fun nc => negb (existsb (String.eqb nc.1) keys)) cs.
Proof.
  induction keys as [| k keys IH]; intros cs.
  - simpl. induction cs as [| nc cs IHc]; [done |]. simpl. by rewrite <- IHc.
  - simpl fold_left. rewrite IH. unfold cachesDelete.
    induction cs as [| nc cs IHc]; [done |]. simpl.
    destruct (String.eqb nc.1 k); simpl; [exact IHc |].
    destruct (existsb (String.eqb nc.1) keys); simpl; by rewrite IHc.
Qed.

Lemma onActivate_filter (cs : CacheStorage) :
  onActivate cs = List.filter (fun nc => String.eqb nc.1 CACHE_NAME) cs.
Proof.
  unfold onActivate. rewrite deleteAll_filter. apply filter_ext_in.
  intros nc Hin. destruct (String.eqb_spec nc.1 CACHE_NAME) as [Heq | Hne].
  - apply negb_true_iff. apply not_true_is_false. intros H.
    apply existsb_exists in H as (k & Hk & Hkeq).
    apply filter_In in Hk as [_ Hk]. apply String.eqb_eq in Hkeq. subst k.
    rewrite Heq in Hk. by rewrite String.eqb_refl in Hk.
  - apply negb_false_iff. apply existsb_exists. exists nc.1. split.
    + apply filter_In. split; [by apply in_map |].
      apply negb_true_iff. by apply String.eqb_neq.
    + apply String.eqb_refl.
Qed.

Lemma filter_current_onCache f (cs : CacheStorage) :
  List.filter (fun nc => String.eqb nc.1 CACHE_NAME) (onCache CACHE_NAME f cs)
  = map (fun nc => (nc.1, f nc.2))
      (List.filter (fun nc => String.eqb nc.1 CACHE_NAME) (cachesOpen CACHE_NAME cs)).
Proof.
  unfold onCache. induction (cachesOpen CACHE_NAME cs) as [| nc l IH]; [done |].
  simpl. destruct (String.eqb nc.1 CACHE_NAME) eqn:E; simpl; rewrite E; simpl;
    by rewrite IH.
Qed.

Lemma current_exists (cs : CacheStorage) :
  List.filter (fun nc => String.eqb nc.1 CACHE_NAME) (cachesOpen CACHE_NAME cs) <> [].
Proof.
  unfold cachesOpen. destruct (hasCache CACHE_NAME cs) eqn:Hhas.
  - unfold hasCache in Hhas. apply existsb_exists in Hhas as (nc & Hin & Hnc).
    intros Hnil. assert (Hin' : In nc []); [| done].
    rewrite <- Hnil. apply filter_In. by split.
  - rewrite List.filter_app. simpl. change (String.eqb CACHE_NAME CACHE_NAME) with true.
    cbv iota. by destruct (List.filter _ cs).
Qed.

Lemma cachesMatch_first f u r (l : CacheStorage) :
  l <> [] -> (forall c, f c !! u = Some r) ->
  cachesMatch u (map (fun nc => (nc.1, f nc.2)) l) = Some r.
Proof. intros Hl Hf. destruct l as [| nc l]; [done |]. simpl. by rewrite Hf. Qed.

Lemma lookup_insertAll (l : list (string * Response)) : forall (c : Cache) u,
  NoDup l.*1 ->
  fold_left (fun c ur => <[ur.1 := ur.2]> c) l c !! u
  = match list_to_map (M := gmap string Response) l !! u with
    | Some r => Some r
    | None => c !! u
    end.
Proof.
  induction l as [| [k r] l IH]; intros c u Hnd; [done |].
  simpl in Hnd. apply NoDup_cons in Hnd as [Hk Hnd].
  simpl fold_left. rewrite IH by done. simpl list_to_map.
  destruct (decide (u = k)) as [-> | Hne].
  - rewrite lookup_insert_eq.
    rewrite (not_elem_of_list_to_map_1 (M := gmap string) l k Hk).
    apply (lookup_insert_eq (M := gmap string)).
  - rewrite (lookup_insert_ne (list_to_map l)) by done.
    destruct (list_to_map l !! u); [done |].
    by apply (lookup_insert_ne (M := gmap string)).
Qed.

Lemma mapM_fetchOk net (urls : list string) rs :
  mapM (fetchOk net) urls = Some rs ->
  length rs = length urls
  /\ forall u, u ∈ urls -> exists r, fetchOk net u = Some r /\ (u, r) ∈ zip urls rs.
Proof.
  intros H. apply mapM_Some in H.
  induction H as [| u r urls rs Hur H IH]; [split; [done | by intros u Hu%elem_of_nil] |].
  destruct IH as [Hlen IH]. split; [simpl; by rewrite Hlen |].
  intros v [-> | Hv]%elem_of_cons.
  - exists r. split; [done | left].
  - destruct (IH v Hv) as (r' & Hr' & Hin). exists r'. split; [done | by right].
Qed.

Lemma addAll_lookup net (urls : list string) (c c' : Cache) u :
  NoDup urls -> addAll net urls c = Some c' -> u ∈ urls ->
  c' !! u = fetchOk net u /\ is_Some (fetchOk net u).
Proof.
  intros Hnd Hadd Hu. unfold addAll in Hadd.
  destruct (mapM (fetchOk net) urls) as [rs |] eqn:Hm; [| done].
  simpl in Hadd. injection Hadd as <-.
  destruct (mapM_fetchOk net urls rs Hm) as [Hlen Hall].
  destruct (Hall u Hu) as (r & Hr & Hin).
  assert (Hfst : (zip urls rs).*1 = urls) by (apply fst_zip; lia).
  rewrite lookup_insertAll by (by rewrite Hfst).
  rewrite Hr. split; [| by eexists].
  assert (Hl : list_to_map (M := gmap string Response) (zip urls rs) !! u = Some r).
  { apply elem_of_list_to_map_1; [by rewrite Hfst | done]. }
  by rewrite Hl.
Qed.

Lemma addAll_None net (urls : list string) (c : Cache) :
  addAll net urls c = None <-> exists u, u ∈ urls /\ fetchOk net u = None.
Proof.
  unfold addAll. split.
  - destruct (mapM (fetchOk net) urls) as [rs |] eqn:Hm; [done |]. intros _.
    apply mapM_None in Hm. apply Exists_exists in Hm. exact Hm.
  - intros (u & Hu & Hnone).
    destruct (mapM (fetchOk net) urls) as [rs |] eqn:Hm; [| done].
    destruct (mapM_fetchOk net urls rs Hm) as [_ Hall].
    destruct (Hall u Hu) as (r & Hr & _). congruence.
Qed.

Lemma addOne_fold_lookup net (urls : list string) : forall (c : Cache) u,
  fold_left (addOne net) urls c !! u
  = if decide (u ∈ urls)
    then match fetchOk net u with Some r => Some r | None => c !! u end
    else c !! u.
Proof.
  induction urls as [| k urls IH]; intros c u.
  - simpl. destruct (decide (u ∈ [])) as [H | _]; [by apply elem_of_nil in H | done].
  - simpl fold_left. rewrite IH.
    destruct (decide (u = k)) as [-> | Hne].
    + rewrite (decide_True (P := k ∈ k :: urls)) by left.
      unfold addOne.
      destruct (fetchOk net k) as [r |] eqn:Hk.
      * destruct (decide (k ∈ urls));
          [done | by apply (lookup_insert_eq (M := gmap string))].
      * by destruct (decide (k ∈ urls)).
    + assert (Hc : addOne net c k !! u = c !! u).
      { unfold addOne. destruct (fetchOk net k); [| done].
        by apply (lookup_insert_ne (M := gmap string)). }
      rewrite Hc. destruct (decide (u ∈ urls)) as [Hin | Hnin].
      * by rewrite decide_True by (by right).
      * rewrite decide_False; [done |]. by intros [? | ?]%elem_of_cons.
Qed.

Lemma ASSETS_NoDup : NoDup ASSETS.
Proof. apply (bool_decide_unpack _). vm_compute. reflexivity. Qed.

End ServiceWorker.

(** X24. After [install] and [activate] the app shell is served from the
    cache. When every asset could be fetched while installing, each asset
    is afterwards answered with the response fetched then; when some asset
    failed, each asset that could be fetched in the one-by-one attempt is
    answered with that response. Such an answer is given to a GET request
    whatever the network does, the network being down included, and it
    leaves the caches as they are. After [activate] only caches of the
    current name are left. *)
Theorem sw_assets_served_from_cache (net net' net2 : SW.Network)
    (cs : SW.CacheStorage) (req : SW.Request) :
  SW.url req ∈ SW.ASSETS -> SW.method req = "GET" ->
  let cs1 := SW.onActivate (SW.onInstall net net' cs) in
  (Forall (fun v => is_Some (SW.fetchOk net v)) SW.ASSETS ->
     SW.cachesMatch (SW.url req) cs1 = SW.fetchOk net (SW.url req)
     /\ is_Some (SW.cachesMatch (SW.url req) cs1))
  /\ (Exists (fun v => SW.fetchOk net v = None) SW.ASSETS ->
      forall r, SW.fetchOk net' (SW.url req) = Some r ->
        SW.cachesMatch (SW.url req) cs1 = Some r)
  /\ (forall r, SW.cachesMatch (SW.url req) cs1 = Some r ->
        SW.onFetch net2 req cs1 = (cs1, SW.Answered (Some r)))
  /\ Forall (fun nc => nc.1 = SW.CACHE_NAME) cs1.
Proof.
  intros Hu Hget cs1.
  assert (Hcs1 : forall r,
            (forall c, match SW.addAll net SW.ASSETS c with
                       | Some c' => c'
                       | None => fold_left (SW.addOne net') SW.ASSETS c
                       end !! SW.url req = Some r) ->
            SW.cachesMatch (SW.url req) cs1 = Some r).
  { intros r Hf. subst cs1. unfold SW.onInstall.
    rewrite onActivate_filter, filter_current_onCache.
    apply (cachesMatch_first
             (fun c => match SW.addAll net SW.ASSETS c with
                       | Some c' => c'
                       | None => fold_left (SW.addOne net') SW.ASSETS c
                       end) _ r); [apply current_exists | exact Hf]. }
  split.
  { intros Hall. rewrite Forall_forall in Hall.
    destruct (Hall _ Hu) as [r Hr]. rewrite Hr.
    split; [| eexists]; apply Hcs1; intros c;
      (destruct (SW.addAll net SW.ASSETS c) as [c' |] eqn:Hadd;
       [ destruct (addAll_lookup net SW.ASSETS c c' _ ASSETS_NoDup Hadd Hu) as [Hl _];
         by rewrite Hl
       | apply addAll_None in Hadd as (v & Hv & Hnone);
         destruct (Hall v Hv) as [r' Hr']; congruence ]). }
  split.
  { intros Hex r Hr. apply Exists_exists in Hex as (v & Hv & Hnone).
    apply Hcs1. intros c.
    assert (Hadd : SW.addAll net SW.ASSETS c = None).
    { apply addAll_None. by exists v. }
    rewrite Hadd, addOne_fold_lookup, decide_True by done. by rewrite Hr. }
  split.
  { intros r Hr. unfold SW.onFetch. by rewrite Hget, Hr. }
  subst cs1. rewrite onActivate_filter. apply Forall_forall. intros nc Hin.
  apply list_elem_of_In, filter_In in Hin as [_ Hin]. by apply String.eqb_eq.
Qed.

Lemma sw_assets_served_from_cache_witness :
  let net : SW.Network := fun u => Some (SW.mkResponse 200 false u) in
  let down : SW.Network := fun _ => None in
  let req := SW.mkRequest "GET" "./app.js" None in
  SW.url req ∈ SW.ASSETS /\ SW.method req = "GET"
  /\ is_Some (SW.cachesMatch (SW.url req) (SW.onActivate (SW.onInstall net down []))).
Proof.
  intros net down req.
  assert (Hu : SW.url req ∈ SW.ASSETS)
    by (apply (bool_decide_unpack _); vm_compute; reflexivity).
  split; [exact Hu |]. split; [reflexivity |].
  refine (proj2 (proj1 (sw_assets_served_from_cache net down down [] req Hu eq_refl) _)).
  apply Forall_forall. intros v _. by eexists.
Defined.

(** X25. [activate] deletes every cache whose name is not the current
    one and nothing else: what is left are the caches of the current name,
    with their contents and in their order, so a URL that only an old cache
    held is no longer answered from the cache; a second [activate] changes
    nothing. *)
Theorem sw_activate_keeps_only_current (cs : SW.CacheStorage) (u : string) :
  SW.onActivate cs = List.filter (fun nc => String.eqb nc.1 SW.CACHE_NAME) cs
  /\ Forall (fun nc => nc.1 = SW.CACHE_NAME) (SW.onActivate cs)
  /\ (forall nc, nc ∈ cs -> nc.1 = SW.CACHE_NAME -> nc ∈ SW.onActivate cs)
  /\ (Forall (fun nc => nc.1 = SW.CACHE_NAME -> nc.2 !! u = None) cs ->
      SW.cachesMatch u (SW.onActivate cs) = None)
  /\ SW.onActivate (SW.onActivate cs) = SW.onActivate cs.
Proof.
  rewrite !onActivate_filter.
  split; [done |]. split.
  { apply Forall_forall. intros nc Hin.
    apply list_elem_of_In, filter_In in Hin as [_ Hin]. by apply String.eqb_eq. }
  split.
  { intros nc Hin Heq. apply list_elem_of_In, filter_In. split.
    - by apply list_elem_of_In.
    - by apply String.eqb_eq. }
  split.
  { induction 1 as [| nc l Hnc _ IH]; [done |]. simpl.
    destruct (String.eqb_spec nc.1 SW.CACHE_NAME) as [Heq | _]; [| exact IH].
    simpl. by rewrite (Hnc Heq). }
  induction cs as [| nc cs IH]; [done |]. simpl.
  destruct (String.eqb nc.1 SW.CACHE_NAME) eqn:E; [| exact IH].
  simpl. by rewrite E, IH.
Qed.

Lemma sw_activate_keeps_only_current_witness :
  SW.cachesMatch "./old.js"
    (SW.onActivate [("gamemoments-v0", {["./old.js" := SW.mkResponse 200 false "old"]});
                    (SW.CACHE_NAME, ∅)]) = None.
Proof.
  refine (proj1 (proj2 (proj2 (proj2 (sw_activate_keeps_only_current _ "./old.js")))) _).
  repeat constructor; intros H; discriminate H.
Defined.

(** X26. The [fetch] listener is cache first. A request that is not a
    GET is left to the browser. A GET for a URL that some cache holds is
    answered from the cache, without a look at the network and without a
    change to the caches. A GET for a URL that no cache holds is answered
    with what the network gives; a response with status 200 that is not of
    type error is put in the current cache, after which the same request is
    answered with it whatever the network does then, and the answers for
    other URLs are as before; any other response is passed on and not
    stored. When the network fails, a request that accepts [text/html] is
    answered with the cached [./index.html] (with nothing, when there is
    none), any other request with nothing, and the caches stay as they
    are. *)
Theorem sw_fetch_cache_first (net net2 : SW.Network) (req : SW.Request)
    (cs : SW.CacheStorage) :
  let out := SW.onFetch net req cs in
  (SW.method req <> "GET" -> out = (cs, SW.NotHandled))
  /\ (SW.method req = "GET" ->
      (forall r, SW.cachesMatch (SW.url req) cs = Some r ->
         out = (cs, SW.Answered (Some r)))
      /\ (SW.cachesMatch (SW.url req) cs = None ->
          (forall r, net (SW.url req) = Some r ->
             out.2 = SW.Answered (Some r)
             /\ (SW.status r = 200 -> SW.isErrorType r = false ->
                   SW.cachesMatch (SW.url req) out.1 = Some r
                   /\ (forall v, v <> SW.url req ->
                         SW.cachesMatch v out.1 = SW.cachesMatch v cs)
                   /\ SW.onFetch net2 req out.1 = (out.1, SW.Answered (Some r)))
             /\ (SW.status r <> 200 \/ SW.isErrorType r = true -> out.1 = cs))
          /\ (net (SW.url req) = None ->
              out = (cs, SW.Answered
                           (if match SW.accept req with
                               | Some a => occurs "text/html" a
                               | None => false
                               end
                            then SW.cachesMatch "./index.html" cs
                            else None))))).
Proof.
  intros out. subst out. unfold SW.onFetch. split.
  { intros Hne. apply String.eqb_neq in Hne. by rewrite Hne. }
  intros Hget. rewrite Hget. simpl negb. cbv iota. split.
  { intros r Hr. by rewrite Hr. }
  intros Hnone. rewrite Hnone. split.
  - intros r Hr. rewrite Hr. split.
    { by destruct (negb (SW.status r =? 200) || SW.isErrorType r). }
    split.
    + intros Hs He. rewrite Hs, He. simpl.
      assert (Hput : SW.cachesMatch (SW.url req)
                (SW.onCache SW.CACHE_NAME (fun c => <[SW.url req := r]> c) cs) = Some r).
      { apply cachesMatch_onCache_new; [| exact Hnone].
        intros c. apply (lookup_insert_eq (M := gmap string)). }
      split; [exact Hput |]. split.
      * intros v Hv. apply cachesMatch_onCache_other.
        intros c. by apply (lookup_insert_ne (M := gmap string)).
      * by rewrite Hput.
    + intros [Hs | He].
      * apply Z.eqb_neq in Hs. by rewrite Hs.
      * rewrite He. by rewrite orb_true_r.
  - intros Hdown. rewrite Hdown.
    destruct (SW.accept req) as [a |]; [| done]. by destruct (occurs "text/html" a).
Qed.

Lemma sw_fetch_cache_first_witness :
  let net : SW.Network := fun u => Some (SW.mkResponse 200 false u) in
  let req := SW.mkRequest "GET" "./data.json" None in
  (SW.onFetch net req []).2
  = SW.Answered (Some (SW.mkResponse 200 false "./data.json")).
Proof.
  intros net req.
  exact (proj1 (proj1 (proj2 (proj2 (sw_fetch_cache_first net net req []) eq_refl)
                         eq_refl) _ eq_refl)).
Defined.

(** ** What the logging screen shows *)

Section Hud.

Lemma hudOf_undo_fail s : hudOf (undoLastEvent false s) = hudOf s.
Proof.
  unfold undoLastEvent. destruct (JS.pop (currentEvents s)) as [[e L] |]; reflexivity.
Qed.

Lemma applyTimeAdjust_hud fault s : hudOf (applyTimeAdjust fault s) = hudOf s.
Proof.
  rewrite applyTimeAdjust_eq. cbv zeta.
  destruct (_ && _); [reflexivity |]. destruct (existsb _ _); reflexivity.
Qed.

Lemma viewSavedGames_hud s :
  currentHalf (viewSavedGames s) = currentHalf s
  /\ btn_half2_hidden (dom (viewSavedGames s)) = btn_half2_hidden (dom s)
  /\ btn_end_game_hidden (dom (viewSavedGames s)) = btn_end_game_hidden (dom s)
  /\ screen (dom (viewSavedGames s)) = gamesScreen.
Proof. unfold viewSavedGames. destruct (JS.sort _ _); repeat split. Qed.

Lemma loadSavedGame_hud gameId s :
  currentHalf (loadSavedGame gameId s) = currentHalf s
  /\ btn_half2_hidden (dom (loadSavedGame gameId s)) = btn_half2_hidden (dom s)
  /\ btn_end_game_hidden (dom (loadSavedGame gameId s)) = btn_end_game_hidden (dom s)
  /\ (screen (dom (loadSavedGame gameId s)) = logging ->
      loadSavedGame gameId s = setCurrentGame None s).
Proof.
  unfold loadSavedGame. destruct (List.find _ _) as [g |]; [| repeat split].
  change (currentGame (setCurrentGame (Some g) s)) with (Some g). cbv iota.
  unfold openReviewScreen.
  change (currentGame (onDom _ (setGameActive false _))) with (Some g). cbv iota.
  repeat split. intros H. discriminate H.
Qed.

Lemma endGame_hud s :
  currentHalf (endGame s) = currentHalf s
  /\ btn_half2_hidden (dom (endGame s)) = btn_half2_hidden (dom s)
  /\ btn_end_game_hidden (dom (endGame s)) = btn_end_game_hidden (dom s)
  /\ screen (dom (endGame s)) = review.
Proof.
  unfold endGame. rewrite stopClock_eq. unfold openReviewScreen.
  change (currentGame (onDom _ (setGameActive false (setClockInterval false s))))
    with (currentGame s).
  destruct (currentGame s); repeat split.
Qed.

Lemma resumeLogging_hud s :
  currentHalf (resumeLogging s) = currentHalf s
  /\ btn_half2_hidden (dom (resumeLogging s)) = btn_half2_hidden (dom s)
  /\ btn_end_game_hidden (dom (resumeLogging s)) = btn_end_game_hidden (dom s)
  /\ (score_pfc (dom (resumeLogging s)), score_opp (dom (resumeLogging s)))
     = scoreboard (currentEvents s)
  /\ currentEvents (resumeLogging s) = currentEvents s.
Proof.
  unfold resumeLogging. rewrite updateScoreboard_eq. unfold showScreen.
  destruct (negb _ && _); [rewrite startClock_eq |]; simpl;
    destruct (scoreboard (currentEvents s)); repeat split.
Qed.

Lemma backToSetup_hud confirmed s :
  currentHalf (backToSetup confirmed s) = currentHalf s
  /\ btn_half2_hidden (dom (backToSetup confirmed s)) = btn_half2_hidden (dom s)
  /\ btn_end_game_hidden (dom (backToSetup confirmed s)) = btn_end_game_hidden (dom s)
  /\ (backToSetup confirmed s = s \/ screen (dom (backToSetup confirmed s)) = setup).
Proof.
  unfold backToSetup. rewrite stopClock_eq.
  destruct (gameActive s), confirmed; repeat split; auto.
Qed.

Lemma logEvent_hud code now rnd stamp s g :
  currentGame s = Some g -> gameActive s = true ->
  let s' := logEvent code now rnd stamp true s in
  currentHalf s' = currentHalf s
  /\ btn_half2_hidden (dom s')
     = (if currentHalf s =? 1 then false else btn_half2_hidden (dom s))
  /\ btn_end_game_hidden (dom s')
     = (if currentHalf s =? 2 then false else btn_end_game_hidden (dom s))
  /\ screen (dom s') = screen (dom s).
Proof.
  intros Hg Hlive. unfold logEvent. rewrite Hg, Hlive. simpl negb. cbv iota.
  rewrite updateScoreboard_eq. simpl.
  destruct (currentHalf s =? 1) eqn:H1; simpl;
    destruct (currentHalf s =? 2) eqn:H2; simpl; repeat split.
Qed.

Lemma logEvent_hud_fail code now rnd stamp s :
  hudOf (logEvent code now rnd stamp false s) = hudOf s.
Proof.
  unfold logEvent. destruct (currentGame s); [| reflexivity].
  destruct (gameActive s); reflexivity.
Qed.

Lemma buttons_perform a s : buttonsFollowHalf s -> buttonsFollowHalf (perform a s).
Proof.
  intros [H2 He]. unfold buttonsFollowHalf.
  destruct a as [opp lg | now stamp putOk | | code now rnd stamp putOk | delOk | | |
                 | confirmed | h t ty | a1 a2 | fault | | gameId]; simpl perform.
  - done.
  - (* startGame *)
    destruct putOk; [| done].
    destruct (startGame_ok now stamp s) as [Hcore Hdom]. cbv zeta in Hcore.
    unfold core in Hcore. rewrite Hdom. simpl. split; intros H; discriminate H.
  - unfold tick. by destruct (clockInterval s).
  - (* logEvent *)
    destruct putOk.
    + destruct (currentGame s) as [g |] eqn:Hg;
        [| rewrite logEvent_not_live by (by left); done].
      destruct (gameActive s) eqn:Hlive;
        [| rewrite logEvent_not_live by (by right); done].
      destruct (logEvent_hud code now rnd stamp s g Hg Hlive) as (Hh & Hb2 & Hbe & _).
      rewrite Hh, Hb2, Hbe.
      destruct (Z.eqb_spec (currentHalf s) 1) as [H1 | H1];
        destruct (Z.eqb_spec (currentHalf s) 2) as [H2' | H2']; try lia; auto.
    + pose proof (logEvent_hud_fail code now rnd stamp s) as H. unfold hudOf in H.
      assert (E1 : currentHalf (logEvent code now rnd stamp false s) = currentHalf s)
        by congruence.
      assert (E2 : btn_half2_hidden (dom (logEvent code now rnd stamp false s))
                   = btn_half2_hidden (dom s)) by congruence.
      assert (E3 : btn_end_game_hidden (dom (logEvent code now rnd stamp false s))
                   = btn_end_game_hidden (dom s)) by congruence.
      by rewrite E1, E2, E3.
  - (* undoLastEvent *)
    destruct delOk.
    + destruct (last (currentEvents s)) as [e |] eqn:Hlast.
      * apply last_Some in Hlast as [L HL].
        rewrite (undoLastEvent_snoc true s L e HL), updateScoreboard_eq. done.
      * apply last_None in Hlast. by rewrite (undoLastEvent_nil true s Hlast).
    + pose proof (hudOf_undo_fail s) as H. unfold hudOf in H.
      assert (E1 : currentHalf (undoLastEvent false s) = currentHalf s) by congruence.
      assert (E2 : btn_half2_hidden (dom (undoLastEvent false s))
                   = btn_half2_hidden (dom s)) by congruence.
      assert (E3 : btn_end_game_hidden (dom (undoLastEvent false s))
                   = btn_end_game_hidden (dom s)) by congruence.
      by rewrite E1, E2, E3.
  - (* startHalf2 *)
    unfold startHalf2. rewrite startClock_eq, stopClock_eq. simpl.
    split; [intros H; discriminate H | done].
  - destruct (endGame_hud s) as (E1 & E2 & E3 & _). by rewrite E1, E2, E3.
  - destruct (resumeLogging_hud s) as (E1 & E2 & E3 & _). by rewrite E1, E2, E3.
  - destruct (backToSetup_hud confirmed s) as (E1 & E2 & E3 & _). by rewrite E1, E2, E3.
  - done.
  - done.
  - pose proof (applyTimeAdjust_hud fault s) as H. unfold hudOf in H.
    assert (E1 : currentHalf (applyTimeAdjust fault s) = currentHalf s) by congruence.
    assert (E2 : btn_half2_hidden (dom (applyTimeAdjust fault s))
                 = btn_half2_hidden (dom s)) by congruence.
    assert (E3 : btn_end_game_hidden (dom (applyTimeAdjust fault s))
                 = btn_end_game_hidden (dom s)) by congruence.
    by rewrite E1, E2, E3.
  - destruct (viewSavedGames_hud s) as (E1 & E2 & E3 & _). by rewrite E1, E2, E3.
  - destruct (loadSavedGame_hud gameId s) as (E1 & E2 & E3 & _). by rewrite E1, E2, E3.
Qed.

Lemma Reachable_buttons s : Reachable s -> buttonsFollowHalf s.
Proof.
  induction 1 as [| a s _ IH _]; [| by apply buttons_perform].
  split; intros H; discriminate H.
Qed.

End Hud.

Section HudInStep.

Lemma hud_same s s' :
  screen (dom s') = screen (dom s) -> score_pfc (dom s') = score_pfc (dom s) ->
  score_opp (dom s') = score_opp (dom s) ->
  scoreboard (currentEvents s') = scoreboard (currentEvents s) ->
  hudInStep s -> hudInStep s'.
Proof. unfold hudInStep. intros -> -> -> ->. done. Qed.

Lemma hud_of_hudOf s s' :
  hudOf s' = hudOf s -> scoreboard (currentEvents s') = scoreboard (currentEvents s) ->
  hudInStep s -> hudInStep s'.
Proof.
  unfold hudOf. intros H. apply hud_same; congruence.
Qed.

Lemma hud_perform a s : clean a s -> hudInStep s -> hudInStep (perform a s).
Proof.
  intros Hclean Hhud.
  destruct a as [opp lg | now stamp putOk | | code now rnd stamp putOk | delOk | | |
                 | confirmed | h t ty | a1 a2 | fault | | gameId]; simpl perform.
  - by apply (hud_same s).
  - (* startGame *)
    destruct Hclean as [-> _].
    destruct (startGame_ok now stamp s) as [Hcore Hdom]. cbv zeta in Hcore.
    unfold core in Hcore. unfold hudInStep. intros _. rewrite Hdom.
    replace (currentEvents (startGame now stamp true s)) with (@nil Event) by congruence.
    reflexivity.
  - apply (hud_same s); try done; unfold tick; by destruct (clockInterval s).
  - (* logEvent *)
    destruct Hclean as [-> _].
    destruct (currentGame s) as [g |] eqn:Hg;
      [| by rewrite logEvent_not_live by (by left)].
    destruct (gameActive s) eqn:Hlive;
      [| by rewrite logEvent_not_live by (by right)].
    destruct (logEvent_ok_dom s g code now rnd stamp Hg Hlive) as (Hscore & _).
    intros _. exact Hscore.
  - (* undoLastEvent *)
    cbv [clean] in Hclean. subst delOk.
    destruct (last (currentEvents s)) as [e |] eqn:Hlast.
    + apply last_Some in Hlast as [L HL].
      destruct (undoLastEvent_snoc_ok s L e HL) as (Hcore & Hscore & _).
      unfold core in Hcore. intros _. rewrite Hscore. f_equal. congruence.
    + apply last_None in Hlast. rewrite (undoLastEvent_nil true s Hlast).
      by apply (hud_same s).
  - apply (hud_same s); try done;
      unfold startHalf2; by rewrite startClock_eq, stopClock_eq.
  - destruct (endGame_hud s) as (_ & _ & _ & Hscr). intros H. rewrite Hscr in H.
    discriminate H.
  - destruct (resumeLogging_hud s) as (_ & _ & _ & Hscore & Hev). intros _.
    by rewrite Hscore, Hev.
  - destruct (backToSetup_hud confirmed s) as (_ & _ & _ & [-> | Hscr]); [done |].
    intros H. rewrite Hscr in H. discriminate H.
  - by apply (hud_same s).
  - by apply (hud_same s).
  - apply (hud_of_hudOf s); [apply applyTimeAdjust_hud | | done].
    apply scoreboard_codes.
    destruct (applyTimeAdjust_result fault s) as [Hev _]. cbv zeta in Hev.
    rewrite Hev. apply adjustedList_fields.
  - destruct (viewSavedGames_hud s) as (_ & _ & _ & Hscr). intros H. rewrite Hscr in H.
    discriminate H.
  - destruct (loadSavedGame_hud gameId s) as (_ & _ & _ & Hlog).
    intros H. pose proof (Hlog H) as Heq. rewrite Heq in H |- *.
    exact (Hhud H).
Qed.

Lemma CleanRun_hud s : CleanRun s -> hudInStep s.
Proof.
  induction 1 as [st _ | a s _ IH Hclean]; [| by apply hud_perform].
  intros H. discriminate H.
Qed.

End HudInStep.

(** X27. The half-transition buttons follow the half. In every session
    reached from a fresh page, whatever the actions and the storage failures
    were, the Half-2 button is visible only while the half is 1 and the
    End-Game button only while the half is 2, so the two are never visible
    together. *)
Theorem buttons_follow_half (s : Session) :
  Reachable s ->
  (btn_half2_hidden (dom s) = false -> currentHalf s = 1)
  /\ (btn_end_game_hidden (dom s) = false -> currentHalf s = 2)
  /\ (btn_half2_hidden (dom s) = true \/ btn_end_game_hidden (dom s) = true).
Proof.
  intros Hreach. destruct (Reachable_buttons s Hreach) as [H2 He].
  split; [exact H2 |]. split; [exact He |].
  destruct (btn_half2_hidden (dom s)); [by left |].
  destruct (btn_end_game_hidden (dom s)); [by right |].
  specialize (H2 eq_refl). specialize (He eq_refl). lia.
Qed.

Lemma buttons_follow_half_witness :
  Reachable (startHalf2 (startGame 5 1714566896789 true freshSession))
  /\ (btn_end_game_hidden (dom (startHalf2 (startGame 5 1714566896789 true freshSession)))
      = false ->
      currentHalf (startHalf2 (startGame 5 1714566896789 true freshSession)) = 2).
Proof.
  assert (Hreach : Reachable (startHalf2 (startGame 5 1714566896789 true freshSession))).
  { refine (reach_step StartHalf2 _ _ I).
    refine (reach_step (StartGame 5 1714566896789 true) _ reach_fresh _).
    unfold clockInRange, fourDigitYear. lia. }
  split; [exact Hreach |].
  exact (proj1 (proj2 (buttons_follow_half _ Hreach))).
Defined.

(** X28. The score on the logging screen is right. In any run from a page
    load in which every store request succeeds, whenever the logging screen
    is the one shown, the two numbers of the scoreboard are the numbers of
    [GOAL_PFC] and [GOAL_OPP] events in the list in memory; this holds
    through undo, time adjustment, the change of half, a visit to the saved
    games and the return from the review screen. *)
Theorem logging_screen_score_is_right (s : Session) :
  CleanRun s -> screen (dom s) = logging ->
  score_pfc (dom s) = countCode "GOAL_PFC" (currentEvents s)
  /\ score_opp (dom s) = countCode "GOAL_OPP" (currentEvents s).
Proof.
  intros Hrun Hscr. pose proof (CleanRun_hud s Hrun Hscr) as H.
  rewrite scoreboard_counts in H. split; congruence.
Qed.

Lemma logging_screen_score_is_right_witness :
  let s := perform (LogEvent "GOAL_PFC" 7 "abcde" 1714566900000 true)
             (perform (StartGame 5 1714566896789 true) (pageLoad (mkStore ∅ ∅))) in
  CleanRun s /\ screen (dom s) = logging
  /\ score_pfc (dom s) = countCode "GOAL_PFC" (currentEvents s).
Proof.
  intros s.
  assert (Hrun : CleanRun s).
  { apply clean_step.
    - apply clean_step.
      + apply clean_load. split; apply map_Forall_empty.
      + split; [reflexivity | apply map_Forall_empty].
    - split; [reflexivity |]. vm_compute. reflexivity. }
  assert (Hscr : screen (dom s) = logging) by (vm_compute; reflexivity).
  split; [exact Hrun |]. split; [exact Hscr |].
  exact (proj1 (logging_screen_score_is_right s Hrun Hscr)).
Defined.

(** ** The current game and the saved games over a run *)

Section CurrentGame.

(** What an action does to the current game and to the games store. *)
Lemma perform_game a s :
  (currentGame (perform a s) = currentGame s
   \/ (exists now stamp putOk opp lg,
         a = StartGame now stamp putOk
         /\ currentGame (perform a s)
            = Some (mkGame ("game_" +:+ pretty now) (JSDate.toISOString stamp) opp lg))
   \/ (exists gameId, a = LoadSavedGame gameId
         /\ forall g, currentGame (perform a s) = Some g ->
              g ∈ dbGetAll STORE_GAMES (db s)))
  /\ (games (db (perform a s)) = games (db s)
      \/ exists now stamp g, a = StartGame now stamp true
           /\ game_id g = "game_" +:+ pretty now
           /\ games (db (perform a s)) = <[game_id g := g]> (games (db s))).
Proof.
  assert (Hsame : forall s', sameData s s' ->
            (currentGame s' = currentGame s
             \/ (exists now stamp putOk opp lg,
                   a = StartGame now stamp putOk
                   /\ currentGame s'
                      = Some (mkGame ("game_" +:+ pretty now) (JSDate.toISOString stamp)
                                opp lg))
             \/ (exists gameId, a = LoadSavedGame gameId
                   /\ forall g, currentGame s' = Some g ->
                        g ∈ dbGetAll STORE_GAMES (db s)))
            /\ (games (db s') = games (db s)
                \/ exists now stamp g, a = StartGame now stamp true
                     /\ game_id g = "game_" +:+ pretty now
                     /\ games (db s') = <[game_id g := g]> (games (db s)))).
  { intros s' (Hdb & Hg & _). split; [by left | left; by rewrite Hdb]. }
  destruct a as [opp lg | now stamp putOk | | code now rnd stamp putOk | delOk | | |
                 | confirmed | h t ty | a1 a2 | fault | | gameId]; simpl perform.
  - apply Hsame, sameData_typeNames.
  - (* startGame *)
    destruct putOk.
    + destruct (startGame_ok now stamp s) as [Hcore _]. cbv zeta in Hcore.
      unfold core in Hcore. set (g := mkGame _ _ _ _) in Hcore. split.
      * right. left. do 5 eexists. split; [reflexivity |].
        replace (currentGame (startGame now stamp true s)) with (Some g) by congruence.
        reflexivity.
      * right. exists now, stamp, g. split; [done |]. split; [done |].
        replace (db (startGame now stamp true s)) with (dbPut STORE_GAMES g (db s))
          by congruence.
        reflexivity.
    + split; [| by left]. right. left. do 5 eexists. split; reflexivity.
  - apply Hsame, sameData_tick.
  - (* logEvent *)
    destruct (currentGame s) as [g |] eqn:Hg;
      [| rewrite logEvent_not_live by (by left); split; left; [exact Hg | done]].
    destruct (gameActive s) eqn:Hlive;
      [| rewrite logEvent_not_live by (by right); split; left; [exact Hg | done]].
    destruct (logEvent_live s g code now rnd stamp putOk Hg Hlive)
      as (_ & Hdb & Hg' & _).
    split; left; [congruence |]. rewrite Hdb. by destruct putOk.
  - (* undoLastEvent *)
    destruct (last (currentEvents s)) as [e |] eqn:Hlast.
    + apply last_Some in Hlast as [L HL].
      rewrite (undoLastEvent_snoc delOk s L e HL).
      destruct delOk; [rewrite updateScoreboard_eq |]; split; by left.
    + apply last_None in Hlast. rewrite (undoLastEvent_nil delOk s Hlast).
      split; by left.
  - apply Hsame, sameData_startHalf2.
  - apply Hsame, sameData_endGame.
  - apply Hsame, sameData_resumeLogging.
  - apply Hsame, sameData_backToSetup.
  - apply Hsame, sameData_changeFilters.
  - apply Hsame, sameData_onDom.
  - (* applyTimeAdjust *)
    pose proof (applyTimeAdjust_core fault s) as Hcore. cbv zeta in Hcore.
    unfold core in Hcore. split; left; [congruence |].
    replace (db (applyTimeAdjust fault s)) with
      (if (JS.orZero (JS.parseInt10 (adjust_h1 (dom s))) =? 0)
          && (JS.orZero (JS.parseInt10 (adjust_h2 (dom s))) =? 0)
       then db s
       else persistEvents fault
              (adjustedList (JS.orZero (JS.parseInt10 (adjust_h1 (dom s))))
                 (JS.orZero (JS.parseInt10 (adjust_h2 (dom s)))) (currentEvents s))
              (db s)) by congruence.
    destruct (_ && _); [done | apply persistEvents_games].
  - apply Hsame, sameData_viewSavedGames.
  - (* loadSavedGame *)
    destruct (List.find (fun g => String.eqb (game_id g) gameId)
                (dbGetAll STORE_GAMES (db s))) as [g |] eqn:Hfind.
    + destruct (loadSavedGame_Some gameId s g Hfind) as (Hcore & _).
      unfold core in Hcore. split.
      * right. right. exists gameId. split; [done |]. intros g' Hg'.
        apply find_Some_elem in Hfind as [Hin _].
        assert (Heq : g' = g) by congruence. by rewrite Heq.
      * left. congruence.
    + rewrite (loadSavedGame_None gameId s Hfind). split; [| by left].
      right. right. exists gameId. split; [done |]. intros g' Hg'. discriminate Hg'.
Qed.

Lemma Reachable_current_date s :
  Reachable s -> forall g, currentGame s = Some g -> is_Some (JSDate.parse (date g)).
Proof.
  induction 1 as [| a s Hreach IH Hrange]; intros g Hg; [discriminate Hg |].
  destruct (perform_game a s) as [[Heq | [Hstart | Hload]] _].
  - apply IH. congruence.
  - destruct Hstart as (now & stamp & putOk & opp & lg & -> & Hcur).
    rewrite Hcur in Hg. injection Hg as <-. simpl.
    rewrite parse_toISOString by exact Hrange. by eexists.
  - destruct Hload as (gameId & -> & Hin).
    apply Hin, dbGetAll_games_lookup in Hg as [k Hk].
    exact (inv_stored_games s (Reachable_Invariant s Hreach) k g Hk).
Qed.

Lemma run_snoc acts a s : run (acts ++ [a]) s = perform a (run acts s).
Proof. unfold run. by rewrite fold_left_app. Qed.

End CurrentGame.

(** X29. Export does not fail on a game of this app. In every session
    reached from a fresh page that has a current game, the date of that game
    reads back as an instant, so that with a view that is not empty both
    exports hand over a file, named by [buildFilename] with the right
    extension, and neither throws. *)
Theorem export_succeeds_when_reachable (locale : string -> string) (s : Session)
    (g : Game) :
  Reachable s -> currentGame s = Some g -> getFilteredEvents s <> [] ->
  is_Some (JSDate.parse (date g))
  /\ (exists d, exportCSV locale s = (s, Downloaded d)
                /\ buildFilename "csv" s = Some (dl_filename d))
  /\ (exists d, exportText locale s = (s, Downloaded d)
                /\ buildFilename "txt" s = Some (dl_filename d)).
Proof.
  intros Hreach Hg Hview.
  destruct (Reachable_current_date s Hreach g Hg) as [t Ht].
  split; [by exists t |].
  assert (Hfn : forall ext, is_Some (buildFilename ext s)).
  { intros ext. apply buildFilename_is_Some. by exists g, t. }
  pose proof (exportCSV_cases locale s) as Hc.
  pose proof (exportText_cases locale s) as Hx.
  destruct (getFilteredEvents s) as [| e view]; [done |].
  rewrite Hg in Hc, Hx.
  destruct (Hfn "csv") as [fc Hfc]. destruct (Hfn "txt") as [fx Hfx].
  pose proof Hfc as Hfc'. pose proof Hfx as Hfx'.
  rewrite Hfc' in Hc. rewrite Hfx' in Hx. split.
  - eexists. split; [exact Hc | exact Hfc].
  - destruct Hx as (d & Hd & Hname). exists d. split; [exact Hd | by rewrite Hname].
Qed.

Lemma export_succeeds_when_reachable_witness :
  let s := perform (LogEvent "GOAL_PFC" 7 "abcde" 1714566900000 true)
             (perform (StartGame 5 1714566896789 true) freshSession) in
  let g := mkGame "game_5" "2024-05-01T12:34:56.789Z" "Unknown" "Logger 1" in
  Reachable s /\ currentGame s = Some g /\ getFilteredEvents s <> []
  /\ is_Some (JSDate.parse (date g)).
Proof.
  intros s g.
  assert (Hreach : Reachable s).
  { apply reach_step; [apply reach_step; [apply reach_fresh |] |];
      unfold clockInRange, fourDigitYear; lia. }
  assert (Hg : currentGame s = Some g) by (vm_compute; reflexivity).
  assert (Hview : getFilteredEvents s <> []).
  { let l := eval vm_compute in (getFilteredEvents s) in
    change (getFilteredEvents s) with l.
    discriminate. }
  split; [exact Hreach |]. split; [exact Hg |]. split; [exact Hview |].
  exact (proj1 (export_succeeds_when_reachable (fun d => d) s g Hreach Hg Hview)).
Defined.

(** X30. Saved games are never lost. Whatever a run of actions does, a
    game that is in the games store stays there, unchanged, under its id,
    unless the run stores a new game under that same id; in particular
    nothing but a successful [startGame] writes to the games store. *)
Theorem saved_games_are_kept (acts : list Action) (s : Session) (k : string) (g : Game) :
  games (db s) !! k = Some g ->
  Forall (fun a => storesGame a <> Some k) acts ->
  games (db (run acts s)) !! k = Some g
  /\ (Forall (fun a => storesGame a = None) acts ->
      games (db (run acts s)) = games (db s)).
Proof.
  intros Hk Hacts. induction acts as [| a acts IH] using rev_ind.
  - split; [exact Hk | done].
  - apply Forall_app in Hacts as [Hacts Ha]. apply Forall_cons in Ha as [Ha _].
    destruct (IH Hacts) as [IHk IHnone]. rewrite run_snoc.
    destruct (perform_game a (run acts s)) as [_ [Hsame | Hput]].
    + rewrite Hsame. split; [exact IHk |].
      intros [Hn _]%Forall_app. by apply IHnone.
    + destruct Hput as (now & stamp & g' & -> & Hid & Hdb). rewrite Hdb. split.
      * rewrite lookup_insert_ne; [exact IHk |].
        simpl in Ha. rewrite Hid. intros Heq. apply Ha. by rewrite Heq.
      * intros [_ Hn]%Forall_app. apply Forall_cons in Hn as [Hn _]. discriminate Hn.
Qed.

Lemma saved_games_are_kept_witness :
  games (db savedSession) !! "game_1" = Some savedGame
  /\ games (db (run [StartGame 5 6 true; LogEvent "GOAL_PFC" 7 "abcde" 8 true;
                     UndoLast true; EndGame] savedSession)) !! "game_1"
     = Some savedGame.
Proof.
  assert (Hk : games (db savedSession) !! "game_1" = Some savedGame)
    by (vm_compute; reflexivity).
  split; [exact Hk |].
  refine (proj1 (saved_games_are_kept _ savedSession "game_1" savedGame Hk _)).
  repeat constructor; vm_compute; discriminate.
Defined.
